(** * clone-gpt: the message-streaming relay, embedded in Rocq

    A shallow embedding of the chat back end of clone-gpt:
    - [app/api/chats/[chatId]/stream/route.ts]: the streaming relay and its
      chunk decoder;
    - [app/api/chats/[chatId]/simulate-stream/route.ts]: the relay that
      streams a single-shot completion word by word (the one the client
      calls);
    - [app/api/chats/[chatId]/route.ts]: owned lookup and delete;
    - [lib/hooks/useChat.ts]: the client-side reducer, and the regenerate
      handler of [app/chat/[chatId]/page.tsx];
    - [lib/models/Chat.ts], [lib/types/chat.ts]: the data model;
    together with the parts of the JavaScript runtime these handlers call:
    string methods, [JSON.parse], property access and conversions on parsed
    values, [TextDecoder].  ([messages/route.ts], the single-shot exchange,
    opens with the same guards and derives the title with the same
    expression; it is not embedded.)

    JavaScript strings are sequences of UTF-16 code units, modelled as
    [list N].  The MongoDB collection is a finite map from [_id] to the
    stored document.  What a handler reads from outside (the request, the
    clock, what the provider answers) is an argument of its model; logging
    and the pacing delays are left out.  The relays come twice: first for a
    store that accepts every write, then, in [Fallible], with the store's
    answer to each [chat.save()] as one more argument, so that a rejected
    save takes the path the code takes.  The last part of the definitions
    adds the collection routes, the messages of the request sent to the
    provider, attachment processing, and more of the client. *)

From Stdlib Require Import ZArith NArith String Ascii List Bool Lia.
From stdpp Require Import base option list gmap.

Local Open Scope N_scope.

(** ** JavaScript strings *)

Abbreviation jsstr := (list N).

Module JsString.

(** A literal written in the source, as its code units. *)
Definition js (s : string) : jsstr :=
  List.map N_of_ascii (list_ascii_of_string s).
Arguments js s%_string.

(** The same with every apostrophe read as a double quote, to write
    JSON text legibly. *)
Definition jsq (s : string) : jsstr :=
  List.map (fun c => if c =? 39 then 34 else c) (js s).
Arguments jsq s%_string.

Fixpoint eqb (a b : jsstr) : bool :=
  match a, b with
  | [], [] => true
  | x :: a', y :: b' => N.eqb x y && eqb a' b'
  | _, _ => false
  end.

(** ECMAScript [WhiteSpace] and [LineTerminator] code points: what
    [String.prototype.trim] strips. *)
Definition is_ws (c : N) : bool :=
  (c =? 9) || (c =? 10) || (c =? 11) || (c =? 12) || (c =? 13) || (c =? 32)
  || (c =? 160) || (c =? 5760)
  || ((8192 <=? c) && (c <=? 8202))
  || (c =? 8232) || (c =? 8233) || (c =? 8239) || (c =? 8287)
  || (c =? 12288) || (c =? 65279).

Fixpoint trimStart (s : jsstr) : jsstr :=
  match s with
  | [] => []
  | c :: s' => if is_ws c then trimStart s' else s
  end.

Definition trimEnd (s : jsstr) : jsstr := rev (trimStart (rev s)).

(** [s.trim()] *)
Definition trim (s : jsstr) : jsstr := trimEnd (trimStart s).

(** [s.split(sep)] for a separator of one code unit. *)
Fixpoint split (sep : N) (s : jsstr) : list jsstr :=
  match s with
  | [] => [[]]
  | c :: s' =>
      if c =? sep then [] :: split sep s'
      else match split sep s' with
           | [] => [[c]]
           | w :: ws => (c :: w) :: ws
           end
  end.

(** [parts.join(sep)] *)
Fixpoint join (sep : jsstr) (parts : list jsstr) : jsstr :=
  match parts with
  | [] => []
  | [w] => w
  | w :: ws => w ++ sep ++ join sep ws
  end.

(** [s.startsWith(p)] *)
Fixpoint startsWith (p s : jsstr) : bool :=
  match p, s with
  | [], _ => true
  | x :: p', y :: s' => N.eqb x y && startsWith p' s'
  | _ :: _, [] => false
  end.

(** [s.slice(n)] for [0 <= n]. *)
Definition slice_from (n : nat) (s : jsstr) : jsstr := drop n s.

(** [s.substring(0, n)] *)
Definition substring0 (n : nat) (s : jsstr) : jsstr := take n s.

End JsString.
Import JsString.

(** ** Title derivation

    [message.trim().split(' ').slice(0, 6).join(' ')], then
    [firstWords.length > 50 ? firstWords.substring(0, 47) + '...' : firstWords]. *)

Definition SPACE : N := 32.

Definition firstWords (message : jsstr) : jsstr :=
  join (js " ") (take 6 (split SPACE (trim message))).

Definition derive_title (message : jsstr) : jsstr :=
  let fw := firstWords message in
  if (50 <? length fw)%nat then substring0 47 fw ++ js "..." else fw.

(** ** JavaScript numbers

    [JSON.parse] turns a number token into an IEEE-754 double; the relay
    only tests such a value for truthiness and appends it to a string.
    A double is kept as sign, integral significand and binary exponent. *)

Module JsNumber.

Inductive t :=
| Zero (neg : bool)
| Finite (neg : bool) (m : Z) (q : Z)     (* (-1)^neg * m * 2^q, 0 < m < 2^53 *)
| Infinity (neg : bool).

(** Nearest integer to the positive rational [n / d], ties to even. *)
Definition round_half_even (n d : Z) : Z :=
  let fl := (n / d)%Z in
  let r := (n mod d)%Z in
  match (2 * r ?= d)%Z with
  | Lt => fl
  | Gt => (fl + 1)%Z
  | Eq => if Z.even fl then fl else (fl + 1)%Z
  end.

(** [floor (log2 (n / d))] for positive [n], [d]. *)
Definition floor_log2_ratio (n d : Z) : Z :=
  let p0 := (Z.log2 n - Z.log2 d)%Z in
  let ge := if (0 <=? p0)%Z then (d * 2 ^ p0 <=? n)%Z else (d <=? n * 2 ^ (- p0))%Z in
  if ge then p0 else (p0 - 1)%Z.

(** The double nearest to [n / d] (round to nearest, ties to even). *)
Definition of_ratio (neg : bool) (n d : Z) : t :=
  if (n <=? 0)%Z then Zero neg
  else
    let p := floor_log2_ratio n d in
    let q := Z.max (p - 52) (-1074) in
    let m := if (0 <=? q)%Z then round_half_even n (d * 2 ^ q)
             else round_half_even (n * 2 ^ (- q)) d in
    let '(m, q) := if (m =? 2 ^ 53)%Z then (2 ^ 52, q + 1)%Z else (m, q) in
    if (m =? 0)%Z then Zero neg
    else if (971 <? q)%Z then Infinity neg
    else Finite neg m q.

Definition digits_value (ds : list Z) : Z :=
  fold_left (fun acc d => (10 * acc + d)%Z) ds 0%Z.

Fixpoint strip_zeros (ds : list Z) : list Z :=
  match ds with
  | d :: ds' => if (d =? 0)%Z then strip_zeros ds' else ds
  | [] => []
  end.

(** The value of a JSON number token: sign, digits of the integer and
    fraction parts, and the (signed) exponent digits.  Tokens far outside
    the range of doubles are settled without building the power of ten. *)
Definition of_decimal (neg : bool) (int_ds frac_ds : list Z)
    (exp_neg : bool) (exp_ds : list Z) : t :=
  let mant := digits_value (int_ds ++ frac_ds) in
  if (mant =? 0)%Z then Zero neg
  else
    let nd := Z.of_nat (length (int_ds ++ frac_ds)) in
    let exp_ds' := strip_zeros exp_ds in
    if (4 <? length exp_ds')%nat then
      (if exp_neg then Zero neg else Infinity neg)
    else
      let e := digits_value exp_ds' in
      let e := if exp_neg then (- e)%Z else e in
      let e10 := (e - Z.of_nat (length frac_ds))%Z in
      if (400 <? e10)%Z then Infinity neg
      else if (e10 + nd <? -400)%Z then Zero neg
      else if (0 <=? e10)%Z then of_ratio neg (mant * 10 ^ e10) 1
      else of_ratio neg mant (10 ^ (- e10)).

Definition is_zero (x : t) : bool :=
  match x with Zero _ => true | _ => false end.

(** *** [Number::toString] (radix 10) *)

Definition digit_char (d : Z) : N := (48 + Z.to_N d)%N.

Fixpoint digits_of_fuel (fuel : nat) (n : Z) (acc : list N) : list N :=
  match fuel with
  | O => acc
  | S f =>
      if (n <? 10)%Z then digit_char n :: acc
      else digits_of_fuel f (n / 10)%Z (digit_char (n mod 10) :: acc)
  end.

(** Decimal digits of a non-negative integer. *)
Definition digits_of (n : Z) : list N :=
  digits_of_fuel (S (Z.to_nat (Z.log2 n))) n [].

(** The candidates [s] with [s * 10^t] inside the rounding interval of the
    double, written over the common denominator [den]: [lo], [v], [hi] are
    the numerators of the lower bound, the value and the upper bound;
    the bounds belong to the interval iff [incl].  Returns the candidate
    closest to the value, if there is one. *)
Definition candidate (lo v hi den : Z) (incl : bool) (t : Z) : option Z :=
  let ns := (10 ^ Z.max 0 (- t))%Z in
  let P := (den * 10 ^ Z.max 0 t)%Z in
  let s_min :=
    if incl then ((lo * ns + P - 1) / P)%Z else ((lo * ns) / P + 1)%Z in
  let s_max :=
    if incl then ((hi * ns) / P)%Z else ((hi * ns + P - 1) / P - 1)%Z in
  let s_min := Z.max 1 s_min in
  if (s_max <? s_min)%Z then None
  else Some (Z.max s_min (Z.min s_max (round_half_even (v * ns) P))).

Fixpoint shortest_fuel (fuel : nat) (lo v hi den : Z) (incl : bool) (t : Z)
  : option (Z * Z) :=
  match fuel with
  | O => None
  | S f =>
      match candidate lo v hi den incl t with
      | Some s => Some (s, t)
      | None => shortest_fuel f lo v hi den incl (t - 1)
      end
  end.

(** The shortest decimal [s * 10^t] that reads back as [m * 2^q]. *)
Definition shortest (m q : Z) : option (Z * Z) :=
  let den := if (q - 2 <? 0)%Z then (2 ^ (2 - q))%Z else 1%Z in
  let u := if (q - 2 <? 0)%Z then 1%Z else (2 ^ (q - 2))%Z in
  let v := (4 * m * u)%Z in
  let hi := ((4 * m + 2) * u)%Z in
  let lo := if (m =? 2 ^ 52)%Z && (-1074 <? q)%Z
            then ((4 * m - 1) * u)%Z else ((4 * m - 2) * u)%Z in
  let t0 := ((Z.log2 hi - Z.log2 den + 1) * 30103 / 100000 + 1)%Z in
  shortest_fuel 40 lo v hi den (Z.even m) t0.

Definition zeros (n : Z) : list N := repeat 48%N (Z.to_nat n).

Definition format (digits : list N) (n : Z) : jsstr :=
  let k := Z.of_nat (length digits) in
  if (k <=? n)%Z && (n <=? 21)%Z then digits ++ zeros (n - k)
  else if (0 <? n)%Z && (n <=? 21)%Z then
    take (Z.to_nat n) digits ++ [46%N] ++ drop (Z.to_nat n) digits
  else if (-6 <? n)%Z && (n <=? 0)%Z then
    [48%N; 46%N] ++ zeros (- n) ++ digits
  else
    let e := (n - 1)%Z in
    let sign := if (e <? 0)%Z then 45%N else 43%N in
    let mant := match digits with
                | [d] => [d]
                | d :: ds => d :: 46%N :: ds
                | [] => []
                end in
    mant ++ [101%N; sign] ++ digits_of (Z.abs e).

Definition toString (x : t) : jsstr :=
  match x with
  | Zero _ => [48%N]
  | Infinity neg =>
      (if neg then [45%N] else []) ++ List.map N_of_ascii (list_ascii_of_string "Infinity")
  | Finite neg m q =>
      match shortest m q with
      | Some (s, t) =>
          let ds := digits_of s in
          (if neg then [45%N] else []) ++ format ds (t + Z.of_nat (length ds))
      | None => []
      end
  end.

End JsNumber.

(** ** JSON values and [JSON.parse] *)

#[warnings="-register-all"]
Inductive JSValue :=
| JNull
| JBool (b : bool)
| JNum (x : JsNumber.t)
| JStr (s : jsstr)
| JArr (xs : list JSValue)
| JObj (kvs : list (jsstr * JSValue)).

Module Json.

(** Outcome of a parsing function: a value and the unread input, a
    [SyntaxError], or exhaustion of the recursion budget of the model. *)
Inductive PResult (A : Type) :=
| POk (a : A) (rest : jsstr)
| PSyntaxError
| POutOfFuel.
Arguments POk {A} a rest.
Arguments PSyntaxError {A}.
Arguments POutOfFuel {A}.

(** JSON white space: tab, line feed, carriage return, space. *)
Definition is_json_ws (c : N) : bool :=
  (c =? 9) || (c =? 10) || (c =? 13) || (c =? 32).

Fixpoint skip_ws (s : jsstr) : jsstr :=
  match s with
  | c :: s' => if is_json_ws c then skip_ws s' else s
  | [] => []
  end.

Definition is_digit (c : N) : bool := (48 <=? c) && (c <=? 57).

Definition hex_value (c : N) : option N :=
  if is_digit c then Some (c - 48)
  else if (65 <=? c) && (c <=? 70) then Some (c - 55)
  else if (97 <=? c) && (c <=? 102) then Some (c - 87)
  else None.

Definition map_ok {A B : Type} (f : A -> B) (r : PResult A) : PResult B :=
  match r with
  | POk a rest => POk (f a) rest
  | PSyntaxError => PSyntaxError
  | POutOfFuel => POutOfFuel
  end.

(** The characters of a string token after its opening quote. *)
Fixpoint parse_string_body (s : jsstr) : PResult jsstr :=
  match s with
  | [] => PSyntaxError
  | c :: rest =>
      if c =? 34 then POk [] rest
      else if c =? 92 then
        match rest with
        | [] => PSyntaxError
        | e :: r =>
            if e =? 34 then map_ok (cons 34) (parse_string_body r)
            else if e =? 92 then map_ok (cons 92) (parse_string_body r)
            else if e =? 47 then map_ok (cons 47) (parse_string_body r)
            else if e =? 98 then map_ok (cons 8) (parse_string_body r)
            else if e =? 102 then map_ok (cons 12) (parse_string_body r)
            else if e =? 110 then map_ok (cons 10) (parse_string_body r)
            else if e =? 114 then map_ok (cons 13) (parse_string_body r)
            else if e =? 116 then map_ok (cons 9) (parse_string_body r)
            else if e =? 117 then
              match r with
              | a :: b :: c :: d :: r' =>
                  match hex_value a, hex_value b, hex_value c, hex_value d with
                  | Some ha, Some hb, Some hc, Some hd =>
                      map_ok (cons (((ha * 16 + hb) * 16 + hc) * 16 + hd))
                             (parse_string_body r')
                  | _, _, _, _ => PSyntaxError
                  end
              | _ => PSyntaxError
              end
            else PSyntaxError
        end
      else if c <? 32 then PSyntaxError
      else map_ok (cons c) (parse_string_body rest)
  end.

Fixpoint span_digits (s : jsstr) : list Z * jsstr :=
  match s with
  | c :: s' =>
      if is_digit c then
        let '(ds, rest) := span_digits s' in (Z.of_N (c - 48) :: ds, rest)
      else ([], s)
  | [] => ([], [])
  end.

(** The sign of a number token or of its exponent. *)
Definition take_sign (allow_plus : bool) (s : jsstr) : bool * jsstr :=
  match s with
  | c :: r =>
      if c =? 45 then (true, r)
      else if allow_plus && (c =? 43) then (false, r)
      else (false, s)
  | [] => (false, [])
  end.

(** The integer part: a single zero, or a digit run not starting with zero. *)
Definition int_part (s : jsstr) : option (list Z * jsstr) :=
  match s with
  | c :: r =>
      if c =? 48 then Some ([0%Z], r)
      else if is_digit c then Some (span_digits s)
      else None
  | [] => None
  end.

(** The fraction part: nothing, or a dot and one or more digits. *)
Definition frac_part (s : jsstr) : option (list Z * jsstr) :=
  match s with
  | c :: r =>
      if c =? 46 then
        match span_digits r with
        | ([], _) => None
        | (ds, r') => Some (ds, r')
        end
      else Some ([], s)
  | [] => Some ([], [])
  end.

(** The exponent part: nothing, or [e] or [E], a sign and one or more
    digits. *)
Definition exp_part (s : jsstr) : option (bool * list Z * jsstr) :=
  match s with
  | c :: r =>
      if (c =? 101) || (c =? 69) then
        let '(exp_neg, r1) := take_sign true r in
        match span_digits r1 with
        | ([], _) => None
        | (ds, r') => Some (exp_neg, ds, r')
        end
      else Some (false, [], s)
  | [] => Some (false, [], [])
  end.

(** A number token. *)
Definition parse_number (s : jsstr) : PResult JsNumber.t :=
  let '(neg, s1) := take_sign false s in
  match int_part s1 with
  | None => PSyntaxError
  | Some (int_ds, s2) =>
      match frac_part s2 with
      | None => PSyntaxError
      | Some (frac_ds, s3) =>
          match exp_part s3 with
          | None => PSyntaxError
          | Some (exp_neg, exp_ds, s4) =>
              POk (JsNumber.of_decimal neg int_ds frac_ds exp_neg exp_ds) s4
          end
      end
  end.

Definition expect_literal (lit : jsstr) (v : JSValue) (s : jsstr) : PResult JSValue :=
  if startsWith lit s then POk v (drop (length lit) s) else PSyntaxError.

(** Recursive descent over values, array elements and object members; each
    call spends one unit of [fuel]. *)
Fixpoint parse_value (fuel : nat) (s : jsstr) : PResult JSValue :=
  match fuel with
  | O => POutOfFuel
  | S f =>
      match skip_ws s with
      | [] => PSyntaxError
      | c :: r =>
          if c =? 123 then
            match skip_ws r with
            | [] => PSyntaxError
            | c' :: r' => if c' =? 125 then POk (JObj []) r' else parse_members f [] r
            end
          else if c =? 91 then
            match skip_ws r with
            | [] => PSyntaxError
            | c' :: r' => if c' =? 93 then POk (JArr []) r' else parse_elements f [] r
            end
          else if c =? 34 then map_ok JStr (parse_string_body r)
          else if c =? 116 then expect_literal (js "true") (JBool true) (c :: r)
          else if c =? 102 then expect_literal (js "false") (JBool false) (c :: r)
          else if c =? 110 then expect_literal (js "null") JNull (c :: r)
          else map_ok JNum (parse_number (c :: r))
      end
  end
with parse_elements (fuel : nat) (acc : list JSValue) (s : jsstr) : PResult JSValue :=
  match fuel with
  | O => POutOfFuel
  | S f =>
      match parse_value f s with
      | POk v rest =>
          match skip_ws rest with
          | [] => PSyntaxError
          | c :: r =>
              if c =? 44 then parse_elements f (v :: acc) r
              else if c =? 93 then POk (JArr (rev (v :: acc))) r
              else PSyntaxError
          end
      | other => other
      end
  end
with parse_members (fuel : nat) (acc : list (jsstr * JSValue)) (s : jsstr) : PResult JSValue :=
  match fuel with
  | O => POutOfFuel
  | S f =>
      match skip_ws s with
      | [] => PSyntaxError
      | q :: r =>
          if q =? 34 then
            match parse_string_body r with
            | POk key rest =>
                match skip_ws rest with
                | [] => PSyntaxError
                | c :: r' =>
                    if c =? 58 then
                      match parse_value f r' with
                      | POk v rest' =>
                          match skip_ws rest' with
                          | [] => PSyntaxError
                          | c' :: r'' =>
                              if c' =? 44 then parse_members f ((key, v) :: acc) r''
                              else if c' =? 125 then POk (JObj (rev ((key, v) :: acc))) r''
                              else PSyntaxError
                          end
                      | other => other
                      end
                    else PSyntaxError
                end
            | PSyntaxError => PSyntaxError
            | POutOfFuel => POutOfFuel
            end
          else PSyntaxError
      end
  end.

(** A parsing step that does not exhaust the budget and, when it succeeds,
    leaves less input than it was given. *)
Definition shrinks {A : Type} (s : jsstr) (r : PResult A) : Prop :=
  r <> POutOfFuel /\ forall a rest, r = POk a rest -> (length rest < length s)%nat.

(** [JSON.parse(text)]: [None] stands for the [SyntaxError] it throws. *)
Definition parse (text : jsstr) : option JSValue :=
  match parse_value (S (2 * length text)) text with
  | POk v rest => match skip_ws rest with [] => Some v | _ => None end
  | _ => None
  end.

End Json.

(** ** Reading parsed values: property access, truthiness, [ToString] *)

Module Js.

(** The last binding of [key] wins, as in an object built by [JSON.parse]. *)
Fixpoint lookup_key (key : jsstr) (kvs : list (jsstr * JSValue)) : option JSValue :=
  match kvs with
  | [] => None
  | (k, v) :: kvs' =>
      match lookup_key key kvs' with
      | Some v' => Some v'
      | None => if JsString.eqb k key then Some v else None
      end
  end.

(** [v.key] for a value that is neither [null] nor [undefined], and a key
    that no prototype defines ([choices], [delta], [message], [content]):
    only an object can own it.  [None] is [undefined]. *)
Definition get (v : JSValue) (key : jsstr) : option JSValue :=
  match v with
  | JObj kvs => lookup_key key kvs
  | _ => None
  end.

(** [v[0]] for a value that is neither [null] nor [undefined]. *)
Definition index0 (v : JSValue) : option JSValue :=
  match v with
  | JArr xs => head xs
  | JStr (c :: _) => Some (JStr [c])
  | JObj kvs => lookup_key (js "0") kvs
  | _ => None
  end.

(** [o?.key]: short-circuits to [undefined] on [null] and [undefined]. *)
Definition opt_get (o : option JSValue) (key : jsstr) : option JSValue :=
  match o with
  | None | Some JNull => None
  | Some v => get v key
  end.

(** [o?.[0]] *)
Definition opt_index0 (o : option JSValue) : option JSValue :=
  match o with
  | None | Some JNull => None
  | Some v => index0 v
  end.

(** [v.key] without the guard: [None] is the [TypeError] thrown on
    [null]; the inner option is the value read. *)
Definition strict_get (v : JSValue) (key : jsstr) : option (option JSValue) :=
  match v with
  | JNull => None
  | _ => Some (get v key)
  end.

(** [ToBoolean] *)
Definition truthy (o : option JSValue) : bool :=
  match o with
  | None => false
  | Some JNull => false
  | Some (JBool b) => b
  | Some (JNum x) => negb (JsNumber.is_zero x)
  | Some (JStr s) => match s with [] => false | _ => true end
  | Some (JArr _) | Some (JObj _) => true
  end.

Definition has_key (key : jsstr) (kvs : list (jsstr * JSValue)) : bool :=
  existsb (fun kv => JsString.eqb (fst kv) key) kvs.

(** The string a value contributes to a concatenation [str + v].
    An array is joined with commas, [null] elements giving the empty
    string; a plain object gives its default tag, unless parsed text gave
    it a [toString] entry, which is not callable: [None] stands for the
    [TypeError] of the conversion. *)
Fixpoint toString (v : JSValue) : option jsstr :=
  match v with
  | JNull => Some (js "null")
  | JBool true => Some (js "true")
  | JBool false => Some (js "false")
  | JNum x => Some (JsNumber.toString x)
  | JStr s => Some s
  | JArr xs =>
      (fix elems (xs : list JSValue) : option jsstr :=
         match xs with
         | [] => Some []
         | x :: rest =>
             let sx := match x with JNull => Some [] | _ => toString x end in
             match sx, rest with
             | None, _ => None
             | Some a, [] => Some a
             | Some a, _ :: _ =>
                 match elems rest with
                 | Some b => Some (a ++ js "," ++ b)
                 | None => None
                 end
             end
         end) xs
  | JObj kvs =>
      if has_key (js "toString") kvs then None else Some (js "[object Object]")
  end.

End Js.

(** ** [TextDecoder] (UTF-8, streaming)

    The decoder of the Encoding standard.  Between reads it keeps the
    partly read code point; a byte order mark at the start of the stream is
    dropped. *)

Module TextDecoder.

Record t := {
  code_point : N;
  bytes_needed : N;
  bytes_seen : N;
  lower : N;
  upper : N;
  bom_seen : bool;
}.

Definition init : t :=
  {| code_point := 0; bytes_needed := 0; bytes_seen := 0;
     lower := 128; upper := 191; bom_seen := false |}.

Definition reset (d : t) : t :=
  {| code_point := 0; bytes_needed := 0; bytes_seen := 0;
     lower := 128; upper := 191; bom_seen := bom_seen d |}.

Definition REPLACEMENT : N := 65533.

(** A byte read when no code point is in progress. *)
Definition lead (d : t) (b : N) : t * list N :=
  if b <=? 127 then (d, [b])
  else if (194 <=? b) && (b <=? 223) then
    ({| code_point := N.land b 31; bytes_needed := 1; bytes_seen := 0;
        lower := 128; upper := 191; bom_seen := bom_seen d |}, [])
  else if (224 <=? b) && (b <=? 239) then
    ({| code_point := N.land b 15; bytes_needed := 2; bytes_seen := 0;
        lower := (if b =? 224 then 160 else 128);
        upper := (if b =? 237 then 159 else 191);
        bom_seen := bom_seen d |}, [])
  else if (240 <=? b) && (b <=? 244) then
    ({| code_point := N.land b 7; bytes_needed := 3; bytes_seen := 0;
        lower := (if b =? 240 then 144 else 128);
        upper := (if b =? 244 then 143 else 191);
        bom_seen := bom_seen d |}, [])
  else (d, [REPLACEMENT]).

(** One byte through the decoder: the new state and the code points
    it completes. *)
Definition step (d : t) (b : N) : t * list N :=
  if bytes_needed d =? 0 then lead d b
  else if (b <? lower d) || (upper d <? b) then
    let '(d', out) := lead (reset d) b in (d', REPLACEMENT :: out)
  else
    let cp := N.lor (N.shiftl (code_point d) 6) (N.land b 63) in
    if bytes_seen d + 1 =? bytes_needed d then (reset d, [cp])
    else
      ({| code_point := cp; bytes_needed := bytes_needed d;
          bytes_seen := bytes_seen d + 1;
          lower := 128; upper := 191; bom_seen := bom_seen d |}, []).

Fixpoint run (d : t) (bytes : list N) : t * list N :=
  match bytes with
  | [] => (d, [])
  | b :: bs =>
      let '(d1, out1) := step d b in
      let '(d2, out2) := run d1 bs in
      (d2, out1 ++ out2)
  end.

(** A code point as UTF-16 code units. *)
Definition utf16 (cp : N) : jsstr :=
  if cp <? 65536 then [cp]
  else let c := cp - 65536 in [55296 + N.shiftr c 10; 56320 + N.land c 1023].

(** [decoder.decode(value, { stream: true })] *)
Definition decode (d : t) (value : list N) : t * jsstr :=
  let '(d', cps) := run d value in
  match cps with
  | [] => (d', [])
  | cp :: cps' =>
      let cps'' := if negb (bom_seen d') && (cp =? 65279) then cps' else cps in
      ({| code_point := code_point d'; bytes_needed := bytes_needed d';
          bytes_seen := bytes_seen d'; lower := lower d'; upper := upper d';
          bom_seen := true |},
       concat (List.map utf16 cps''))
  end.

End TextDecoder.

(** ** Data model

    [lib/types/chat.ts] and the Mongoose schema [lib/models/Chat.ts]. *)

Inductive Role := user | assistant.

Record ProcessedFile := {
  name : jsstr;
  mimeType : jsstr;
  textContent : option jsstr;
}.

Record Message := {
  role : Role;
  content : jsstr;
  timestamp : Z;
  files : option (list ProcessedFile);
}.

Record Chat := {
  userId : jsstr;
  title : jsstr;
  messages : list Message;
  createdAt : Z;
  updatedAt : Z;
}.

(** The collection, keyed by [_id]. *)
Abbreviation Store := (gmap (list N) Chat).

Module Mongo.

(** [Chat.findOne({ _id: chatId, userId })] *)
Definition findOne (db : Store) (chatId uid : jsstr) : option Chat :=
  match db !! chatId with
  | Some chat => if decide (userId chat = uid) then Some chat else None
  | None => None
  end.

(** [Chat.findOneAndDelete({ _id: chatId, userId })]: the removed document,
    if one matched, and the collection afterwards. *)
Definition findOneAndDelete (db : Store) (chatId uid : jsstr) : option Chat * Store :=
  match findOne db chatId uid with
  | Some chat => (Some chat, delete chatId db)
  | None => (None, db)
  end.

(** The message sub-schema has no [files] path: the cast drops it. *)
Definition cast (m : Message) : Message :=
  {| role := role m; content := content m; timestamp := timestamp m; files := None |}.

(** [chat.messages.push(m)] *)
Definition push (chat : Chat) (m : Message) : Chat :=
  {| userId := userId chat; title := title chat;
     messages := messages chat ++ [cast m];
     createdAt := createdAt chat; updatedAt := updatedAt chat |}.

(** [chat.title = t] *)
Definition set_title (chat : Chat) (t : jsstr) : Chat :=
  {| userId := userId chat; title := t; messages := messages chat;
     createdAt := createdAt chat; updatedAt := updatedAt chat |}.

(** [await chat.save()] when the store accepts the write: the pre-save hook
    stamps [updatedAt], then the whole document is written.  The call with
    its rejection is [Fallible.save]. *)
Definition save (db : Store) (chatId : jsstr) (chat : Chat) (now : Z) : Store * Chat :=
  let chat' := {| userId := userId chat; title := title chat; messages := messages chat;
                  createdAt := createdAt chat; updatedAt := now |} in
  (<[chatId := chat']> db, chat').

End Mongo.

(** ** Requests, responses and events *)

(** What a handler reads from the request: the authenticated principal
    ([auth()]), the route parameter and the JSON body.  A missing or [null]
    [message] is [None]. *)
Record Request := {
  auth_userId : option jsstr;
  chatId : jsstr;
  message : option jsstr;
  req_files : option (list ProcessedFile);
}.

(** The clock readings of one exchange: [new Date()] for the user message,
    for the reply (or the error message), and in the pre-save hook. *)
Record Clock := {
  now_user : Z;
  now_reply : Z;
  now_save : Z;
}.

(** The records written to the event stream, before [JSON.stringify]. *)
Inductive Event :=
| EvUserMessage (m : Message)
| EvChunk (chunk : JSValue)
| EvComplete (assistantMessage : Message) (chatTitle : jsstr)
| EvError (m : Message) (error : jsstr).

Inductive Response :=
| Plain (status : N) (body : jsstr)
| EventStream (events : list Event).

Definition status (r : Response) : N :=
  match r with
  | Plain st _ => st
  | EventStream _ => 200
  end.

Definition ERROR_TEXT : jsstr :=
  js "Sorry, I encountered an error while processing your message. Please try again.".
Definition ERROR_CLASS : jsstr := js "AI service temporarily unavailable".
Definition NO_RESPONSE_TEXT : jsstr := js "Sorry, I could not generate a response.".
Definition FALLBACK_TEXT : jsstr :=
  js "I received your message but there was an issue with the streaming response. Please try again.".

(** [!userId] *)
Definition unauthenticated (uid : option jsstr) : bool :=
  match uid with
  | None | Some [] => true
  | Some _ => false
  end.

(** [!message?.trim()] *)
Definition message_missing (m : option jsstr) : bool :=
  match m with
  | None => true
  | Some text => match trim text with [] => true | _ => false end
  end.

(** What the [try] block of a stream's [start] leaves behind: it either
    runs to its end, or throws after having emitted some events and
    changed the in-memory document.  Here, and in the two relays below, the
    store accepts the saves; [Fallible] has the same routines with a save
    that may reject, where the [try] block may also throw at its save. *)
Inductive TryResult :=
| Completed (events : list Event) (db : Store)
| Thrown (events : list Event) (chat : Chat).

(** The [catch] block, the same in both streaming routes, when the store
    accepts its save ([Fallible.recover] when it may not). *)
Definition recover (clk : Clock) (db : Store) (cid : jsstr)
    (events : list Event) (chat : Chat) : list Event * Store :=
  let errorMessage :=
    {| role := assistant; content := ERROR_TEXT; timestamp := now_reply clk; files := None |} in
  let chat1 := Mongo.push chat errorMessage in
  let '(db1, _) := Mongo.save db cid chat1 (now_save clk) in
  (events ++ [EvError errorMessage ERROR_CLASS], db1).

(** The tail of the [try] block, the same in both streaming routes: append
    the assistant message, derive the title on the second message, save,
    and send the completion, when the store accepts the save
    ([Fallible.finalize] when it may not). *)
Definition finalize (clk : Clock) (db : Store) (cid : jsstr)
    (events : list Event) (chat : Chat) (text reply : jsstr) : TryResult :=
  let assistantMessage :=
    {| role := assistant; content := reply; timestamp := now_reply clk; files := None |} in
  let chat1 := Mongo.push chat assistantMessage in
  let chat2 := if (length (messages chat1) =? 2)%nat
               then Mongo.set_title chat1 (derive_title text) else chat1 in
  let '(db1, chat3) := Mongo.save db cid chat2 (now_save clk) in
  Completed (events ++ [EvComplete assistantMessage (title chat3)]) db1.

Definition run_stream (clk : Clock) (db : Store) (cid : jsstr) (r : TryResult)
  : Response * Store :=
  match r with
  | Completed events db1 => (EventStream events, db1)
  | Thrown events chat =>
      let '(events', db1) := recover clk db cid events chat in
      (EventStream events', db1)
  end.

(** ** The streaming relay: [POST /api/chats/[chatId]/stream] *)

Module StreamRoute.

(** How the upstream read loop ends: [done], or a rejected [read()]. *)
Inductive ReadEnd := EndOfStream | ReadFails.

(** The provider's answer to the streaming request. *)
Inductive Upstream :=
| FetchFails                                     (* [fetch] rejects *)
| HttpError                                      (* [!response.ok] *)
| NoBody                                         (* no reader *)
| Body (reads : list (list N)) (e : ReadEnd).    (* the bytes of each read *)

(** The variables of the decode loop. *)
Record Relay := {
  fullResponse : jsstr;
  sent : list Event;
  decoder : TextDecoder.t;
}.

Definition DATA_PREFIX : jsstr := js "data: ".
Definition DONE : jsstr := js "[DONE]".
Definition LF : N := 10.

(** [parsed.choices?.[0]?.delta?.content]; [None] is a [TypeError]. *)
Definition delta_content (parsed : JSValue) : option (option JSValue) :=
  match Js.strict_get parsed (js "choices") with
  | None => None
  | Some choices =>
      Some (Js.opt_get (Js.opt_get (Js.opt_index0 choices) (js "delta")) (js "content"))
  end.

(** The increment a data payload carries, if any: the payload parses, the
    content field is truthy and converts to a string. *)
Definition increment (data : jsstr) : option (JSValue * jsstr) :=
  match Json.parse data with
  | None => None
  | Some parsed =>
      match delta_content parsed with
      | Some (Some c) =>
          if Js.truthy (Some c) then
            match Js.toString c with
            | Some str => Some (c, str)
            | None => None
            end
          else None
      | _ => None
      end
  end.

(** The body of [for (const line of lines)]. *)
Definition process_line (st : Relay) (line : jsstr) : Relay :=
  if startsWith DATA_PREFIX line then
    let data := trim (slice_from 6 line) in
    if JsString.eqb data DONE then st
    else match data with
         | [] => st
         | _ =>
             match increment data with
             | Some (c, str) =>
                 {| fullResponse := fullResponse st ++ str;
                    sent := sent st ++ [EvChunk c];
                    decoder := decoder st |}
             | None => st
             end
         end
  else st.

(** One turn of [while (true)] with [done] false. *)
Definition process_read (st : Relay) (value : list N) : Relay :=
  let '(d, chunk) := TextDecoder.decode (decoder st) value in
  let st1 := {| fullResponse := fullResponse st; sent := sent st; decoder := d |} in
  fold_left process_line (split LF chunk) st1.

Definition try_block (clk : Clock) (db : Store) (cid : jsstr) (chat : Chat)
    (userMessage : Message) (text : jsstr) (up : Upstream) : TryResult :=
  let start := [EvUserMessage userMessage] in
  match up with
  | FetchFails | HttpError | NoBody => Thrown start chat
  | Body reads e =>
      let st := fold_left process_read reads
                  {| fullResponse := []; sent := start; decoder := TextDecoder.init |} in
      match e with
      | ReadFails => Thrown (sent st) chat
      | EndOfStream =>
          let '(full, events) :=
            match fullResponse st with
            | [] => (FALLBACK_TEXT, sent st ++ [EvChunk (JStr FALLBACK_TEXT)])
            | _ => (fullResponse st, sent st)
            end in
          let reply := match full with [] => NO_RESPONSE_TEXT | _ => full end in
          finalize clk db cid events chat text reply
      end
  end.

Definition POST (clk : Clock) (up : Upstream) (db : Store) (req : Request)
  : Response * Store :=
  if unauthenticated (auth_userId req) then (Plain 401 (js "Unauthorized"), db)
  else if message_missing (message req) then (Plain 400 (js "Message is required"), db)
  else
    let uid := default [] (auth_userId req) in
    let text := default [] (message req) in
    match Mongo.findOne db (chatId req) uid with
    | None => (Plain 404 (js "Chat not found"), db)
    | Some chat =>
        let userMessage :=
          {| role := user; content := trim text; timestamp := now_user clk; files := None |} in
        let chat1 := Mongo.push chat userMessage in
        run_stream clk db (chatId req)
          (try_block clk db (chatId req) chat1 userMessage text up)
    end.

(** The increments the decode loop yields for a sequence of reads. *)
Definition decode_increments (reads : list (list N)) : list JSValue :=
  let st := fold_left process_read reads
              {| fullResponse := []; sent := []; decoder := TextDecoder.init |} in
  omap (fun e => match e with EvChunk c => Some c | _ => None end) (sent st).

End StreamRoute.

(** ** The simulated relay: [POST /api/chats/[chatId]/simulate-stream] *)

Module SimulateRoute.

(** The provider's answer to the single-shot request. *)
Inductive Upstream :=
| FetchFails
| HttpError
| Body (text : jsstr).

(** [aiResponse.choices?.[0]?.message?.content]; [None] is a [TypeError]. *)
Definition message_content (aiResponse : JSValue) : option (option JSValue) :=
  match Js.strict_get aiResponse (js "choices") with
  | None => None
  | Some choices =>
      Some (Js.opt_get (Js.opt_get (Js.opt_index0 choices) (js "message")) (js "content"))
  end.

(** The chunk events of the word loop: every word but the last is sent
    with a trailing space. *)
Fixpoint word_chunks (words : list jsstr) : list Event :=
  match words with
  | [] => []
  | [w] => [EvChunk (JStr w)]
  | w :: ws => EvChunk (JStr (w ++ js " ")) :: word_chunks ws
  end.

Definition try_block (clk : Clock) (db : Store) (cid : jsstr) (chat : Chat)
    (userMessage : Message) (text : jsstr) (up : Upstream) : TryResult :=
  let start := [EvUserMessage userMessage] in
  match up with
  | FetchFails | HttpError => Thrown start chat
  | Body body =>
      match Json.parse body with
      | None => Thrown start chat
      | Some aiResponse =>
          match message_content aiResponse with
          | None => Thrown start chat
          | Some c =>
              let fullResponse :=
                if Js.truthy c then default (JStr NO_RESPONSE_TEXT) c
                else JStr NO_RESPONSE_TEXT in
              match fullResponse with
              | JStr full =>
                  let words := split SPACE full in
                  finalize clk db cid (start ++ word_chunks words) chat text full
              | _ => Thrown start chat          (* [split] is not a function *)
              end
          end
      end
  end.

Definition POST (clk : Clock) (up : Upstream) (db : Store) (req : Request)
  : Response * Store :=
  if unauthenticated (auth_userId req) then (Plain 401 (js "Unauthorized"), db)
  else if message_missing (message req) then (Plain 400 (js "Message is required"), db)
  else
    let uid := default [] (auth_userId req) in
    let text := default [] (message req) in
    match Mongo.findOne db (chatId req) uid with
    | None => (Plain 404 (js "Chat not found"), db)
    | Some chat =>
        let userMessage :=
          {| role := user; content := trim text; timestamp := now_user clk;
             files := req_files req |} in
        let chat1 := Mongo.push chat userMessage in
        run_stream clk db (chatId req)
          (try_block clk db (chatId req) chat1 userMessage text up)
    end.

End SimulateRoute.

(** ** Owned lookup and delete: [GET], [DELETE /api/chats/[chatId]] *)

Module ChatRoute.

Inductive Reply :=
| Error (status : N) (error : jsstr)
| Found (chat : Chat)
| Deleted.

Definition GET (db : Store) (uid : option jsstr) (cid : jsstr) : Reply :=
  if unauthenticated uid then Error 401 (js "Unauthorized")
  else match Mongo.findOne db cid (default [] uid) with
       | None => Error 404 (js "Chat not found")
       | Some chat => Found chat
       end.

Definition DELETE (db : Store) (uid : option jsstr) (cid : jsstr) : Reply * Store :=
  if unauthenticated uid then (Error 401 (js "Unauthorized"), db)
  else match Mongo.findOneAndDelete db cid (default [] uid) with
       | (None, db') => (Error 404 (js "Chat not found"), db')
       | (Some _, db') => (Deleted, db')
       end.

End ChatRoute.

(** ** The client-side reducer: [useChat().sendMessage] *)

Module UseChat.

(** The hook's state that an exchange touches: the working view [chat],
    the text streamed so far, and the error shown. *)
Record State := {
  chat : option Chat;
  assistantContent : jsstr;
  error : option jsstr;
}.

Definition with_messages (c : Chat) (ms : list Message) : Chat :=
  {| userId := userId c; title := title c; messages := ms;
     createdAt := createdAt c; updatedAt := updatedAt c |}.

(** [setChat(prev => prev ? f(prev) : null)] *)
Definition setChat (f : Chat -> Chat) (st : State) : State :=
  {| chat := f <$> chat st; assistantContent := assistantContent st; error := error st |}.

(** [messages.slice(0, -1)] *)
Definition slice_0_m1 (ms : list Message) : list Message := removelast ms.

(** The synchronous start of [sendMessage], up to the request. *)
Definition begin (text : jsstr) (isRegenerate : bool) (now : Z) (st : State) : State :=
  let st := {| chat := chat st; assistantContent := []; error := None |} in
  if isRegenerate then
    setChat (fun prev => with_messages prev (slice_0_m1 (messages prev))) st
  else
    let tempUserMessage :=
      {| role := user; content := trim text; timestamp := now; files := None |} in
    setChat (fun prev => with_messages prev (messages prev ++ [tempUserMessage])) st.

(** One [case] of the [switch (data.type)]; [now] is the clock reading
    used when a chunk opens a new assistant message. *)
Definition reduce (isRegenerate : bool) (now : Z) (st : State) (e : Event) : State :=
  match e with
  | EvUserMessage m =>
      if isRegenerate then st
      else setChat (fun prev =>
             with_messages prev (slice_0_m1 (messages prev) ++ [m])) st
  | EvChunk c =>
      match Js.toString c with
      | None => st
      | Some str =>
          let acc := assistantContent st ++ str in
          let st1 := {| chat := chat st; assistantContent := acc; error := error st |} in
          setChat (fun prev =>
            match last (messages prev) with
            | Some lastMessage =>
                match role lastMessage with
                | assistant =>
                    with_messages prev
                      (slice_0_m1 (messages prev) ++
                       [{| role := role lastMessage; content := acc;
                           timestamp := timestamp lastMessage;
                           files := files lastMessage |}])
                | user =>
                    with_messages prev
                      (messages prev ++
                       [{| role := assistant; content := acc; timestamp := now;
                           files := None |}])
                end
            | None =>
                with_messages prev
                  [{| role := assistant; content := acc; timestamp := now; files := None |}]
            end) st1
      end
  | EvComplete assistantMessage chatTitle =>
      setChat (fun prev =>
        {| userId := userId prev;
           title := match chatTitle with [] => title prev | _ => chatTitle end;
           messages := slice_0_m1 (messages prev) ++ [assistantMessage];
           createdAt := createdAt prev; updatedAt := updatedAt prev |}) st
  | EvError m err =>
      let st1 := setChat (fun prev =>
                   with_messages prev (slice_0_m1 (messages prev) ++ [m])) st in
      {| chat := chat st1; assistantContent := assistantContent st1; error := Some err |}
  end.

(** [sendMessage(text, files, isRegenerate)] against the simulated relay:
    the state of the hook and the collection afterwards.  A response that
    is not [ok] takes the [catch] branch, which rolls the optimistic
    insert back. *)
Definition sendMessage (clk : Clock) (now_client : Z) (up : SimulateRoute.Upstream)
    (db : Store) (uid : option jsstr) (cid : jsstr)
    (text : jsstr) (fs : option (list ProcessedFile)) (isRegenerate : bool)
    (st : State) : State * Store :=
  match trim text with
  | [] => (st, db)
  | _ =>
      let st1 := begin text isRegenerate now_client st in
      let req := {| auth_userId := uid; chatId := cid;
                    message := Some (trim text); req_files := fs |} in
      match SimulateRoute.POST clk up db req with
      | (EventStream events, db1) =>
          (fold_left (reduce isRegenerate now_client) events st1, db1)
      | (Plain _ _, db1) =>
          let st2 := if isRegenerate then st1
                     else setChat (fun prev =>
                            with_messages prev (slice_0_m1 (messages prev))) st1 in
          ({| chat := chat st2; assistantContent := assistantContent st2;
              error := Some (js "Failed to send message") |}, db1)
      end
  end.

End UseChat.


(** ** The chat page: [app/chat/[chatId]/page.tsx] *)

Module ChatPage.

(** [[...chat.messages].reverse().find((m) => m.role === "user")] *)
Definition lastUserMessage (ms : list Message) : option Message :=
  List.find (fun m => match role m with user => true | assistant => false end) (rev ms).

(** The handler behind the regenerate button.  It calls
    [sendMessage(lastUserMessage.content, true)]: the [true] sits in the
    place of [files], where it counts as no files, and [isRegenerate] keeps
    its default [false]. *)
Definition onRegenerateResponse (clk : Clock) (now_client : Z)
    (up : SimulateRoute.Upstream) (db : Store) (uid : option jsstr) (cid : jsstr)
    (st : UseChat.State) : UseChat.State * Store :=
  match UseChat.chat st with
  | Some c =>
      match lastUserMessage (messages c) with
      | Some m => UseChat.sendMessage clk now_client up db uid cid (content m) None false st
      | None => (st, db)
      end
  | None => (st, db)
  end.

End ChatPage.

(** ** Vocabulary of the properties *)

(** A request that passes the three guards of a relay handler: the caller
    is authenticated, the text is not missing, and the conversation exists
    under the caller. *)
Definition valid_exchange (db : Store) (req : Request) (chat : Chat) : Prop :=
  unauthenticated (auth_userId req) = false
  /\ message_missing (message req) = false
  /\ Mongo.findOne db (chatId req) (default [] (auth_userId req)) = Some chat.

Definition is_userMessage (e : Event) : bool :=
  match e with EvUserMessage _ => true | _ => false end.
Definition is_chunk (e : Event) : bool :=
  match e with EvChunk _ => true | _ => false end.
Definition is_complete (e : Event) : bool :=
  match e with EvComplete _ _ => true | _ => false end.
Definition is_error (e : Event) : bool :=
  match e with EvError _ _ => true | _ => false end.
Definition is_terminal (e : Event) : bool := is_complete e || is_error e.

Definition count (p : Event -> bool) (events : list Event) : nat :=
  length (List.filter p events).

(** One user message, then chunks only, then one terminal event. *)
Definition exchange_shaped (events : list Event) : Prop :=
  exists m chunks final,
    events = EvUserMessage m :: chunks ++ [final]
    /\ Forall (fun e => is_chunk e = true) chunks
    /\ is_terminal final = true.

(** The user message a handler builds for a request. *)
Definition userMessage_of (clk : Clock) (req : Request) (fs : option (list ProcessedFile))
  : Message :=
  {| role := user; content := trim (default [] (message req));
     timestamp := now_user clk; files := fs |}.

Definition errorMessage_of (clk : Clock) : Message :=
  {| role := assistant; content := ERROR_TEXT; timestamp := now_reply clk; files := None |}.

Module Decoder.
Import StreamRoute.

(** The increment a line contributes to the decode loop, with the text it
    adds to the accumulator. *)
Definition line_step (line : jsstr) : option (JSValue * jsstr) :=
  if startsWith DATA_PREFIX line then
    let data := trim (slice_from 6 line) in
    if JsString.eqb data DONE then None
    else match data with
         | [] => None
         | _ => increment data
         end
  else None.

(** The increments of successive reads, from decoder state [d]. *)
Fixpoint reads_steps (d : TextDecoder.t) (reads : list (list N))
  : list (JSValue * jsstr) :=
  match reads with
  | [] => []
  | value :: rest =>
      let '(d', chunk) := TextDecoder.decode d value in
      omap line_step (split LF chunk) ++ reads_steps d' rest
  end.

End Decoder.

(** What a [try] block may leave: on completion the user message, chunks
    and the completion; on a throw the user message and chunks only. *)
Definition try_shaped (r : TryResult) : Prop :=
  match r with
  | Completed events _ =>
      exists m chunks a t,
        events = EvUserMessage m :: chunks ++ [EvComplete a t]
        /\ Forall (fun e => is_chunk e = true) chunks
  | Thrown events _ =>
      exists m chunks,
        events = EvUserMessage m :: chunks
        /\ Forall (fun e => is_chunk e = true) chunks
  end.

(** The failures of an exchange after the user message is recorded.  For the
    streaming relay: the provider call fails, answers with an error status or
    without a body, or a read of the body fails. *)
Definition stream_fails (up : StreamRoute.Upstream) : bool :=
  match up with
  | StreamRoute.Body _ StreamRoute.EndOfStream => false
  | _ => true
  end.

(** For the simulated relay: the provider call fails or answers with an error
    status, the body is not JSON, it is [null], or its content is a truthy
    value that is not a string. *)
Definition simulate_fails (up : SimulateRoute.Upstream) : bool :=
  match up with
  | SimulateRoute.FetchFails | SimulateRoute.HttpError => true
  | SimulateRoute.Body body =>
      match Json.parse body with
      | None => true
      | Some aiResponse =>
          match SimulateRoute.message_content aiResponse with
          | None => true
          | Some c =>
              Js.truthy c && match c with Some (JStr _) => false | _ => true end
          end
      end
  end.

(** The document an exchange writes back: [chat] with the user message and
    one assistant message appended, under title [t]. *)
Definition committed (clk : Clock) (chat : Chat) (um reply : Message) (t : jsstr) : Chat :=
  {| userId := userId chat; title := t;
     messages := (messages chat ++ [Mongo.cast um]) ++ [Mongo.cast reply];
     createdAt := createdAt chat; updatedAt := now_save clk |}.

(** The validation rule in the words of the specification: reject when the
    text is empty or whitespace-only and no attachments are present. *)
Definition no_attachments (fs : option (list ProcessedFile)) : bool :=
  match fs with
  | None | Some [] => true
  | Some (_ :: _) => false
  end.

Definition spec_rejects (req : Request) : bool :=
  message_missing (message req) && no_attachments (req_files req).


Definition nonempty (w : jsstr) : bool :=
  match w with [] => false | _ :: _ => true end.




Definition completes (events : list Event) : bool := existsb is_complete events.

(** Partitions of an upstream byte sequence into reads. *)
Definition bytewise (bytes : list N) : list (list N) :=
  List.map (fun b => [b]) bytes.

(** Every read is empty or ends with a line feed: reads are cut at line
    terminators only. *)
Definition line_aligned (reads : list (list N)) : Prop :=
  Forall (fun r => r = [] \/ last r = Some StreamRoute.LF) reads.

Definition is_ascii (bytes : list N) : bool := forallb (fun b => b <? 128) bytes.

(** The first read that is not empty holds at least [n] bytes. *)
Fixpoint first_read_at_least (n : nat) (reads : list (list N)) : bool :=
  match reads with
  | [] => false
  | [] :: rest => first_read_at_least n rest
  | r :: _ => (n <=? length r)%nat
  end.

(** The increments of the lines of one read of ASCII text. *)
Definition read_steps (r : list N) : list (JSValue * jsstr) :=
  omap Decoder.line_step (split StreamRoute.LF r).

(** Recognisers for the two values [read_steps] takes on the pieces of the
    example stream. *)
Definition no_step (l : list (JSValue * jsstr)) : bool :=
  match l with [] => true | _ => false end.

Definition one_step (text : jsstr) (l : list (JSValue * jsstr)) : bool :=
  match l with
  | [(JStr s, t)] => JsString.eqb s text && JsString.eqb t text
  | _ => false
  end.

(** The piece of [n] bytes at offset [o] of a stream decodes as expected:
    to the increment when it starts the stream and holds the whole data line
    of [k] bytes, to nothing otherwise. *)
Definition piece_ok (stream text : jsstr) (k o n : nat) : bool :=
  let steps := read_steps (take n (drop o stream)) in
  if (o =? 0)%nat && (k <=? n)%nat then one_step text steps else no_step steps.

Definition pieces_ok (stream text : jsstr) (k : nat) : bool :=
  forallb (fun o => forallb (piece_ok stream text k o) (seq 0 (S (length stream - o))))
          (seq 0 (S (length stream))).

Module Examples.

Definition alice : jsstr := js "user_alice".
Definition bob : jsstr := js "user_bob".
Definition cid0 : jsstr := js "64f0c0ffee0000000000a001".

Definition clk0 : Clock := {| now_user := 1000; now_reply := 2000; now_save := 2001 |}.

Definition new_chat : Chat :=
  {| userId := alice; title := js "New Chat"; messages := [];
     createdAt := 0; updatedAt := 0 |}.

Definition db0 : Store := {[ cid0 := new_chat ]}.

Definition req0 : Request :=
  {| auth_userId := Some alice; chatId := cid0;
     message := Some (js "Can you help me understand recursion please");
     req_files := None |}.

(** A keep-alive comment, a role announcement without content, and the
    sentinel, in two reads. *)
Definition reads_no_increment : list (list N) :=
  [ js ": keep-alive" ++ [10; 10]
    ++ jsq "data: {'choices':[{'delta':{'role':'assistant'}}]}" ++ [10; 10];
    js "data: [DONE]" ++ [10; 10] ].

Definition notes_txt : ProcessedFile :=
  {| name := js "notes.txt"; mimeType := js "text/plain";
     textContent := Some (js "remember the milk") |}.

(** Whitespace-only text with one attachment. *)
Definition req_attachment_only : Request :=
  {| auth_userId := Some alice; chatId := cid0;
     message := Some (js "   "); req_files := Some [notes_txt] |}.

Definition batch_ok : SimulateRoute.Upstream :=
  SimulateRoute.Body (jsq "{'choices':[{'message':{'content':'It is four.'}}]}").


Definition data_hi : list N := jsq "data: {'choices':[{'delta':{'content':'Hi'}}]}".
Definition frame_hi : list N := data_hi ++ [10; 10].
Definition frame_done : list N := js "data: [DONE]" ++ [10; 10].

(** The sentinel-terminated stream of one increment. *)
Definition sse_hi_done : list N := frame_hi ++ frame_done.

(** A stream that goes on after the sentinel. *)
Definition sse_done_hi : list N := frame_done ++ frame_hi.

(** A conversation ending in a user message and its reply, as stored and
    as shown by the client. *)
Definition chat_sum : Chat :=
  {| userId := alice; title := js "2+2?";
     messages := [ {| role := user; content := js "2+2?"; timestamp := 10; files := None |};
                   {| role := assistant; content := js "4"; timestamp := 20; files := None |} ];
     createdAt := 0; updatedAt := 20 |}.

Definition db_sum : Store := {[ cid0 := chat_sum ]}.

Definition view_sum : UseChat.State :=
  {| UseChat.chat := Some chat_sum; UseChat.assistantContent := []; UseChat.error := None |}.

Definition turns (st : UseChat.State) : list (Role * jsstr) :=
  match UseChat.chat st with
  | Some c => List.map (fun m => (role m, content m)) (messages c)
  | None => []
  end.

Definition stored_turns (db : Store) : list (Role * jsstr) :=
  match db !! cid0 with
  | Some c => List.map (fun m => (role m, content m)) (messages c)
  | None => []
  end.

End Examples.

(** The title a successful exchange leaves: derived from the text when the
    reply is the second message, the old one otherwise. *)
Definition title_after (chat : Chat) (text : jsstr) : jsstr :=
  match messages chat with
  | [] => derive_title text
  | _ :: _ => title chat
  end.

Definition assistantMessage_of (clk : Clock) (reply : jsstr) : Message :=
  {| role := assistant; content := reply; timestamp := now_reply clk; files := None |}.

(** Any later request to a relay, by any caller for any conversation. *)
Inductive Exchange :=
| ViaStream (clk : Clock) (up : StreamRoute.Upstream) (req : Request)
| ViaSimulate (clk : Clock) (up : SimulateRoute.Upstream) (req : Request).

Definition run_exchange (db : Store) (x : Exchange) : Store :=
  match x with
  | ViaStream clk up req => snd (StreamRoute.POST clk up db req)
  | ViaSimulate clk up req => snd (SimulateRoute.POST clk up db req)
  end.

Definition run_exchanges (db : Store) (xs : list Exchange) : Store :=
  fold_left run_exchange xs db.

Definition ends_in_error (events : list Event) : Prop :=
  exists m e, last events = Some (EvError m e).

(** A valid exchange ends in one of two ways, and writes the conversation
    back accordingly. *)
Definition outcome (clk : Clock) (db : Store) (req : Request) (chat : Chat)
    (um : Message) (r : Response * Store) : Prop :=
  exists chunks,
    Forall (fun e => is_chunk e = true) chunks
    /\ (r = (EventStream (EvUserMessage um :: chunks
                          ++ [EvError (errorMessage_of clk) ERROR_CLASS]),
             <[chatId req := committed clk chat um (errorMessage_of clk) (title chat)]> db)
        \/ exists reply,
             reply <> []
             /\ r = (EventStream
                       (EvUserMessage um :: chunks
                        ++ [EvComplete (assistantMessage_of clk reply)
                              (title_after chat (default [] (message req)))]),
                     <[chatId req := committed clk chat um (assistantMessage_of clk reply)
                                       (title_after chat (default [] (message req)))]> db)).

(** ** The relays when the store rejects a write

    [await chat.save()] stands twice in the [start] routine of a relay:
    after the reply is on the document, inside [try], and in the [catch]
    block.  Either may reject (the store is down, the conversation was
    deleted meanwhile).  Here the store's answer to each is an argument of
    the handler.  A rejected save of the reply throws into the [catch]
    block with the reply, and the derived title if there is one, already on
    the document; a rejected save in the [catch] block leaves [start], and
    [finally] closes the stream.  A handler gives the events its stream has
    enqueued when it is closed, for a caller that reads them as they come
    and does not cancel (the rejection of [start] errors a stream that still
    holds unread events).  The definitions above are these handlers
    for a store that accepts both writes ([fallible_stream_POST_accepted],
    [fallible_simulate_POST_accepted] below). *)

Module Fallible.

(** The store's answers to the writes of one exchange, and the clock
    readings of the [catch] block when it runs after a rejected save of the
    reply (after a provider failure its readings are [now_reply] and
    [now_save], the only ones of the exchange). *)
Record Writes := {
  reply_accepted : bool;    (* [await chat.save()] in [try] *)
  error_accepted : bool;    (* [await chat.save()] in [catch] *)
  now_error : Z;            (* [new Date()] of the error message *)
  now_resave : Z;           (* the pre-save hook of the second save *)
}.

(** [await chat.save()]: [None] is a rejection, which writes nothing. *)
Definition save (accepted : bool) (db : Store) (chatId : jsstr) (chat : Chat) (now : Z)
  : option (Store * Chat) :=
  if accepted then Some (Mongo.save db chatId chat now) else None.

(** What the [try] block leaves behind: [late] tells a throw by the save
    of the reply from a throw before it. *)
Inductive TryResult :=
| Completed (events : list Event) (db : Store)
| Thrown (events : list Event) (chat : Chat) (late : bool).

Definition errorMessage (w : Writes) (clk : Clock) (late : bool) : Message :=
  {| role := assistant; content := ERROR_TEXT;
     timestamp := if late then now_error w else now_reply clk; files := None |}.

(** The [catch] block and [finally]: the events queued when the stream is
    closed, and the collection. *)
Definition recover (w : Writes) (clk : Clock) (db : Store) (cid : jsstr)
    (events : list Event) (chat : Chat) (late : bool) : list Event * Store :=
  let chat1 := Mongo.push chat (errorMessage w clk late) in
  match save (error_accepted w) db cid chat1
          (if late then now_resave w else now_save clk) with
  | Some (db1, _) => (events ++ [EvError (errorMessage w clk late) ERROR_CLASS], db1)
  | None => (events, db)
  end.

(** The tail of the [try] block. *)
Definition finalize (w : Writes) (clk : Clock) (db : Store) (cid : jsstr)
    (events : list Event) (chat : Chat) (text reply : jsstr) : TryResult :=
  let assistantMessage :=
    {| role := assistant; content := reply; timestamp := now_reply clk; files := None |} in
  let chat1 := Mongo.push chat assistantMessage in
  let chat2 := if (length (messages chat1) =? 2)%nat
               then Mongo.set_title chat1 (derive_title text) else chat1 in
  match save (reply_accepted w) db cid chat2 (now_save clk) with
  | Some (db1, chat3) => Completed (events ++ [EvComplete assistantMessage (title chat3)]) db1
  | None => Thrown events chat2 true
  end.

Definition run_stream (w : Writes) (clk : Clock) (db : Store) (cid : jsstr) (r : TryResult)
  : Response * Store :=
  match r with
  | Completed events db1 => (EventStream events, db1)
  | Thrown events chat late =>
      let '(events', db1) := recover w clk db cid events chat late in
      (EventStream events', db1)
  end.

Module Stream.
Import StreamRoute.

Definition try_block (w : Writes) (clk : Clock) (db : Store) (cid : jsstr) (chat : Chat)
    (userMessage : Message) (text : jsstr) (up : Upstream) : TryResult :=
  let start := [EvUserMessage userMessage] in
  match up with
  | FetchFails | HttpError | NoBody => Thrown start chat false
  | Body reads e =>
      let st := fold_left process_read reads
                  {| fullResponse := []; sent := start; decoder := TextDecoder.init |} in
      match e with
      | ReadFails => Thrown (sent st) chat false
      | EndOfStream =>
          let '(full, events) :=
            match fullResponse st with
            | [] => (FALLBACK_TEXT, sent st ++ [EvChunk (JStr FALLBACK_TEXT)])
            | _ => (fullResponse st, sent st)
            end in
          let reply := match full with [] => NO_RESPONSE_TEXT | _ => full end in
          finalize w clk db cid events chat text reply
      end
  end.

Definition POST (w : Writes) (clk : Clock) (up : Upstream) (db : Store) (req : Request)
  : Response * Store :=
  if unauthenticated (auth_userId req) then (Plain 401 (js "Unauthorized"), db)
  else if message_missing (message req) then (Plain 400 (js "Message is required"), db)
  else
    let uid := default [] (auth_userId req) in
    let text := default [] (message req) in
    match Mongo.findOne db (chatId req) uid with
    | None => (Plain 404 (js "Chat not found"), db)
    | Some chat =>
        let userMessage :=
          {| role := user; content := trim text; timestamp := now_user clk; files := None |} in
        let chat1 := Mongo.push chat userMessage in
        run_stream w clk db (chatId req)
          (try_block w clk db (chatId req) chat1 userMessage text up)
    end.

End Stream.

Module Simulate.
Import SimulateRoute.

Definition try_block (w : Writes) (clk : Clock) (db : Store) (cid : jsstr) (chat : Chat)
    (userMessage : Message) (text : jsstr) (up : Upstream) : TryResult :=
  let start := [EvUserMessage userMessage] in
  match up with
  | FetchFails | HttpError => Thrown start chat false
  | Body body =>
      match Json.parse body with
      | None => Thrown start chat false
      | Some aiResponse =>
          match message_content aiResponse with
          | None => Thrown start chat false
          | Some c =>
              let fullResponse :=
                if Js.truthy c then default (JStr NO_RESPONSE_TEXT) c
                else JStr NO_RESPONSE_TEXT in
              match fullResponse with
              | JStr full =>
                  let words := split SPACE full in
                  finalize w clk db cid (start ++ word_chunks words) chat text full
              | _ => Thrown start chat false
              end
          end
      end
  end.

Definition POST (w : Writes) (clk : Clock) (up : Upstream) (db : Store) (req : Request)
  : Response * Store :=
  if unauthenticated (auth_userId req) then (Plain 401 (js "Unauthorized"), db)
  else if message_missing (message req) then (Plain 400 (js "Message is required"), db)
  else
    let uid := default [] (auth_userId req) in
    let text := default [] (message req) in
    match Mongo.findOne db (chatId req) uid with
    | None => (Plain 404 (js "Chat not found"), db)
    | Some chat =>
        let userMessage :=
          {| role := user; content := trim text; timestamp := now_user clk;
             files := req_files req |} in
        let chat1 := Mongo.push chat userMessage in
        run_stream w clk db (chatId req)
          (try_block w clk db (chatId req) chat1 userMessage text up)
    end.

End Simulate.

(** *** Vocabulary *)

(** The exchange reaches the [catch] block: the provider failed, or the
    store rejected the save of the reply. *)
Definition catch_reached (w : Writes) (provider_fails : bool) : bool :=
  provider_fails || negb (reply_accepted w).

(** What a valid exchange leaves when the provider fails, after [chunks]:
    the error message written back and sent, when the store accepts the
    save of the [catch] block; the stream closed after the chunks and
    nothing written, when it rejects it. *)
Definition after_provider_failure (w : Writes) (clk : Clock) (db : Store) (cid : jsstr)
    (chat : Chat) (um : Message) (chunks : list Event) : Response * Store :=
  if error_accepted w then
    (EventStream (EvUserMessage um :: chunks ++ [EvError (errorMessage_of clk) ERROR_CLASS]),
     <[cid := committed clk chat um (errorMessage_of clk) (title chat)]> db)
  else (EventStream (EvUserMessage um :: chunks), db).

(** The document the [catch] block writes back after a rejected save of
    the reply: the user message, the reply and the error message appended,
    under the title the [try] block left. *)
Definition recommitted (w : Writes) (clk : Clock) (chat : Chat) (um : Message)
    (reply : jsstr) (t : jsstr) : Chat :=
  {| userId := userId chat; title := t;
     messages := ((messages chat ++ [Mongo.cast um])
                  ++ [Mongo.cast (assistantMessage_of clk reply)])
                 ++ [Mongo.cast (errorMessage w clk true)];
     createdAt := createdAt chat; updatedAt := now_resave w |}.

(** What a valid exchange leaves when the provider's answer gave the reply
    [reply], after [chunks]. *)
Definition after_reply (w : Writes) (clk : Clock) (db : Store) (cid : jsstr)
    (chat : Chat) (um : Message) (chunks : list Event) (reply t : jsstr)
  : Response * Store :=
  if reply_accepted w then
    (EventStream (EvUserMessage um :: chunks ++ [EvComplete (assistantMessage_of clk reply) t]),
     <[cid := committed clk chat um (assistantMessage_of clk reply) t]> db)
  else if error_accepted w then
    (EventStream (EvUserMessage um :: chunks
                  ++ [EvError (errorMessage w clk true) ERROR_CLASS]),
     <[cid := recommitted w clk chat um reply t]> db)
  else (EventStream (EvUserMessage um :: chunks), db).

(** A valid exchange ends in one of these ways; [provider_fails] tells
    which. *)
Definition outcome (w : Writes) (clk : Clock) (db : Store) (req : Request) (chat : Chat)
    (um : Message) (provider_fails : bool) (r : Response * Store) : Prop :=
  exists chunks,
    Forall (fun e => is_chunk e = true) chunks
    /\ ((provider_fails = true
         /\ r = after_provider_failure w clk db (chatId req) chat um chunks)
        \/ (provider_fails = false
            /\ exists reply,
                 reply <> []
                 /\ r = after_reply w clk db (chatId req) chat um chunks reply
                         (title_after chat (default [] (message req))))).

(** Whether the exchange writes the conversation back. *)
Definition written (w : Writes) (provider_fails : bool) : bool :=
  if provider_fails then error_accepted w
  else reply_accepted w || error_accepted w.

(** One user message, then chunks only, then at most one terminal event. *)
Definition exchange_shaped (events : list Event) : Prop :=
  exists m chunks terminal,
    events = EvUserMessage m :: chunks ++ terminal
    /\ Forall (fun e => is_chunk e = true) chunks
    /\ (terminal = [] \/ exists final, terminal = [final] /\ is_terminal final = true).

(** Any request to a relay, with the store's answers. *)
Inductive Exchange :=
| ViaStream (w : Writes) (clk : Clock) (up : StreamRoute.Upstream) (req : Request)
| ViaSimulate (w : Writes) (clk : Clock) (up : SimulateRoute.Upstream) (req : Request).

(** The store's answers during a request. *)
Definition writes_of (x : Exchange) : Writes :=
  match x with
  | ViaStream w _ _ _ | ViaSimulate w _ _ _ => w
  end.

Definition run_exchange (db : Store) (x : Exchange) : Store :=
  match x with
  | ViaStream w clk up req => snd (Stream.POST w clk up db req)
  | ViaSimulate w clk up req => snd (Simulate.POST w clk up db req)
  end.

Definition run_exchanges (db : Store) (xs : list Exchange) : Store :=
  fold_left run_exchange xs db.

End Fallible.

Module FallibleExamples.
Import Examples.

(** A store that rejects every write, one that rejects the save of the
    reply only, and one that accepts every write. *)
Definition down : Fallible.Writes :=
  {| Fallible.reply_accepted := false; Fallible.error_accepted := false;
     Fallible.now_error := 2002; Fallible.now_resave := 2003 |}.

Definition hiccup : Fallible.Writes :=
  {| Fallible.reply_accepted := false; Fallible.error_accepted := true;
     Fallible.now_error := 2002; Fallible.now_resave := 2003 |}.

Definition up : Fallible.Writes :=
  {| Fallible.reply_accepted := true; Fallible.error_accepted := true;
     Fallible.now_error := 2002; Fallible.now_resave := 2003 |}.



End FallibleExamples.

(** * The rest of the conversation API and of the client

    The schema's validators, the collection routes [GET] and
    [POST /api/chats], the messages a relay puts in its request to the
    provider, [useChat().editMessage], the title listener of [useChats],
    and the send handler of [components/chat/ChatInput.tsx]. *)

From stdpp Require Import sorting.

Local Open Scope N_scope.
Import JsString.

(** ** The schema's validators: [lib/models/Chat.ts] *)

Module Schema.

(** [content: { type: String, required: true }]: an empty string does not
    pass [required].  The [role] enum holds by typing. *)
Definition message_valid (m : Message) : bool := nonempty (content m).

(** [userId] and [title] are required, [title] has [maxlength: 100]. *)
Definition valid (c : Chat) : bool :=
  nonempty (userId c) && nonempty (title c) && (length (title c) <=? 100)%nat
  && forallb message_valid (messages c).

End Schema.

(** ** The collection routes: [GET], [POST /api/chats] *)

(** [ChatSummary] of [lib/types/chat.ts]: what [select] keeps. *)
Module ChatSummary.

Record t := {
  _id : jsstr;
  title : jsstr;
  createdAt : Z;
  updatedAt : Z;
}.

End ChatSummary.

Module ChatsRoute.

Inductive Reply :=
| Error (status : N) (error : jsstr)
| Chats (chats : list ChatSummary.t)
| Created (chat : ChatSummary.t).

(** [Chat.find({ userId })]: the matching documents, in the order the
    collection yields them. *)
Definition find (db : Store) (uid : jsstr) : list (jsstr * Chat) :=
  filter (fun doc => userId (snd doc) = uid) (map_to_list db).

(** [.select('_id title createdAt updatedAt')] *)
Definition select (doc : jsstr * Chat) : ChatSummary.t :=
  {| ChatSummary._id := fst doc;
     ChatSummary.title := title (snd doc);
     ChatSummary.createdAt := createdAt (snd doc);
     ChatSummary.updatedAt := updatedAt (snd doc) |}.

(** [.sort({ updatedAt: -1 })]: later updates first.  The database leaves
    the order among documents updated at the same instant open; the model
    keeps the order of the collection there. *)
Definition newer_first (a b : jsstr * Chat) : Prop :=
  (updatedAt (snd b) <= updatedAt (snd a))%Z.

#[global] Instance newer_first_dec : RelDecision newer_first :=
  fun a b => Z.le_dec (updatedAt (snd b)) (updatedAt (snd a)).

Definition sort (docs : list (jsstr * Chat)) : list (jsstr * Chat) :=
  merge_sort newer_first docs.

Definition LIMIT : nat := 50.

Definition GET (db : Store) (uid : option jsstr) : Reply :=
  if unauthenticated uid then Error 401 (js "Unauthorized")
  else Chats (select <$> take LIMIT (sort (find db (default [] uid)))).

(** [POST]: [now_new] is the clock read by the schema defaults, [now_save]
    by the pre-save hook, [newId] the identifier the driver gives the
    document.  [None] is a missing or [null] title.  A document that fails
    validation, or whose identifier is taken, makes [save] reject, which the
    handler's [catch] answers with 500. *)
Definition POST (now_new now_save : Z) (newId : jsstr) (db : Store)
    (uid : option jsstr) (title_in : option jsstr) : Reply * Store :=
  if unauthenticated uid then (Error 401 (js "Unauthorized"), db)
  else
    match title_in with
    | None | Some [] => (Error 400 (js "Title is required"), db)
    | Some t =>
        let chat := {| userId := default [] uid; title := t; messages := [];
                       createdAt := now_new; updatedAt := now_new |} in
        match db !! newId with
        | Some _ => (Error 500 (js "Internal server error"), db)
        | None =>
            if Schema.valid chat then
              let '(db1, chat1) := Mongo.save db newId chat now_save in
              (Created (select (newId, chat1)), db1)
            else (Error 500 (js "Internal server error"), db)
        end
    end.

End ChatsRoute.

(** ** The messages sent to the provider *)

Module Provider.

Inductive Speaker := system | turn (r : Role).

Record Msg := {
  p_role : Speaker;
  p_content : jsstr;
}.

Definition STREAM_SYSTEM : jsstr :=
  js "You are a helpful AI assistant. Be concise and accurate in your responses.".

Definition SIMULATE_SYSTEM : jsstr :=
  js "You are a helpful AI assistant. Be concise and accurate in your responses. If files are provided, analyze them and provide relevant insights.".

(** [(msg) => ({ role: msg.role, content: msg.content })] *)
Definition of_message (msg : Message) : Msg :=
  {| p_role := turn (role msg); p_content := content msg |}.

(** The streaming relay: the system prompt, then every message of the
    document, the pushed user message included. *)
Definition stream_messages (chat1 : Chat) : list Msg :=
  {| p_role := system; p_content := STREAM_SYSTEM |}
  :: List.map of_message (messages chat1).

(** The callback of [files.map]: the text of a file is quoted unless it is
    missing, empty, or starts with a bracket. *)
Definition fileDescription (file : ProcessedFile) : jsstr :=
  let by_type := js "File: " ++ name file ++ js " (" ++ mimeType file ++ js ")" in
  match textContent file with
  | Some (c :: t) =>
      if negb (startsWith (js "[") (c :: t))
      then js "File: " ++ name file ++ [10] ++ js "Content: " ++ (c :: t)
      else by_type
  | _ => by_type
  end.

(** [aiContextMessage] of the simulated relay. *)
Definition aiContextMessage (text : jsstr) (files : option (list ProcessedFile)) : jsstr :=
  match files with
  | Some (f :: fs) =>
      trim text ++ [10; 10] ++ js "[User has attached the following files:" ++ [10]
      ++ join [10; 10] (List.map fileDescription (f :: fs)) ++ js "]"
  | _ => trim text
  end.

(** The simulated relay: the system prompt, the document's messages but
    the last, and the context message in the user's name. *)
Definition simulate_messages (chat1 : Chat) (context : jsstr) : list Msg :=
  {| p_role := system; p_content := SIMULATE_SYSTEM |}
  :: List.map of_message (removelast (messages chat1))
  ++ [{| p_role := turn user; p_content := context |}].

(** What each relay sends for a request that found [chat]. *)
Definition stream_request (clk : Clock) (chat : Chat) (req : Request) : list Msg :=
  stream_messages (Mongo.push chat (userMessage_of clk req None)).

Definition simulate_request (clk : Clock) (chat : Chat) (req : Request) : list Msg :=
  simulate_messages (Mongo.push chat (userMessage_of clk req (req_files req)))
    (aiContextMessage (default [] (message req)) (req_files req)).

End Provider.

(** ** Processing attachments: [POST /api/files/process] *)

Module FilesRoute.

(** What the route reads of an [UploadedFile]. *)
Record UploadedFile := {
  u_name : jsstr;
  u_mimeType : jsstr;
  cdnUrl : jsstr;
}.

(** [s.includes(p)] *)
Fixpoint includes (p s : jsstr) : bool :=
  startsWith p s || match s with [] => false | _ :: s' => includes p s' end.

(** [mimeType.startsWith('text/') || mimeType.includes('json')] *)
Definition is_text (mime : jsstr) : bool :=
  startsWith (js "text/") mime || includes (js "json") mime.

(** The text that stands for a file whose content is not extracted. *)
Definition placeholder (file : UploadedFile) : jsstr :=
  if startsWith (js "image/") (u_mimeType file)
  then js "[Image: " ++ u_name file ++ js "]"
  else if JsString.eqb (u_mimeType file) (js "application/pdf")
  then js "[PDF Document: " ++ u_name file ++ js "]"
  else js "[File: " ++ u_name file ++ js " - " ++ u_mimeType file ++ js "]".

Definition COMMA : N := 44.

Section Outside.

(** [Buffer.from(data, 'base64').toString('utf-8')], and the text fetched
    from the URL of a file, if the fetch succeeds. *)
Variable base64_utf8 : jsstr -> jsstr.
Variable fetched : UploadedFile -> option jsstr.

(** The body of [for (const file of files)]: the file as the relay reads
    it afterwards. *)
Definition process (file : UploadedFile) : ProcessedFile :=
  let text :=
    if startsWith (js "data:") (cdnUrl file) then
      if is_text (u_mimeType file) then
        match split COMMA (cdnUrl file) with
        | _ :: base64Data :: _ => Some (base64_utf8 base64Data)
        | _ => Some (js "[Text file: " ++ u_name file ++ js "]")
        end
      else Some (placeholder file)
    else
      if is_text (u_mimeType file) then fetched file
      else Some (placeholder file) in
  {| name := u_name file; mimeType := u_mimeType file; textContent := text |}.

Inductive Reply :=
| Error (status : N) (error : jsstr)
| Processed (processedFiles : list ProcessedFile).

(** [None] is a missing [files] or one that is not an array. *)
Definition POST (files : option (list UploadedFile)) : Reply :=
  match files with
  | None | Some [] => Error 400 (js "No files provided")
  | Some fs => Processed (List.map process fs)
  end.

End Outside.

End FilesRoute.

(** ** Editing a message: [useChat().editMessage] *)

Module UseChatEdit.


End UseChatEdit.

(** ** The list of conversations: [useChats] *)

Module UseChats.




End UseChats.

(** ** The send handler: [components/chat/ChatInput.tsx] *)

Module ChatInput.

(** What [handleSend] goes on to do. *)
Inductive Action (F : Type) :=
| Ignored
| SendToChat (text : jsstr) (files : list F)            (* [onSendMessage] *)
| CreateChat (chatTitle text : jsstr) (files : list F). (* [createChat], then the page sends *)
Arguments Ignored {F}.
Arguments SendToChat {F} text files.
Arguments CreateChat {F} chatTitle text files.

(** [messageText || 'Uploaded files'] *)
Definition text_to_send (messageText : jsstr) : jsstr :=
  match messageText with [] => js "Uploaded files" | _ => messageText end.

(** [handleSend] over the input's state: the text typed, the files queued,
    whether a send is under way, and whether the input sits in a
    conversation. *)
Definition handleSend {F : Type} (message : jsstr) (uploadedFiles : list F)
    (sending inChat : bool) : Action F :=
  if (negb (nonempty (trim message)) && (length uploadedFiles =? 0)%nat) || sending
  then Ignored
  else
    let messageText := trim message in
    if inChat then SendToChat (text_to_send messageText) uploadedFiles
    else
      let chatTitle :=
        match messageText with
        | [] => js "File Upload Chat"
        | _ => join (js " ") (take 6 (split SPACE messageText))
        end in
      CreateChat chatTitle (text_to_send messageText) uploadedFiles.

(** The text an action sends, and the title it asks for. *)
Definition sent_text {F : Type} (a : Action F) : option jsstr :=
  match a with
  | Ignored => None
  | SendToChat text _ | CreateChat _ text _ => Some text
  end.

Definition asked_title {F : Type} (a : Action F) : option jsstr :=
  match a with
  | CreateChat chatTitle _ _ => Some chatTitle
  | _ => None
  end.

End ChatInput.

(** ** Vocabulary of the further properties *)

(** What [JSON.parse] reads back from the text [JSON.stringify] writes for
    a parsed value.  A number beyond the range of a double, which parsing
    read as an infinity, is written as [null]; the negative zero is written
    as [0]; arrays and objects are converted entry by entry, an object
    keeping the keys it has; any other value comes back as it was. *)
Fixpoint wire (v : JSValue) : JSValue :=
  match v with
  | JNum (JsNumber.Infinity _) => JNull
  | JNum (JsNumber.Zero _) => JNum (JsNumber.Zero false)
  | JArr xs => JArr (List.map wire xs)
  | JObj kvs => JObj (List.map (fun kv => (fst kv, wire (snd kv))) kvs)
  | _ => v
  end.

(** No number that the conversion of the value to a string reads, the value
    itself or an element of an array in it, is an infinity. *)
Fixpoint finite (v : JSValue) : bool :=
  match v with
  | JNum (JsNumber.Infinity _) => false
  | JArr xs => forallb finite xs
  | _ => true
  end.

(** Induction on a value, with the elements of an array at hand. *)
Fixpoint JSValue_elements_ind (P : JSValue -> Prop)
    (Hnull : P JNull) (Hbool : forall b, P (JBool b)) (Hnum : forall x, P (JNum x))
    (Hstr : forall s, P (JStr s))
    (Harr : forall xs, Forall P xs -> P (JArr xs))
    (Hobj : forall kvs, P (JObj kvs)) (v : JSValue) {struct v} : P v :=
  match v with
  | JNull => Hnull
  | JBool b => Hbool b
  | JNum x => Hnum x
  | JStr s => Hstr s
  | JArr xs =>
      Harr xs
        ((fix all (xs : list JSValue) : Forall P xs :=
            match xs with
            | [] => @List.Forall_nil _ P
            | x :: rest =>
                @List.Forall_cons _ P x rest
                  (JSValue_elements_ind P Hnull Hbool Hnum Hstr Harr Hobj x) (all rest)
            end) xs)
  | JObj kvs => Hobj kvs
  end.

(** [assistantContent += data.content] in the client's loop: what a chunk
    record adds to the text shown.  The relay sends the record through
    [JSON.stringify] and the client reads [data] with [JSON.parse], so the
    content converted is what the wire gives, for a record whose line
    arrives whole in a read; a conversion that throws is caught with the
    parse errors and adds nothing. *)
Definition chunk_text (e : Event) : jsstr :=
  match e with
  | EvChunk c => default [] (Js.toString (wire c))
  | _ => []
  end.

Definition streamed_text (events : list Event) : jsstr :=
  concat (List.map chunk_text events).



(** A user message, then one assistant message or two, and so on. *)
Fixpoint turns (ms : list Message) : bool :=
  match ms with
  | [] => true
  | u :: rest =>
      match role u, rest with
      | user, a :: rest1 =>
          match role a, rest1 with
          | assistant, [] => true
          | assistant, b :: rest2 =>
              match role b with
              | assistant => turns rest2
              | user => turns rest1
              end
          | user, _ => false
          end
      | _, _ => false
      end
  end.


(** The text each read decodes to, the decoder state threaded through. *)
Fixpoint decode_reads (d : TextDecoder.t) (reads : list (list N)) : list jsstr :=
  match reads with
  | [] => []
  | value :: rest =>
      let '(d', chunk) := TextDecoder.decode d value in
      chunk :: decode_reads d' rest
  end.

(** The decoder with its byte-order-mark flag set to [b]. *)
Definition with_bom (b : bool) (d : TextDecoder.t) : TextDecoder.t :=
  {| TextDecoder.code_point := TextDecoder.code_point d;
     TextDecoder.bytes_needed := TextDecoder.bytes_needed d;
     TextDecoder.bytes_seen := TextDecoder.bytes_seen d;
     TextDecoder.lower := TextDecoder.lower d;
     TextDecoder.upper := TextDecoder.upper d;
     TextDecoder.bom_seen := b |}.

(** The code points of a read without the byte order mark, when it is
    still to come. *)
Definition strip_bom (seen : bool) (cps : list N) : list N :=
  match cps with
  | [] => []
  | cp :: cps' => if negb seen && (cp =? 65279) then cps' else cps
  end.

Definition utf16_text (cps : list N) : jsstr :=
  concat (List.map TextDecoder.utf16 cps).

(** The lower bound of a continuation byte is never below [0x80]: so it
    is in every state the decoder reaches. *)
Definition continuation_bounded (d : TextDecoder.t) : Prop :=
  128 <= TextDecoder.lower d.





(** The request [sendMessage] builds. *)
Definition request_of (uid : option jsstr) (cid text : jsstr)
    (fs : option (list ProcessedFile)) : Request :=
  {| auth_userId := uid; chatId := cid; message := Some (trim text); req_files := fs |}.



Module Samples.
Import Examples.

Definition req_hello : Request := request_of (Some alice) cid0 (js "  2+2?  ") None.

Definition view0 : UseChat.State :=
  {| UseChat.chat := Some new_chat; UseChat.assistantContent := []; UseChat.error := None |}.

Definition cid1 : jsstr := js "64f0c0ffee0000000000a002".
Definition cid2 : jsstr := js "64f0c0ffee0000000000a003".

(** Two conversations of one user and one of another. *)
Definition db_two : Store :=
  <[cid2 := {| userId := bob; title := js "Hello"; messages := [];
               createdAt := 5; updatedAt := 5 |}]>
    (<[cid1 := chat_sum]> db0).

(** A first message of six long pieces. *)
Definition long_message : jsstr :=
  js "aaaaaaaaaaaaaaaaaaaa bbbbbbbbbbbbbbbbbbbb cccccccccccccccccccc dddddddddddddddddddd eeeeeeeeeeeeeeeeeeee ffffffffffffffffffff".

Definition req_bob : Request :=
  {| auth_userId := Some bob; chatId := cid0; message := Some (js "hello");
     req_files := None |}.

Definition photo : FilesRoute.UploadedFile :=
  {| FilesRoute.u_name := js "cat.png"; FilesRoute.u_mimeType := js "image/png";
     FilesRoute.cdnUrl := js "data:image/png;base64,iVBORw0KGgo=" |}.

(** A data frame whose content is a number beyond the range of a double. *)
Definition frame_overflow : list N :=
  jsq "data: {'choices':[{'delta':{'content':1e400}}]}" ++ [10; 10].

(** A data frame whose content holds a two-byte character. *)
Definition frame_cafe : list N :=
  jsq "data: {'choices':[{'delta':{'content':'caf" ++ [195; 169] ++ jsq "'}}]}" ++ [10; 10].

End Samples.

(** * Properties *)

(** ** The runtime model on samples *)

Section RuntimeSamples.

(** [String(JSON.parse(token))] for some number tokens. *)
Example number_samples :
  List.map (fun token => match Json.parse token with
                         | Some v => Js.toString v
                         | None => None
                         end)
    [js "0.1"; js "0.30000000000000004"; js "1e21"; js "100000000000000000000";
     js "1.50e-7"; js "123456789012345678"; js "0.000001"; js "5e-324"; js "2e-324";
     js "-0"; js "1e400"; js "-2.5E1"; js "9007199254740993"; js "1e23"; js "01"]
  = [Some (js "0.1"); Some (js "0.30000000000000004"); Some (js "1e+21");
     Some (js "100000000000000000000"); Some (js "1.5e-7"); Some (js "123456789012345680");
     Some (js "0.000001"); Some (js "5e-324"); Some (js "0"); Some (js "0");
     Some (js "Infinity"); Some (js "-25"); Some (js "9007199254740992");
     Some (js "1e+23"); None].
Proof. vm_compute. reflexivity. Qed.

Example truthy_samples :
  List.map (fun text => Js.truthy (Json.parse text))
    [js "0"; js "-0"; js "1e-400"; js "0.5"; js "null"; js "false"; jsq "''";
     jsq "'0'"; js "[]"; js "{}"]
  = [false; false; false; true; false; false; false; true; true; true].
Proof. vm_compute. reflexivity. Qed.

Example toString_samples :
  List.map (fun text => match Json.parse text with
                        | Some v => Js.toString v
                        | None => None
                        end)
    [js "[]"; jsq "[1,null,'a',[2,3]]"; js "{}"; jsq "{'toString':1}"; js "true"]
  = [Some []; Some (js "1,,a,2,3"); Some (js "[object Object]"); None; Some (js "true")].
Proof. vm_compute. reflexivity. Qed.

Example parse_samples :
  List.map (fun text => match Json.parse text with Some _ => true | None => false end)
    [jsq "{'a':[1,2,{'b':null}]}"; js " [ ] "; jsq "'A\n'"; js "[1,]";
     jsq "{'a':1,}"; js "not-json"; js ""; js "[DONE]"; js "tru"; js "1 2"]
  = [true; true; true; false; false; false; false; false; false; false].
Proof. vm_compute. reflexivity. Qed.

(** A two-byte character cut between two reads is completed by the second
    read; a leading byte order mark is dropped; a stray continuation byte
    becomes U+FFFD. *)
Example decoder_samples :
  let '(d1, s1) := TextDecoder.decode TextDecoder.init [72; 195] in
  let '(d2, s2) := TextDecoder.decode d1 [169; 33] in
  s1 = [72] /\ s2 = [233; 33]
  /\ snd (TextDecoder.decode TextDecoder.init [239; 187; 191; 72]) = [72]
  /\ snd (TextDecoder.decode TextDecoder.init [72; 169]) = [72; 65533]
  /\ snd (TextDecoder.decode TextDecoder.init [240; 159; 152; 128]) = [55357; 56832].
Proof. vm_compute. repeat split; reflexivity. Qed.

(** A corrupt frame between two content frames is skipped; a frame whose
    content is a number is an increment too. *)
Example decode_samples :
  StreamRoute.decode_increments
    [ jsq "data: {'choices':[{'delta':{'content':'Hel'}}]}" ++ [10; 10]
      ++ js "data: not-json" ++ [10; 10];
      jsq "data: {'choices':[{'delta':{'content':'lo'}}]}" ++ [10; 10]
      ++ jsq "data: {'choices':[{'delta':{'content':42}}]}" ++ [10; 10]
      ++ jsq "data: {'choices':[]}" ++ [10; 10] ++ js "data: null" ++ [10; 10] ]
  = [JStr (js "Hel"); JStr (js "lo"); JNum (JsNumber.Finite false 5910974510923776 (-47))].
Proof. vm_compute. reflexivity. Qed.

End RuntimeSamples.

(** ** [JSON.parse] is total

    The recursion budget given by [Json.parse] is never exhausted: a [None]
    always stands for a syntax error. *)

Section JsonTotal.
Import Json.

Lemma skip_ws_length s : (length (skip_ws s) <= length s)%nat.
Proof.
  induction s as [|c s IH]; simpl; [lia |].
  destruct (is_json_ws c); simpl; lia.
Qed.

Lemma shrinks_map_ok {A B} (f : A -> B) s (r : PResult A) :
  shrinks s r -> shrinks s (map_ok f r).
Proof.
  intros [Hf Hl]. destruct r as [a rest| |]; simpl; split; try discriminate.
  - intros b rest' [= <- <-]. eauto.
  - contradiction.
Qed.

Lemma shrinks_longer {A} s s' (r : PResult A) :
  shrinks s r -> (length s <= length s')%nat -> shrinks s' r.
Proof.
  intros [Hf Hl] Hle. split; [exact Hf |].
  intros a rest E. specialize (Hl a rest E). lia.
Qed.

Lemma shrinks_error {A} s : shrinks s (@PSyntaxError A).
Proof. split; discriminate. Qed.

Lemma shrinks_ok {A} s (a : A) rest :
  (length rest < length s)%nat -> shrinks s (POk a rest).
Proof. intros H. split; [discriminate |]. now intros ? ? [= <- <-]. Qed.

Lemma parse_string_body_shrinks_n n : forall s,
  (length s <= n)%nat -> shrinks s (parse_string_body s).
Proof.
  induction n as [|n IH]; intros s Hn.
  - destruct s; [apply shrinks_error | simpl in Hn; lia].
  - destruct s as [|c rest]; [apply shrinks_error |].
    simpl in Hn. cbn [parse_string_body].
    assert (Hrec : forall r : jsstr, (length r <= length rest)%nat ->
              forall x, shrinks (c :: rest) (map_ok (cons x) (parse_string_body r))).
    { intros r Hr x. apply shrinks_map_ok.
      apply (shrinks_longer r); [apply IH; lia | simpl; lia]. }
    destruct (c =? 34); [apply shrinks_ok; simpl; lia |].
    destruct (c =? 92).
    + destruct rest as [|e r]; [apply shrinks_error |].
      assert (Hr : (length r <= length (e :: r))%nat) by (simpl; lia).
      repeat (match goal with
              | |- shrinks _ (if ?b then _ else _) => destruct b
              end; [now apply Hrec |]).
      destruct (e =? 117); [| apply shrinks_error].
      destruct r as [|a [|b [|c' [|d' r']]]]; try apply shrinks_error.
      destruct (hex_value a), (hex_value b), (hex_value c'), (hex_value d');
        try apply shrinks_error.
      apply Hrec. simpl. lia.
    + destruct (c <? 32); [apply shrinks_error |]. now apply Hrec.
Qed.

Lemma parse_string_body_shrinks s : shrinks s (parse_string_body s).
Proof. now apply (parse_string_body_shrinks_n (length s)). Qed.

Lemma span_digits_length s : (length (snd (span_digits s)) <= length s)%nat.
Proof.
  induction s as [|c s IH]; simpl; [lia |].
  destruct (is_digit c); [| simpl; lia].
  destruct (span_digits s) as [ds rest]. simpl in *. lia.
Qed.

Lemma take_sign_length plus s : (length (snd (take_sign plus s)) <= length s)%nat.
Proof.
  destruct s as [|c r]; simpl; [lia |].
  destruct (c =? 45); [simpl; lia |]. destruct (plus && (c =? 43)); simpl; lia.
Qed.

Lemma int_part_length s ds rest :
  int_part s = Some (ds, rest) -> (length rest < length s)%nat.
Proof.
  destruct s as [|c r]; simpl; [discriminate |].
  destruct (c =? 48); [intros [= <- <-]; lia |].
  destruct (is_digit c) eqn:Hd; [| discriminate].
  pose proof (span_digits_length r). destruct (span_digits r) as [ds' rest'].
  intros [= <- <-]. simpl in *. lia.
Qed.

Lemma frac_part_length s ds rest :
  frac_part s = Some (ds, rest) -> (length rest <= length s)%nat.
Proof.
  destruct s as [|c r]; simpl; [intros [= <- <-]; simpl; lia |].
  destruct (c =? 46); [| intros [= <- <-]; simpl; lia].
  pose proof (span_digits_length r). destruct (span_digits r) as [[|d ds'] rest'];
    [discriminate |]. intros [= <- <-]. simpl in *. lia.
Qed.

Lemma exp_part_length s neg ds rest :
  exp_part s = Some (neg, ds, rest) -> (length rest <= length s)%nat.
Proof.
  destruct s as [|c r]; simpl; [intros [= <- <- <-]; simpl; lia |].
  destruct ((c =? 101) || (c =? 69)); [| intros [= <- <- <-]; simpl; lia].
  pose proof (take_sign_length true r). destruct (take_sign true r) as [en r1].
  pose proof (span_digits_length r1). destruct (span_digits r1) as [[|d ds'] rest'];
    [discriminate |]. intros [= <- <- <-]. simpl in *. lia.
Qed.

Lemma parse_number_shrinks s : shrinks s (parse_number s).
Proof.
  unfold parse_number.
  pose proof (take_sign_length false s). destruct (take_sign false s) as [neg s1].
  destruct (int_part s1) as [[int_ds s2]|] eqn:Ei; [| apply shrinks_error].
  apply int_part_length in Ei.
  destruct (frac_part s2) as [[frac_ds s3]|] eqn:Ef; [| apply shrinks_error].
  apply frac_part_length in Ef.
  destruct (exp_part s3) as [[[exp_neg exp_ds] s4]|] eqn:Ee; [| apply shrinks_error].
  apply exp_part_length in Ee.
  apply shrinks_ok. simpl in *. lia.
Qed.

Lemma startsWith_length p s : startsWith p s = true -> (length p <= length s)%nat.
Proof.
  revert s. induction p as [|x p IH]; intros [|y s]; simpl; try lia; try discriminate.
  intros H. apply andb_true_iff in H as [_ H]. specialize (IH s H). lia.
Qed.

Lemma expect_literal_shrinks lit v s :
  lit <> [] -> shrinks s (expect_literal lit v s).
Proof.
  intros Hl. unfold expect_literal.
  destruct (startsWith lit s) eqn:E; [| apply shrinks_error].
  apply startsWith_length in E. apply shrinks_ok.
  rewrite length_drop. destruct lit; [contradiction | simpl in *; lia].
Qed.

Lemma parse_fuel_enough f :
  (forall s, (2 * length s < f)%nat -> shrinks s (parse_value f s))
  /\ (forall acc s, (2 * length s + 1 < f)%nat -> shrinks s (parse_elements f acc s))
  /\ (forall acc s, (2 * length s + 1 < f)%nat -> shrinks s (parse_members f acc s)).
Proof.
  induction f as [|f (IHv & IHe & IHm)]; [repeat split; intros; lia |].
  split; [| split].
  - intros s Hf. cbn [parse_value].
    pose proof (skip_ws_length s) as Hs.
    destruct (skip_ws s) as [|c r]; [apply shrinks_error |]. simpl in Hs.
    destruct (c =? 123).
    { pose proof (skip_ws_length r) as Hr.
      destruct (skip_ws r) as [|c' r']; [apply shrinks_error |]. simpl in Hr.
      destruct (c' =? 125); [apply shrinks_ok; lia |].
      apply (shrinks_longer r); [apply IHm; lia | lia]. }
    destruct (c =? 91).
    { pose proof (skip_ws_length r) as Hr.
      destruct (skip_ws r) as [|c' r']; [apply shrinks_error |]. simpl in Hr.
      destruct (c' =? 93); [apply shrinks_ok; lia |].
      apply (shrinks_longer r); [apply IHe; lia | lia]. }
    destruct (c =? 34).
    { apply shrinks_map_ok, (shrinks_longer r); [apply parse_string_body_shrinks | lia]. }
    destruct (c =? 116);
      [apply (shrinks_longer (c :: r)); [now apply expect_literal_shrinks | simpl; lia] |].
    destruct (c =? 102);
      [apply (shrinks_longer (c :: r)); [now apply expect_literal_shrinks | simpl; lia] |].
    destruct (c =? 110);
      [apply (shrinks_longer (c :: r)); [now apply expect_literal_shrinks | simpl; lia] |].
    apply shrinks_map_ok, (shrinks_longer (c :: r)); [apply parse_number_shrinks | simpl; lia].
  - intros acc s Hf. cbn [parse_elements].
    destruct (IHv s ltac:(lia)) as [Hne Hlt].
    destruct (parse_value f s) as [v rest| |]; [| apply shrinks_error | contradiction].
    specialize (Hlt v rest eq_refl).
    pose proof (skip_ws_length rest) as Hr.
    destruct (skip_ws rest) as [|c r]; [apply shrinks_error |]. simpl in Hr.
    destruct (c =? 44); [apply (shrinks_longer r); [apply IHe; lia | lia] |].
    destruct (c =? 93); [apply shrinks_ok; lia | apply shrinks_error].
  - intros acc s Hf. cbn [parse_members].
    pose proof (skip_ws_length s) as Hs.
    destruct (skip_ws s) as [|q r]; [apply shrinks_error |]. simpl in Hs.
    destruct (q =? 34); [| apply shrinks_error].
    destruct (parse_string_body_shrinks r) as [Hne Hlt].
    destruct (parse_string_body r) as [key rest| |]; [| apply shrinks_error | contradiction].
    specialize (Hlt key rest eq_refl).
    pose proof (skip_ws_length rest) as Hr.
    destruct (skip_ws rest) as [|c r']; [apply shrinks_error |]. simpl in Hr.
    destruct (c =? 58); [| apply shrinks_error].
    destruct (IHv r' ltac:(lia)) as [Hne' Hlt'].
    destruct (parse_value f r') as [v rest'| |]; [| apply shrinks_error | contradiction].
    specialize (Hlt' v rest' eq_refl).
    pose proof (skip_ws_length rest') as Hr'.
    destruct (skip_ws rest') as [|c' r'']; [apply shrinks_error |]. simpl in Hr'.
    destruct (c' =? 44); [apply (shrinks_longer r''); [apply IHm; lia | lia] |].
    destruct (c' =? 125); [apply shrinks_ok; lia | apply shrinks_error].
Qed.

(** The budget of [Json.parse] suffices for every text. *)
Lemma parse_never_out_of_fuel text :
  parse_value (S (2 * length text)) text <> POutOfFuel.
Proof. apply (parse_fuel_enough (S (2 * length text))). lia. Qed.

End JsonTotal.

(** ** Ownership isolation *)

Section Ownership.

Lemma findOne_Some (db : Store) cid uid chat :
  Mongo.findOne db cid uid = Some chat <-> db !! cid = Some chat /\ userId chat = uid.
Proof.
  unfold Mongo.findOne. destruct (db !! cid) as [c|] eqn:E.
  - destruct (decide (userId c = uid)) as [Hu|Hu]; split.
    + intros [= ->]. auto.
    + intros [[= ->] _]. reflexivity.
    + discriminate.
    + intros [[= ->] Hc]. contradiction.
  - split; [discriminate | intros [? _]; discriminate].
Qed.

Lemma findOne_other_owner (db : Store) cid uid chat :
  db !! cid = Some chat -> userId chat <> uid -> Mongo.findOne db cid uid = None.
Proof.
  intros Hl Hne. unfold Mongo.findOne. rewrite Hl.
  destruct (decide (userId chat = uid)); [contradiction | reflexivity].
Qed.

Lemma GET_Found db who cid c :
  ChatRoute.GET db who cid = ChatRoute.Found c ->
  exists uid, who = Some uid /\ db !! cid = Some c /\ userId c = uid.
Proof.
  unfold ChatRoute.GET. destruct (unauthenticated who) eqn:Hw; [discriminate |].
  destruct who as [uid|]; [| discriminate]. cbn [default from_option id].
  destruct (Mongo.findOne db cid uid) as [c'|] eqn:E; [| discriminate].
  intros [= <-]. apply findOne_Some in E as [E Hu]. eauto.
Qed.

Lemma DELETE_Deleted db who cid db' :
  ChatRoute.DELETE db who cid = (ChatRoute.Deleted, db') ->
  exists uid c, who = Some uid /\ db !! cid = Some c /\ userId c = uid
                /\ db' = delete cid db.
Proof.
  unfold ChatRoute.DELETE, Mongo.findOneAndDelete.
  destruct (unauthenticated who) eqn:Hw; [discriminate |].
  destruct who as [uid|]; [| discriminate]. cbn [default from_option id].
  destruct (Mongo.findOne db cid uid) as [c|] eqn:E; [| discriminate].
  intros [= <-]. apply findOne_Some in E as [E Hu]. eauto 6.
Qed.

End Ownership.

(** ** The decode loop as a function of its lines *)

Section DecodeLoop.
Import StreamRoute Decoder.

Lemma process_line_step st line :
  process_line st line =
  match line_step line with
  | Some (c, str) =>
      {| fullResponse := fullResponse st ++ str;
         sent := sent st ++ [EvChunk c];
         decoder := decoder st |}
  | None => st
  end.
Proof.
  unfold process_line, line_step.
  destruct (startsWith DATA_PREFIX line); [| reflexivity].
  destruct (JsString.eqb _ DONE); [reflexivity |].
  destruct (trim _); [reflexivity |].
  destruct (increment _) as [[c str]|]; reflexivity.
Qed.

Lemma fold_process_line lines : forall st,
  let steps := omap line_step lines in
  fold_left process_line lines st =
  {| fullResponse := fullResponse st ++ concat (List.map snd steps);
     sent := sent st ++ List.map (fun p => EvChunk (fst p)) steps;
     decoder := decoder st |}.
Proof.
  induction lines as [|l ls IH]; intros st; simpl.
  - rewrite !app_nil_r. now destruct st.
  - rewrite IH, process_line_step.
    destruct (line_step l) as [[c str]|]; simpl.
    + now rewrite <- !app_assoc.
    + reflexivity.
Qed.

Lemma process_read_eq st value :
  process_read st value =
  let steps := omap line_step (split LF (snd (TextDecoder.decode (decoder st) value))) in
  {| fullResponse := fullResponse st ++ concat (List.map snd steps);
     sent := sent st ++ List.map (fun p => EvChunk (fst p)) steps;
     decoder := fst (TextDecoder.decode (decoder st) value) |}.
Proof.
  unfold process_read.
  destruct (TextDecoder.decode (decoder st) value) as [d chunk].
  now rewrite fold_process_line.
Qed.

Lemma fold_process_read reads : forall st,
  fullResponse (fold_left process_read reads st)
    = fullResponse st ++ concat (List.map snd (reads_steps (decoder st) reads))
  /\ sent (fold_left process_read reads st)
    = sent st ++ List.map (fun p => EvChunk (fst p)) (reads_steps (decoder st) reads).
Proof.
  induction reads as [|r rs IH]; intros st.
  - simpl. now rewrite !app_nil_r.
  - cbn [fold_left reads_steps].
    destruct (IH (process_read st r)) as [IH1 IH2]. rewrite IH1, IH2.
    rewrite process_read_eq. cbn [fullResponse sent decoder].
    destruct (TextDecoder.decode (decoder st) r) as [d chunk]. cbn [fst snd].
    rewrite !List.map_app, concat_app, <- !app_assoc. auto.
Qed.

Lemma decode_increments_steps reads :
  decode_increments reads = List.map fst (reads_steps TextDecoder.init reads).
Proof.
  unfold decode_increments.
  destruct (fold_process_read reads
              {| fullResponse := []; sent := []; decoder := TextDecoder.init |}) as [_ ->].
  cbn [sent app decoder].
  generalize (reads_steps TextDecoder.init reads) as steps.
  induction steps as [|p ps IH]; [reflexivity |].
  cbn. now rewrite IH.
Qed.

Lemma chunks_are_chunks (steps : list (JSValue * jsstr)) :
  Forall (fun e => is_chunk e = true) (List.map (fun p => EvChunk (fst p)) steps).
Proof. induction steps; simpl; constructor; auto. Qed.

End DecodeLoop.

(** ** Shape of the event stream *)

Section EventShape.

Lemma count_app p (a b : list Event) : count p (a ++ b) = (count p a + count p b)%nat.
Proof. unfold count. now rewrite List.filter_app, length_app. Qed.

Lemma count_chunks_0 p (chunks : list Event) :
  (forall e, is_chunk e = true -> p e = false) ->
  Forall (fun e => is_chunk e = true) chunks -> count p chunks = 0%nat.
Proof.
  intros Hp. unfold count. induction 1 as [|e es He _ IH]; [reflexivity |].
  simpl. now rewrite (Hp e He).
Qed.

Lemma exchange_shaped_counts events :
  exchange_shaped events ->
  count is_userMessage events = 1%nat
  /\ (count is_complete events + count is_error events = 1)%nat
  /\ (exists m, head events = Some (EvUserMessage m))
  /\ (exists final, last events = Some final /\ is_terminal final = true).
Proof.
  intros (m & chunks & final & -> & Hc & Hf).
  assert (Hu : count is_userMessage chunks = 0%nat)
    by (apply count_chunks_0; [now intros [] | exact Hc]).
  assert (Hk : count is_complete chunks = 0%nat)
    by (apply count_chunks_0; [now intros [] | exact Hc]).
  assert (He : count is_error chunks = 0%nat)
    by (apply count_chunks_0; [now intros [] | exact Hc]).
  change (EvUserMessage m :: chunks ++ [final])
    with ([EvUserMessage m] ++ chunks ++ [final]).
  rewrite !count_app, Hu, Hk, He.
  repeat split.
  - destruct final; try discriminate Hf; reflexivity.
  - destruct final; try discriminate Hf; reflexivity.
  - now exists m.
  - exists final. split; [| exact Hf].
    rewrite app_assoc. apply last_snoc.
Qed.

Lemma finalize_shaped clk db cid m chunks chat text reply :
  Forall (fun e => is_chunk e = true) chunks ->
  try_shaped (finalize clk db cid (EvUserMessage m :: chunks) chat text reply).
Proof.
  intros Hc. unfold finalize. simpl. eauto 10.
Qed.

Lemma run_stream_shaped clk db cid r :
  try_shaped r ->
  exists events db',
    run_stream clk db cid r = (EventStream events, db') /\ exchange_shaped events.
Proof.
  destruct r as [events db1 | events chat]; simpl.
  - intros (m & chunks & a & t & -> & Hc).
    exists (EvUserMessage m :: chunks ++ [EvComplete a t]), db1.
    split; [reflexivity |]. exists m, chunks, (EvComplete a t). auto.
  - intros (m & chunks & -> & Hc).
    eexists _, _. split; [reflexivity |].
    exists m, chunks, (EvError (errorMessage_of clk) ERROR_CLASS). auto.
Qed.

Lemma stream_try_shaped clk db cid chat m text up :
  try_shaped (StreamRoute.try_block clk db cid chat m text up).
Proof.
  unfold StreamRoute.try_block.
  destruct up as [| | | reads e]; try (exists m, []; now auto).
  match goal with |- context [fold_left StreamRoute.process_read reads ?s] =>
    destruct (fold_process_read reads s) as [_ Hs]; set (st := fold_left _ reads s) in * end.
  cbn [StreamRoute.sent StreamRoute.decoder] in Hs.
  pose proof (chunks_are_chunks (Decoder.reads_steps TextDecoder.init reads)) as Hc.
  destruct e.
  - destruct (StreamRoute.fullResponse st); rewrite Hs; cbn [app].
    + rewrite app_comm_cons. change (?a :: ?l ++ ?r) with ((a :: l) ++ r).
      apply (finalize_shaped clk db cid m (_ ++ [EvChunk (JStr FALLBACK_TEXT)])).
      apply Forall_app. split; [exact Hc | now constructor].
    + now apply finalize_shaped.
  - rewrite Hs. eexists m, _. split; [reflexivity | exact Hc].
Qed.

Lemma word_chunks_are_chunks ws :
  Forall (fun e => is_chunk e = true) (SimulateRoute.word_chunks ws).
Proof.
  induction ws as [|w ws IH]; [constructor |].
  destruct ws; simpl; constructor; auto.
Qed.

Lemma simulate_try_shaped clk db cid chat m text up :
  try_shaped (SimulateRoute.try_block clk db cid chat m text up).
Proof.
  unfold SimulateRoute.try_block.
  destruct up as [| | body]; try (exists m, []; now auto).
  destruct (Json.parse body) as [ai|]; [| exists m, []; now auto].
  destruct (SimulateRoute.message_content ai) as [c|]; [| exists m, []; now auto].
  destruct (if Js.truthy c then _ else _); try (exists m, []; now auto).
  apply finalize_shaped, word_chunks_are_chunks.
Qed.

Lemma stream_POST_valid clk up db req chat :
  valid_exchange db req chat ->
  StreamRoute.POST clk up db req =
  run_stream clk db (chatId req)
    (StreamRoute.try_block clk db (chatId req)
       (Mongo.push chat (userMessage_of clk req None))
       (userMessage_of clk req None) (default [] (message req)) up).
Proof.
  intros (Ha & Hm & Hf). unfold StreamRoute.POST. now rewrite Ha, Hm, Hf.
Qed.

Lemma simulate_POST_valid clk up db req chat :
  valid_exchange db req chat ->
  SimulateRoute.POST clk up db req =
  run_stream clk db (chatId req)
    (SimulateRoute.try_block clk db (chatId req)
       (Mongo.push chat (userMessage_of clk req (req_files req)))
       (userMessage_of clk req (req_files req)) (default [] (message req)) up).
Proof.
  intros (Ha & Hm & Hf). unfold SimulateRoute.POST. now rewrite Ha, Hm, Hf.
Qed.

Lemma stream_POST_shaped clk db req chat up :
  valid_exchange db req chat ->
  exists events db',
    StreamRoute.POST clk up db req = (EventStream events, db') /\ exchange_shaped events.
Proof.
  intros Hv. rewrite (stream_POST_valid clk up db req chat Hv).
  apply run_stream_shaped, stream_try_shaped.
Qed.

Lemma simulate_POST_shaped clk db req chat up :
  valid_exchange db req chat ->
  exists events db',
    SimulateRoute.POST clk up db req = (EventStream events, db') /\ exchange_shaped events.
Proof.
  intros Hv. rewrite (simulate_POST_valid clk up db req chat Hv).
  apply run_stream_shaped, simulate_try_shaped.
Qed.

End EventShape.

(** ** Error recovery *)

Section ErrorRecovery.

Lemma run_stream_thrown clk db cid m chunks chat :
  run_stream clk db cid (Thrown (EvUserMessage m :: chunks) chat) =
  (EventStream (EvUserMessage m :: chunks ++ [EvError (errorMessage_of clk) ERROR_CLASS]),
   <[cid := {| userId := userId chat; title := title chat;
               messages := messages chat ++ [Mongo.cast (errorMessage_of clk)];
               createdAt := createdAt chat; updatedAt := now_save clk |}]> db).
Proof. reflexivity. Qed.

Lemma stream_try_thrown clk db cid chat m text up :
  stream_fails up = true ->
  exists chunks,
    StreamRoute.try_block clk db cid chat m text up = Thrown (EvUserMessage m :: chunks) chat
    /\ Forall (fun e => is_chunk e = true) chunks.
Proof.
  intros Hf. unfold StreamRoute.try_block.
  destruct up as [| | | reads e]; try (exists []; now auto).
  destruct e; [discriminate |].
  match goal with |- context [fold_left StreamRoute.process_read reads ?s] =>
    destruct (fold_process_read reads s) as [_ ->] end.
  eexists. split; [reflexivity | apply chunks_are_chunks].
Qed.

Lemma simulate_try_thrown clk db cid chat m text up :
  simulate_fails up = true ->
  SimulateRoute.try_block clk db cid chat m text up = Thrown [EvUserMessage m] chat.
Proof.
  unfold simulate_fails, SimulateRoute.try_block.
  destruct up as [| | body]; try reflexivity.
  destruct (Json.parse body) as [ai|]; [| reflexivity].
  destruct (SimulateRoute.message_content ai) as [c|]; [| reflexivity].
  destruct (Js.truthy c) eqn:T; [| discriminate].
  destruct c as [[]|]; simpl; intros H; try reflexivity; discriminate.
Qed.

End ErrorRecovery.

(** ** Finalizing *)

Section Finalizing.

Lemma finalize_eq clk db cid events chat um text reply :
  finalize clk db cid events (Mongo.push chat um) text reply =
  Completed
    (events ++ [EvComplete (assistantMessage_of clk reply) (title_after chat text)])
    (<[cid := committed clk chat um (assistantMessage_of clk reply)
                (title_after chat text)]> db).
Proof.
  unfold finalize, title_after. cbn -[derive_title Nat.eqb].
  rewrite !length_app. cbn [length].
  destruct (messages chat) as [|m ms]; cbn -[derive_title]; [reflexivity |].
  replace (length ms + 1 + 1)%nat with (S (S (length ms))) by lia.
  reflexivity.
Qed.

Lemma FALLBACK_TEXT_nonempty : FALLBACK_TEXT <> [].
Proof. discriminate. Qed.

Lemma NO_RESPONSE_TEXT_nonempty : NO_RESPONSE_TEXT <> [].
Proof. discriminate. Qed.

Lemma stream_try_completed clk db cid chat um text reads :
  exists chunks reply,
    StreamRoute.try_block clk db cid (Mongo.push chat um) um text
      (StreamRoute.Body reads StreamRoute.EndOfStream) =
    Completed
      (EvUserMessage um :: chunks
         ++ [EvComplete (assistantMessage_of clk reply) (title_after chat text)])
      (<[cid := committed clk chat um (assistantMessage_of clk reply)
                  (title_after chat text)]> db)
    /\ Forall (fun e => is_chunk e = true) chunks
    /\ reply <> []
    /\ (StreamRoute.decode_increments reads = [] ->
        chunks = [EvChunk (JStr FALLBACK_TEXT)] /\ reply = FALLBACK_TEXT).
Proof.
  unfold StreamRoute.try_block.
  match goal with |- context [fold_left StreamRoute.process_read reads ?s] =>
    destruct (fold_process_read reads s) as [Hf Hs];
    set (st := fold_left _ reads s) in * end.
  cbn [StreamRoute.sent StreamRoute.decoder StreamRoute.fullResponse app] in Hf, Hs.
  rewrite decode_increments_steps.
  pose proof (chunks_are_chunks (Decoder.reads_steps TextDecoder.init reads)) as Hc.
  destruct (StreamRoute.fullResponse st) as [|c full] eqn:Efull.
  - exists (List.map (fun p => EvChunk (fst p)) (Decoder.reads_steps TextDecoder.init reads)
            ++ [EvChunk (JStr FALLBACK_TEXT)]), FALLBACK_TEXT.
    rewrite Hs, finalize_eq. cbn [app].
    split; [reflexivity |]. split; [| split].
    + apply Forall_app. split; [exact Hc | now constructor].
    + discriminate.
    + intros E.
      destruct (Decoder.reads_steps TextDecoder.init reads); [split; reflexivity | discriminate].
  - exists (List.map (fun p => EvChunk (fst p)) (Decoder.reads_steps TextDecoder.init reads)),
      (c :: full).
    rewrite Hs, finalize_eq. cbn [app].
    split; [reflexivity |]. split; [| split].
    + exact Hc.
    + discriminate.
    + intros E. destruct (Decoder.reads_steps TextDecoder.init reads); [| discriminate].
      discriminate Hf.
Qed.

End Finalizing.

(** ** Validation *)

Section Validation.

Lemma trimStart_nil_iff s : trimStart s = [] <-> Forall (fun c => is_ws c = true) s.
Proof.
  induction s as [|c s IH]; simpl.
  - split; [constructor | reflexivity].
  - destruct (is_ws c) eqn:E.
    + rewrite IH. split; [now constructor | now inversion 1].
    + split; [discriminate | inversion 1; congruence].
Qed.

Lemma trimStart_head s c r : trimStart s = c :: r -> is_ws c = false.
Proof.
  induction s as [|x s IH]; simpl; [discriminate |].
  destruct (is_ws x) eqn:E; [exact IH | intros [= <- _]; exact E].
Qed.

Lemma trim_nil_iff s : trim s = [] <-> Forall (fun c => is_ws c = true) s.
Proof.
  unfold trim, trimEnd. rewrite <- trimStart_nil_iff. split.
  - intros H. apply (f_equal (@rev N)) in H. rewrite rev_involutive in H. simpl in H.
    apply trimStart_nil_iff in H. apply Forall_rev in H. rewrite rev_involutive in H.
    destruct (trimStart s) as [|c r] eqn:E; [reflexivity |].
    apply trimStart_head in E. inversion H; congruence.
  - intros ->. reflexivity.
Qed.

Lemma message_missing_iff m :
  message_missing m = true <->
  m = None \/ exists text, m = Some text /\ Forall (fun c => is_ws c = true) text.
Proof.
  destruct m as [text|]; simpl.
  - pose proof (trim_nil_iff text) as Ht.
    destruct (trim text) eqn:E; split.
    + intros _. right. exists text. split; [reflexivity | now apply Ht].
    + reflexivity.
    + discriminate.
    + intros [H | (t & [= <-] & H)]; [discriminate |].
      apply Ht in H. discriminate.
  - split; auto.
Qed.

Lemma stream_POST_400 clk up db req :
  unauthenticated (auth_userId req) = false ->
  (status (fst (StreamRoute.POST clk up db req)) = 400
     <-> message_missing (message req) = true)
  /\ (message_missing (message req) = true ->
      StreamRoute.POST clk up db req = (Plain 400 (js "Message is required"), db)).
Proof.
  intros Ha. unfold StreamRoute.POST. rewrite Ha.
  destruct (message_missing (message req)) eqn:Hm.
  - split; [split; reflexivity | reflexivity].
  - split; [| discriminate]. split; [| discriminate].
    destruct (Mongo.findOne _ _ _) as [chat|] eqn:Hf; [| discriminate].
    destruct (run_stream_shaped clk db (chatId req) _
                (stream_try_shaped clk db (chatId req)
                   (Mongo.push chat (userMessage_of clk req None))
                   (userMessage_of clk req None) (default [] (message req)) up))
      as (events & db' & E & _).
    unfold userMessage_of in E. rewrite E. discriminate.
Qed.

Lemma simulate_POST_400 clk up db req :
  unauthenticated (auth_userId req) = false ->
  (status (fst (SimulateRoute.POST clk up db req)) = 400
     <-> message_missing (message req) = true)
  /\ (message_missing (message req) = true ->
      SimulateRoute.POST clk up db req = (Plain 400 (js "Message is required"), db)).
Proof.
  intros Ha. unfold SimulateRoute.POST. rewrite Ha.
  destruct (message_missing (message req)) eqn:Hm.
  - split; [split; reflexivity | reflexivity].
  - split; [| discriminate]. split; [| discriminate].
    destruct (Mongo.findOne _ _ _) as [chat|] eqn:Hf; [| discriminate].
    destruct (run_stream_shaped clk db (chatId req) _
                (simulate_try_shaped clk db (chatId req)
                   (Mongo.push chat (userMessage_of clk req (req_files req)))
                   (userMessage_of clk req (req_files req)) (default [] (message req)) up))
      as (events & db' & E & _).
    unfold userMessage_of in E. rewrite E. discriminate.
Qed.

End Validation.

(** ** Outcomes of a valid exchange *)

Section Outcomes.

Lemma simulate_try_completed clk db cid chat um text up :
  simulate_fails up = false ->
  exists chunks reply,
    SimulateRoute.try_block clk db cid (Mongo.push chat um) um text up =
    Completed
      (EvUserMessage um :: chunks
         ++ [EvComplete (assistantMessage_of clk reply) (title_after chat text)])
      (<[cid := committed clk chat um (assistantMessage_of clk reply)
                  (title_after chat text)]> db)
    /\ Forall (fun e => is_chunk e = true) chunks
    /\ reply <> [].
Proof.
  unfold simulate_fails, SimulateRoute.try_block.
  destruct up as [| | body]; try discriminate.
  destruct (Json.parse body) as [ai|]; [| discriminate].
  destruct (SimulateRoute.message_content ai) as [c|]; [| discriminate].
  destruct (Js.truthy c) eqn:T.
  - destruct c as [[| | | s | |]|]; try discriminate. intros _. cbn [from_option id].
    exists (SimulateRoute.word_chunks (split SPACE s)), s.
    rewrite finalize_eq. split; [reflexivity |].
    split; [apply word_chunks_are_chunks |].
    destruct s; [discriminate T | discriminate].
  - intros _. pose proof NO_RESPONSE_TEXT_nonempty as Hne. revert Hne.
    generalize NO_RESPONSE_TEXT as t. intros t Hne.
    exists (SimulateRoute.word_chunks (split SPACE t)), t.
    rewrite finalize_eq. split; [reflexivity |].
    split; [apply word_chunks_are_chunks | exact Hne].
Qed.

Lemma stream_POST_outcome clk up db req chat :
  valid_exchange db req chat ->
  outcome clk db req chat (userMessage_of clk req None) (StreamRoute.POST clk up db req).
Proof.
  intros Hv. rewrite (stream_POST_valid clk up db req chat Hv).
  destruct (stream_fails up) eqn:Hf.
  - destruct (stream_try_thrown clk db (chatId req)
                (Mongo.push chat (userMessage_of clk req None))
                (userMessage_of clk req None) (default [] (message req)) up Hf)
      as (chunks & -> & Hc).
    exists chunks. split; [exact Hc |]. left. apply run_stream_thrown.
  - destruct up as [| | | reads []]; try discriminate Hf.
    destruct (stream_try_completed clk db (chatId req) chat (userMessage_of clk req None)
                (default [] (message req)) reads) as (chunks & reply & -> & Hc & Hr & _).
    exists chunks. split; [exact Hc |]. right. exists reply. auto.
Qed.

Lemma simulate_POST_outcome clk up db req chat :
  valid_exchange db req chat ->
  outcome clk db req chat (userMessage_of clk req (req_files req))
    (SimulateRoute.POST clk up db req).
Proof.
  intros Hv. rewrite (simulate_POST_valid clk up db req chat Hv).
  destruct (simulate_fails up) eqn:Hf.
  - rewrite (simulate_try_thrown _ _ _ _ _ _ _ Hf).
    exists []. split; [constructor |]. left. apply run_stream_thrown.
  - destruct (simulate_try_completed clk db (chatId req) chat
                (userMessage_of clk req (req_files req))
                (default [] (message req)) up Hf) as (chunks & reply & -> & Hc & Hr).
    exists chunks. split; [exact Hc |]. right. exists reply. auto.
Qed.

Lemma outcome_error clk db req chat um events db' :
  outcome clk db req chat um (EventStream events, db') ->
  ends_in_error events ->
  db' = <[chatId req := committed clk chat um (errorMessage_of clk) (title chat)]> db.
Proof.
  intros (chunks & _ & [H | (reply & _ & H)]) (m & e & Hl).
  - now inversion H.
  - inversion H; subst. rewrite app_comm_cons, last_snoc in Hl. discriminate.
Qed.

(** No request to a relay changes the title of a conversation that already
    holds two messages. *)
Lemma exchange_keeps_title db cid c x :
  db !! cid = Some c -> (2 <= length (messages c))%nat ->
  exists c', run_exchange db x !! cid = Some c'
             /\ title c' = title c /\ (2 <= length (messages c'))%nat.
Proof.
  intros Hl Hlen.
  assert (Hgen : forall clk req um (r : Response * Store),
             (r = (Plain 401 (js "Unauthorized"), db)
              \/ r = (Plain 400 (js "Message is required"), db)
              \/ r = (Plain 404 (js "Chat not found"), db)
              \/ exists chat, db !! chatId req = Some chat /\ outcome clk db req chat um r) ->
             exists c', snd r !! cid = Some c'
                        /\ title c' = title c /\ (2 <= length (messages c'))%nat).
  { intros clk req um r [-> | [-> | [-> | (chat & Hc & chunks & _ & H)]]];
      try (exists c; now auto).
    destruct (decide (chatId req = cid)) as [<- | Hne].
    - assert (chat = c) as -> by congruence.
      destruct H as [-> | (reply & _ & ->)]; cbn [snd]; rewrite lookup_insert_eq;
        eexists; (split; [reflexivity |]); cbn [title messages committed];
        rewrite ?length_app; cbn [length]; (split; [| lia]); [reflexivity |].
      unfold title_after. destruct (messages c); [simpl in Hlen; lia | reflexivity].
    - destruct H as [-> | (reply & _ & ->)]; cbn [snd];
        rewrite lookup_insert_ne by exact Hne; exists c; auto. }
  destruct x as [clk up req | clk up req]; cbn [run_exchange].
  - apply (Hgen clk req (userMessage_of clk req None)).
    destruct (unauthenticated (auth_userId req)) eqn:Ha;
      [left; unfold StreamRoute.POST; now rewrite Ha |].
    destruct (message_missing (message req)) eqn:Hm;
      [right; left; unfold StreamRoute.POST; now rewrite Ha, Hm |].
    destruct (Mongo.findOne db (chatId req) (default [] (auth_userId req))) as [chat|] eqn:Hf;
      [| right; right; left; unfold StreamRoute.POST; now rewrite Ha, Hm, Hf].
    right; right; right. exists chat. split; [now apply findOne_Some in Hf |].
    now apply stream_POST_outcome.
  - apply (Hgen clk req (userMessage_of clk req (req_files req))).
    destruct (unauthenticated (auth_userId req)) eqn:Ha;
      [left; unfold SimulateRoute.POST; now rewrite Ha |].
    destruct (message_missing (message req)) eqn:Hm;
      [right; left; unfold SimulateRoute.POST; now rewrite Ha, Hm |].
    destruct (Mongo.findOne db (chatId req) (default [] (auth_userId req))) as [chat|] eqn:Hf;
      [| right; right; left; unfold SimulateRoute.POST; now rewrite Ha, Hm, Hf].
    right; right; right. exists chat. split; [now apply findOne_Some in Hf |].
    now apply simulate_POST_outcome.
Qed.

Lemma exchanges_keep_title xs : forall db cid c,
  db !! cid = Some c -> (2 <= length (messages c))%nat ->
  exists c', run_exchanges db xs !! cid = Some c'
             /\ title c' = title c /\ (2 <= length (messages c'))%nat.
Proof.
  induction xs as [|x xs IH]; intros db cid c Hl Hlen.
  - exists c. auto.
  - destruct (exchange_keeps_title db cid c x Hl Hlen) as (c1 & Hl1 & Ht1 & Hlen1).
    destruct (IH (run_exchange db x) cid c1 Hl1 Hlen1) as (c' & Hl' & Ht' & Hlen').
    exists c'. split; [exact Hl' |]. split; [congruence | exact Hlen'].
Qed.

End Outcomes.

(** ** Title derivation *)

Section Title.













Lemma derive_title_short m :
  (length (firstWords m) <= 50)%nat -> derive_title m = firstWords m.
Proof.
  intros H. unfold derive_title.
  destruct (50 <? length (firstWords m))%nat eqn:E; [| reflexivity].
  apply Nat.ltb_lt in E. lia.
Qed.

Lemma derive_title_long m :
  (50 < length (firstWords m))%nat ->
  derive_title m = take 47 (firstWords m) ++ js "..." /\ length (derive_title m) = 50%nat.
Proof.
  intros H. unfold derive_title, substring0.
  apply Nat.ltb_lt in H as E. rewrite E. split; [reflexivity |].
  rewrite length_app, length_take, Nat.min_l by lia. reflexivity.
Qed.

Lemma completes_error m chunks x e :
  Forall (fun e => is_chunk e = true) chunks ->
  completes (EvUserMessage m :: chunks ++ [EvError x e]) = false.
Proof.
  intros Hc. unfold completes. simpl. rewrite existsb_app. simpl.
  rewrite orb_false_r. induction Hc as [|c cs H _ IH]; [reflexivity |].
  simpl. rewrite IH. now destruct c.
Qed.

Lemma completes_complete m chunks a t :
  completes (EvUserMessage m :: chunks ++ [EvComplete a t]) = true.
Proof.
  unfold completes. simpl. rewrite existsb_app. simpl. now rewrite orb_true_r.
Qed.

(** The title an exchange leaves, from its outcome. *)
Lemma outcome_title clk db req chat um events db' :
  outcome clk db req chat um (EventStream events, db') ->
  exists c', db' !! chatId req = Some c'
    /\ title c' =
       (if completes events && (length (messages c') =? 2)%nat
        then derive_title (default [] (message req)) else title chat).
Proof.
  intros (chunks & Hc & [H | (reply & _ & H)]); inversion H; subst; clear H.
  - eexists. split; [apply lookup_insert_eq |].
    now rewrite completes_error.
  - eexists. split; [apply lookup_insert_eq |].
    rewrite completes_complete. cbn [committed messages title andb].
    rewrite !length_app. cbn [length]. unfold title_after.
    destruct (messages chat) as [|x xs]; [reflexivity |].
    cbn [length]. replace (S (length xs) + 1 + 1)%nat with (S (S (S (length xs)))) by lia.
    reflexivity.
Qed.

End Title.

(** ** Re-chunking the upstream bytes *)

Section Rechunking.
Import StreamRoute Decoder.

Lemma split_not_nil sep s : split sep s <> [].
Proof.
  destruct s as [|c s]; simpl; [discriminate |].
  destruct (c =? sep); [discriminate |]. destruct (split sep s); discriminate.
Qed.

Lemma split_app_sep sep a b :
  split sep (a ++ sep :: b) = split sep a ++ split sep b.
Proof.
  induction a as [|c a IH]; simpl.
  - now rewrite N.eqb_refl.
  - rewrite IH. destruct (c =? sep); [reflexivity |].
    pose proof (split_not_nil sep a). destruct (split sep a); [contradiction | reflexivity].
Qed.

(** Cutting the text after a line feed does not change the increments. *)
Lemma steps_app_aligned r rest :
  r = [] \/ last r = Some LF ->
  omap line_step (split LF (r ++ rest))
  = omap line_step (split LF r) ++ omap line_step (split LF rest).
Proof.
  intros [-> | Hl]; [reflexivity |].
  apply last_Some in Hl as [a ->].
  rewrite <- app_assoc. cbn [app]. rewrite split_app_sep.
  replace (a ++ [LF]) with (a ++ LF :: []) by reflexivity.
  rewrite split_app_sep, !omap_app. cbn. now rewrite app_nil_r.
Qed.

Lemma run_ascii d bytes :
  TextDecoder.bytes_needed d = 0 -> is_ascii bytes = true ->
  TextDecoder.run d bytes = (d, bytes).
Proof.
  intros Hd. induction bytes as [|b bs IH]; simpl; [reflexivity |].
  intros H. apply andb_true_iff in H as [Hb Hbs].
  unfold TextDecoder.step. rewrite Hd. cbn [N.eqb]. unfold TextDecoder.lead.
  apply N.ltb_lt in Hb. assert ((b <=? 127) = true) as -> by (apply N.leb_le; lia).
  now rewrite IH.
Qed.

Lemma utf16_ascii bytes :
  is_ascii bytes = true -> concat (List.map TextDecoder.utf16 bytes) = bytes.
Proof.
  induction bytes as [|b bs IH]; simpl; [reflexivity |].
  intros H. apply andb_true_iff in H as [Hb Hbs]. apply N.ltb_lt in Hb.
  unfold TextDecoder.utf16 at 1.
  assert ((b <? 65536) = true) as -> by (apply N.ltb_lt; lia).
  simpl. now rewrite IH.
Qed.

Lemma decode_ascii d bytes :
  TextDecoder.bytes_needed d = 0 -> is_ascii bytes = true ->
  exists d', TextDecoder.decode d bytes = (d', bytes) /\ TextDecoder.bytes_needed d' = 0.
Proof.
  intros Hd Ha. unfold TextDecoder.decode. rewrite (run_ascii d bytes Hd Ha).
  destruct bytes as [|b bs]; [now exists d |].
  pose proof Ha as Ha'. simpl in Ha'. apply andb_true_iff in Ha' as [Hb _].
  apply N.ltb_lt in Hb.
  assert ((b =? 65279) = false) as -> by (apply N.eqb_neq; lia).
  rewrite andb_false_r, (utf16_ascii (b :: bs) Ha).
  eexists. split; [reflexivity | exact Hd].
Qed.

Lemma reads_steps_ascii reads : forall d,
  TextDecoder.bytes_needed d = 0 ->
  Forall (fun r => is_ascii r = true) reads ->
  reads_steps d reads = concat (List.map (fun r => omap line_step (split LF r)) reads).
Proof.
  induction reads as [|r rs IH]; intros d Hd Ha; [reflexivity |].
  inversion Ha as [|? ? Hr Hrs]; subst.
  destruct (decode_ascii d r Hd Hr) as (d' & E & Hd').
  cbn [reads_steps List.map concat]. rewrite E. now rewrite (IH d' Hd' Hrs).
Qed.

Lemma steps_concat_aligned reads :
  line_aligned reads ->
  concat (List.map (fun r => omap line_step (split LF r)) reads)
  = omap line_step (split LF (concat reads)).
Proof.
  induction 1 as [|r rs Hr _ IH]; [reflexivity |].
  cbn [List.map concat]. now rewrite steps_app_aligned, IH.
Qed.

Lemma is_ascii_concat reads :
  is_ascii (concat reads) = true -> Forall (fun r => is_ascii r = true) reads.
Proof.
  unfold is_ascii. induction reads as [|r rs IH]; [constructor |].
  cbn [concat]. rewrite forallb_app. intros H. apply andb_true_iff in H as [Hr Hrs].
  constructor; auto.
Qed.

(** For text in ASCII, reads cut at line terminators decode like one read
    of the whole. *)
Lemma decode_increments_aligned reads :
  is_ascii (concat reads) = true -> line_aligned reads ->
  decode_increments reads = List.map fst (omap line_step (split LF (concat reads))).
Proof.
  intros Ha Hl. rewrite decode_increments_steps.
  rewrite (reads_steps_ascii reads TextDecoder.init eq_refl (is_ascii_concat reads Ha)).
  now rewrite steps_concat_aligned.
Qed.

(** *** The pieces of the example stream *)

Lemma eqb_eq (a b : jsstr) : JsString.eqb a b = true -> a = b.
Proof.
  revert b. induction a as [|x a IH]; intros [|y b]; simpl; try discriminate; [reflexivity |].
  intros H. apply andb_true_iff in H as [Hx Hab]. apply N.eqb_eq in Hx.
  now rewrite Hx, (IH b Hab).
Qed.

Lemma no_step_nil l : no_step l = true -> l = [].
Proof. destruct l; [reflexivity | discriminate]. Qed.

Lemma one_step_eq text l : one_step text l = true -> l = [(JStr text, text)].
Proof.
  destruct l as [|[[] t] [|? ?]]; simpl; try discriminate.
  intros H. apply andb_true_iff in H as [Hs Ht].
  now rewrite (eqb_eq _ _ Hs), (eqb_eq _ _ Ht).
Qed.

Lemma pieces_ok_piece stream text k o n :
  pieces_ok stream text k = true ->
  (o + n <= length stream)%nat ->
  read_steps (take n (drop o stream))
  = if (o =? 0)%nat && (k <=? n)%nat then [(JStr text, text)] else [].
Proof.
  unfold pieces_ok. intros H Hn.
  rewrite forallb_forall in H. specialize (H o).
  rewrite forallb_forall in H.
  assert (Ho : In o (seq 0 (S (length stream)))) by (apply in_seq; lia).
  assert (Hin : In n (seq 0 (S (length stream - o)))) by (apply in_seq; lia).
  specialize (H Ho n Hin). unfold piece_ok in H.
  destruct ((o =? 0)%nat && (k <=? n)%nat); [now apply one_step_eq | now apply no_step_nil].
Qed.

Lemma steps_of_pieces stream text k :
  pieces_ok stream text k = true ->
  forall reads o,
    concat reads = drop o stream -> (o <= length stream)%nat ->
    concat (List.map read_steps reads)
    = if (o =? 0)%nat && first_read_at_least k reads then [(JStr text, text)] else [].
Proof.
  intros Hok. induction reads as [|r rs IH]; intros o Hc Ho.
  - cbn. now rewrite andb_false_r.
  - cbn [concat List.map] in *.
    assert (Hlen : (length r + length (concat rs) = length stream - o)%nat)
      by (rewrite <- length_app, Hc, length_drop; reflexivity).
    assert (Hr : r = take (length r) (drop o stream))
      by (rewrite <- Hc; symmetry; apply take_app_length).
    assert (Hrs : concat rs = drop (o + length r) stream)
      by (rewrite <- drop_drop, <- Hc; symmetry; apply drop_app_length).
    rewrite Hr at 1. rewrite (pieces_ok_piece stream text k o (length r) Hok) by lia.
    rewrite (IH (o + length r)%nat Hrs) by lia.
    destruct r as [|b r'].
    + cbn [length first_read_at_least]. rewrite Nat.add_0_r.
      replace (k <=? 0)%nat with false; [now rewrite andb_false_r |].
      symmetry. apply Nat.leb_gt. revert Hok. clear. intros Hok.
      destruct k; [| lia]. exfalso.
      pose proof (pieces_ok_piece stream text 0 0 0 Hok ltac:(lia)) as H.
      cbn in H. discriminate H.
    + cbn [first_read_at_least].
      replace (o + length (b :: r') =? 0)%nat with false
        by (symmetry; apply Nat.eqb_neq; simpl; lia).
      cbn [andb]. rewrite app_nil_r. reflexivity.
Qed.

Lemma reads_steps_read_steps reads :
  is_ascii (concat reads) = true ->
  decode_increments reads = List.map fst (concat (List.map read_steps reads)).
Proof.
  intros Ha. rewrite decode_increments_steps.
  now rewrite (reads_steps_ascii reads TextDecoder.init eq_refl (is_ascii_concat reads Ha)).
Qed.

(** Reads of the example stream cut at line terminators only yield its
    increment. *)
Lemma decode_line_aligned reads :
  concat reads = Examples.sse_hi_done ->
  line_aligned reads ->
  decode_increments reads = [JStr (js "Hi")].
Proof.
  intros Hc Hl. rewrite decode_increments_aligned; [| rewrite Hc; reflexivity | exact Hl].
  rewrite Hc. vm_compute. reflexivity.
Qed.

End Rechunking.

(** ** The sentinel *)

Section Sentinel.
Import StreamRoute Decoder.

Lemma sentinel_line_step line :
  startsWith DATA_PREFIX line = true ->
  trim (slice_from 6 line) = DONE ->
  line_step line = None.
Proof. intros Hp Hd. unfold line_step. rewrite Hp, Hd. reflexivity. Qed.

End Sentinel.

(** ** Regeneration *)

Section Regeneration.

(** The stored conversation after any valid exchange: the user message and
    one assistant message are appended, on either outcome. *)
Lemma outcome_appends clk db req chat um r :
  outcome clk db req chat um r ->
  exists c' reply,
    snd r !! chatId req = Some c'
    /\ messages c' = messages chat ++ [Mongo.cast um; reply]
    /\ role reply = assistant.
Proof.
  intros (chunks & _ & [-> | (reply & _ & ->)]); cbn [snd];
    rewrite lookup_insert_eq; eexists _, _; (split; [reflexivity |]);
    cbn [committed messages]; rewrite <- app_assoc; split; reflexivity.
Qed.

Lemma regenerate_request_valid :
  valid_exchange Examples.db_sum
    {| auth_userId := Some Examples.alice; chatId := Examples.cid0;
       message := Some (trim (js "2+2?")); req_files := None |}
    Examples.chat_sum.
Proof. repeat split; vm_compute; reflexivity. Qed.

End Regeneration.

(** ** The relays when the store rejects a write *)

Section RejectedWrites.
Import Fallible.

Lemma fallible_finalize_eq w clk db cid events chat um text reply :
  finalize w clk db cid events (Mongo.push chat um) text reply =
  if reply_accepted w then
    Completed
      (events ++ [EvComplete (assistantMessage_of clk reply) (title_after chat text)])
      (<[cid := committed clk chat um (assistantMessage_of clk reply)
                  (title_after chat text)]> db)
  else
    Thrown events
      {| userId := userId chat; title := title_after chat text;
         messages := (messages chat ++ [Mongo.cast um])
                     ++ [Mongo.cast (assistantMessage_of clk reply)];
         createdAt := createdAt chat; updatedAt := updatedAt chat |}
      true.
Proof.
  unfold finalize, save, title_after, Mongo.save, Mongo.set_title, Mongo.push, committed.
  cbn -[derive_title Nat.eqb]. rewrite !length_app. cbn [length].
  destruct (messages chat) as [|m ms]; cbn -[derive_title].
  - destruct (reply_accepted w); reflexivity.
  - replace (length ms + 1 + 1)%nat with (S (S (length ms))) by lia.
    destruct (reply_accepted w); reflexivity.
Qed.

Lemma run_thrown_early w clk db cid chunks chat um :
  run_stream w clk db cid (Thrown (EvUserMessage um :: chunks) (Mongo.push chat um) false)
  = after_provider_failure w clk db cid chat um chunks.
Proof.
  unfold run_stream, recover, save, after_provider_failure.
  destruct (error_accepted w); reflexivity.
Qed.

Lemma run_finalize w clk db cid chunks chat um text reply :
  run_stream w clk db cid
    (finalize w clk db cid (EvUserMessage um :: chunks) (Mongo.push chat um) text reply)
  = after_reply w clk db cid chat um chunks reply (title_after chat text).
Proof.
  rewrite fallible_finalize_eq. unfold after_reply.
  destruct (reply_accepted w); [reflexivity |].
  unfold run_stream, recover, save. destruct (error_accepted w); reflexivity.
Qed.

Lemma fallible_stream_try clk w db cid chat um text up :
  exists chunks,
    Forall (fun e => is_chunk e = true) chunks
    /\ ((stream_fails up = true
         /\ Stream.try_block w clk db cid (Mongo.push chat um) um text up
            = Thrown (EvUserMessage um :: chunks) (Mongo.push chat um) false)
        \/ (stream_fails up = false
            /\ exists reply,
                 reply <> []
                 /\ Stream.try_block w clk db cid (Mongo.push chat um) um text up
                    = finalize w clk db cid (EvUserMessage um :: chunks)
                        (Mongo.push chat um) text reply)).
Proof.
  unfold Stream.try_block.
  destruct up as [| | | reads e];
    try (exists []; split; [constructor | left; split; reflexivity]).
  match goal with |- context [fold_left StreamRoute.process_read reads ?s] =>
    destruct (fold_process_read reads s) as [Hf Hs];
    set (st := fold_left _ reads s) in * end.
  cbn [StreamRoute.sent StreamRoute.decoder StreamRoute.fullResponse app] in Hf, Hs.
  pose proof (chunks_are_chunks (Decoder.reads_steps TextDecoder.init reads)) as Hc.
  destruct e.
  - destruct (StreamRoute.fullResponse st) as [|c full] eqn:Efull.
    + exists (List.map (fun p => EvChunk (fst p)) (Decoder.reads_steps TextDecoder.init reads)
              ++ [EvChunk (JStr FALLBACK_TEXT)]).
      split; [apply Forall_app; split; [exact Hc | now constructor] |].
      right. split; [reflexivity |]. exists FALLBACK_TEXT.
      split; [apply FALLBACK_TEXT_nonempty |]. rewrite Hs. reflexivity.
    + exists (List.map (fun p => EvChunk (fst p)) (Decoder.reads_steps TextDecoder.init reads)).
      split; [exact Hc |]. right. split; [reflexivity |]. exists (c :: full).
      split; [discriminate |]. rewrite Hs. reflexivity.
  - exists (List.map (fun p => EvChunk (fst p)) (Decoder.reads_steps TextDecoder.init reads)).
    split; [exact Hc |]. left. split; [reflexivity |]. rewrite Hs. reflexivity.
Qed.

Lemma fallible_simulate_try clk w db cid chat um text up :
  (simulate_fails up = true
   /\ Simulate.try_block w clk db cid (Mongo.push chat um) um text up
      = Thrown [EvUserMessage um] (Mongo.push chat um) false)
  \/ (simulate_fails up = false
      /\ exists reply,
           reply <> []
           /\ Simulate.try_block w clk db cid (Mongo.push chat um) um text up
              = finalize w clk db cid
                  (EvUserMessage um :: SimulateRoute.word_chunks (split SPACE reply))
                  (Mongo.push chat um) text reply).
Proof.
  unfold simulate_fails, Simulate.try_block.
  destruct up as [| | body]; try (left; split; reflexivity).
  destruct (Json.parse body) as [ai|]; [| left; split; reflexivity].
  destruct (SimulateRoute.message_content ai) as [c|]; [| left; split; reflexivity].
  destruct (Js.truthy c) eqn:T.
  - destruct c as [[| | | s | |]|]; try discriminate T;
      try (left; split; reflexivity).
    right. split; [reflexivity |]. cbn [from_option id]. exists s.
    split; [destruct s; [discriminate T | discriminate] | reflexivity].
  - right. split; [reflexivity |]. pose proof NO_RESPONSE_TEXT_nonempty as Hne. revert Hne.
    generalize NO_RESPONSE_TEXT as t. intros t Hne. exists t. split; [exact Hne | reflexivity].
Qed.

Lemma fallible_stream_POST_valid w clk up db req chat :
  valid_exchange db req chat ->
  Stream.POST w clk up db req =
  run_stream w clk db (chatId req)
    (Stream.try_block w clk db (chatId req)
       (Mongo.push chat (userMessage_of clk req None))
       (userMessage_of clk req None) (default [] (message req)) up).
Proof.
  intros (Ha & Hm & Hf). unfold Stream.POST. now rewrite Ha, Hm, Hf.
Qed.

Lemma fallible_simulate_POST_valid w clk up db req chat :
  valid_exchange db req chat ->
  Simulate.POST w clk up db req =
  run_stream w clk db (chatId req)
    (Simulate.try_block w clk db (chatId req)
       (Mongo.push chat (userMessage_of clk req (req_files req)))
       (userMessage_of clk req (req_files req)) (default [] (message req)) up).
Proof.
  intros (Ha & Hm & Hf). unfold Simulate.POST. now rewrite Ha, Hm, Hf.
Qed.

(** The ways a valid exchange ends, for every provider and every store. *)
Lemma fallible_stream_outcome w clk up db req chat :
  valid_exchange db req chat ->
  outcome w clk db req chat (userMessage_of clk req None) (stream_fails up)
    (Stream.POST w clk up db req).
Proof.
  intros Hv. rewrite (fallible_stream_POST_valid w clk up db req chat Hv).
  destruct (fallible_stream_try clk w db (chatId req) chat (userMessage_of clk req None)
              (default [] (message req)) up)
    as (chunks & Hc & [[Hf ->] | (Hf & reply & Hr & ->)]);
    exists chunks; (split; [exact Hc |]).
  - left. split; [exact Hf | apply run_thrown_early].
  - right. split; [exact Hf |]. exists reply. split; [exact Hr | apply run_finalize].
Qed.

Lemma fallible_simulate_outcome w clk up db req chat :
  valid_exchange db req chat ->
  outcome w clk db req chat (userMessage_of clk req (req_files req)) (simulate_fails up)
    (Simulate.POST w clk up db req).
Proof.
  intros Hv. rewrite (fallible_simulate_POST_valid w clk up db req chat Hv).
  destruct (fallible_simulate_try clk w db (chatId req) chat
              (userMessage_of clk req (req_files req)) (default [] (message req)) up)
    as [[Hf ->] | (Hf & reply & Hr & ->)].
  - exists []. split; [constructor |]. left. split; [exact Hf | apply run_thrown_early].
  - exists (SimulateRoute.word_chunks (split SPACE reply)).
    split; [apply word_chunks_are_chunks |]. right. split; [exact Hf |].
    exists reply. split; [exact Hr | apply run_finalize].
Qed.

End RejectedWrites.

(** For a store that accepts both writes these are the handlers defined
    first. *)
Lemma fallible_stream_POST_accepted w clk up db req :
  Fallible.reply_accepted w = true -> Fallible.error_accepted w = true ->
  Fallible.Stream.POST w clk up db req = StreamRoute.POST clk up db req.
Proof.
  intros Hr He. unfold Fallible.Stream.POST, StreamRoute.POST.
  destruct (unauthenticated _); [reflexivity |].
  destruct (message_missing _); [reflexivity |].
  destruct (Mongo.findOne _ _ _) as [chat|]; [| reflexivity].
  unfold Fallible.Stream.try_block, StreamRoute.try_block.
  destruct up as [| | | reads []];
    try (unfold Fallible.run_stream, run_stream, Fallible.recover, recover, Fallible.save;
         rewrite He; reflexivity).
  destruct (StreamRoute.fullResponse _);
    unfold Fallible.finalize, finalize, Fallible.save; rewrite Hr; reflexivity.
Qed.

Lemma fallible_simulate_POST_accepted w clk up db req :
  Fallible.reply_accepted w = true -> Fallible.error_accepted w = true ->
  Fallible.Simulate.POST w clk up db req = SimulateRoute.POST clk up db req.
Proof.
  intros Hr He. unfold Fallible.Simulate.POST, SimulateRoute.POST.
  destruct (unauthenticated _); [reflexivity |].
  destruct (message_missing _); [reflexivity |].
  destruct (Mongo.findOne _ _ _) as [chat|]; [| reflexivity].
  assert (Hthrown : forall events c,
             Fallible.run_stream w clk db (chatId req) (Fallible.Thrown events c false)
             = run_stream clk db (chatId req) (Thrown events c)).
  { intros. unfold Fallible.run_stream, run_stream, Fallible.recover, recover, Fallible.save.
    rewrite He. reflexivity. }
  unfold Fallible.Simulate.try_block, SimulateRoute.try_block.
  destruct up as [| | body]; try apply Hthrown.
  destruct (Json.parse body) as [ai|]; [| apply Hthrown].
  destruct (SimulateRoute.message_content ai) as [c|]; [| apply Hthrown].
  destruct (if Js.truthy c then _ else _); try apply Hthrown.
  unfold Fallible.finalize, finalize, Fallible.save. rewrite Hr. reflexivity.
Qed.

Section RejectedWritesShape.
Import Fallible.

Lemma count_events p m chunks terminal :
  (forall e, is_chunk e = true -> p e = false) ->
  Forall (fun e => is_chunk e = true) chunks ->
  count p (EvUserMessage m :: chunks ++ terminal)
  = ((if p (EvUserMessage m) then 1 else 0) + count p terminal)%nat.
Proof.
  intros Hp Hc.
  change (EvUserMessage m :: chunks ++ terminal) with ([EvUserMessage m] ++ chunks ++ terminal).
  rewrite !count_app, (count_chunks_0 p chunks Hp Hc).
  unfold count at 1. cbn [List.filter]. destruct (p (EvUserMessage m)); reflexivity.
Qed.

Lemma chunk_not_userMessage e : is_chunk e = true -> is_userMessage e = false.
Proof. now destruct e. Qed.
Lemma chunk_not_complete e : is_chunk e = true -> is_complete e = false.
Proof. now destruct e. Qed.
Lemma chunk_not_error e : is_chunk e = true -> is_error e = false.
Proof. now destruct e. Qed.

(** The events of a valid exchange: their shape and their number. *)
Lemma outcome_shape w clk db req chat um fails r :
  outcome w clk db req chat um fails r ->
  exists events db',
    r = (EventStream events, db')
    /\ exchange_shaped events
    /\ count is_userMessage events = 1%nat
    /\ (count is_complete events + count is_error events)%nat
       = (if catch_reached w fails && negb (error_accepted w) then 0%nat else 1%nat)
    /\ count is_complete events
       = (if negb fails && reply_accepted w then 1%nat else 0%nat).
Proof.
  intros (chunks & Hc & [[-> ->] | (-> & reply & _ & ->)]);
    unfold after_provider_failure, after_reply, catch_reached; cbn [orb negb andb].
  - destruct (error_accepted w); do 2 eexists; (split; [reflexivity |]); cbn [negb].
    + split; [exists um, chunks, [EvError (errorMessage_of clk) ERROR_CLASS];
              repeat apply conj; [reflexivity | exact Hc | right; now eexists] |].
      rewrite !count_events by auto using chunk_not_userMessage, chunk_not_complete,
        chunk_not_error. repeat apply conj; reflexivity.
    + split; [exists um, chunks, []; rewrite app_nil_r;
              repeat apply conj; [reflexivity | exact Hc | now left] |].
      rewrite <- (app_nil_r chunks).
      rewrite !count_events by auto using chunk_not_userMessage, chunk_not_complete,
        chunk_not_error. repeat apply conj; reflexivity.
  - destruct (reply_accepted w); [| destruct (error_accepted w)];
      do 2 eexists; (split; [reflexivity |]); cbn [negb andb].
    + split; [eexists um, chunks, [_];
              repeat apply conj; [reflexivity | exact Hc | right; now eexists] |].
      rewrite !count_events by auto using chunk_not_userMessage, chunk_not_complete,
        chunk_not_error. destruct (error_accepted w); repeat apply conj; reflexivity.
    + split; [eexists um, chunks, [_];
              repeat apply conj; [reflexivity | exact Hc | right; now eexists] |].
      rewrite !count_events by auto using chunk_not_userMessage, chunk_not_complete,
        chunk_not_error. repeat apply conj; reflexivity.
    + split; [exists um, chunks, []; rewrite app_nil_r;
              repeat apply conj; [reflexivity | exact Hc | now left] |].
      rewrite <- (app_nil_r chunks).
      rewrite !count_events by auto using chunk_not_userMessage, chunk_not_complete,
        chunk_not_error. repeat apply conj; reflexivity.
Qed.

(** What a valid exchange writes. *)
Lemma outcome_stored w clk db req chat um fails r :
  db !! chatId req = Some chat ->
  outcome w clk db req chat um fails r ->
  exists c',
    snd r !! chatId req = Some c'
    /\ userId c' = userId chat
    /\ createdAt c' = createdAt chat
    /\ title c' = (if written w fails && negb fails
                   then title_after chat (default [] (message req)) else title chat)
    /\ exists reply apology,
         role reply = assistant /\ content reply <> []
         /\ role apology = assistant /\ content apology <> []
         /\ messages c'
            = messages chat
              ++ (if written w fails
                  then if fails || reply_accepted w
                       then [Mongo.cast um; reply]
                       else [Mongo.cast um; reply; apology]
                  else []).
Proof.
  intros Hl (chunks & _ & [[-> ->] | (-> & reply & Hr & ->)]);
    unfold after_provider_failure, after_reply, written; cbn [orb negb andb snd].
  - destruct (error_accepted w); cbn [snd].
    + rewrite lookup_insert_eq. eexists. split; [reflexivity |].
      cbn [userId createdAt title messages committed]. rewrite andb_false_r.
      repeat (split; [reflexivity |]).
      exists (errorMessage_of clk), (errorMessage_of clk).
      repeat (split; [first [reflexivity | discriminate] |]).
      now rewrite <- app_assoc.
    + exists chat. split; [exact Hl |]. repeat (split; [reflexivity |]).
      exists (errorMessage_of clk), (errorMessage_of clk).
      repeat (split; [first [reflexivity | discriminate] |]).
      now rewrite app_nil_r.
  - destruct (reply_accepted w); [| destruct (error_accepted w)]; cbn [snd orb andb].
    + rewrite lookup_insert_eq. eexists. split; [reflexivity |].
      cbn [userId createdAt title messages committed].
      repeat (split; [reflexivity |]).
      exists (assistantMessage_of clk reply), (errorMessage_of clk).
      repeat (split; [first [reflexivity | exact Hr | discriminate] |]).
      now rewrite <- app_assoc.
    + rewrite lookup_insert_eq. eexists. split; [reflexivity |].
      cbn [userId createdAt title messages recommitted].
      repeat (split; [reflexivity |]).
      exists (assistantMessage_of clk reply), (errorMessage w clk true).
      repeat (split; [first [reflexivity | exact Hr | discriminate] |]).
      now rewrite <- !app_assoc.
    + exists chat. split; [exact Hl |]. repeat (split; [reflexivity |]).
      exists (assistantMessage_of clk reply), (errorMessage_of clk).
      repeat (split; [first [reflexivity | exact Hr | discriminate] |]).
      now rewrite app_nil_r.
Qed.

(** A request to a relay, whatever the store answers, leaves the
    collection as it was or writes one conversation back. *)
Lemma run_exchange_outcome db x :
  run_exchange db x = db
  \/ exists clk req chat fs fails r,
       db !! chatId req = Some chat
       /\ message_missing (message req) = false
       /\ outcome (writes_of x) clk db req chat (userMessage_of clk req fs) fails r
       /\ run_exchange db x = snd r.
Proof.
  destruct x as [w clk up req | w clk up req]; cbn [run_exchange writes_of].
  - destruct (unauthenticated (auth_userId req)) eqn:Ha;
      [left; unfold Stream.POST; now rewrite Ha |].
    destruct (message_missing (message req)) eqn:Hm;
      [left; unfold Stream.POST; now rewrite Ha, Hm |].
    destruct (Mongo.findOne db (chatId req) (default [] (auth_userId req))) as [chat|] eqn:Hf;
      [| left; unfold Stream.POST; now rewrite Ha, Hm, Hf].
    right. exists clk, req, chat, None, (stream_fails up), (Stream.POST w clk up db req).
    split; [now apply findOne_Some in Hf |]. split; [exact Hm |].
    split; [| reflexivity]. now apply fallible_stream_outcome.
  - destruct (unauthenticated (auth_userId req)) eqn:Ha;
      [left; unfold Simulate.POST; now rewrite Ha |].
    destruct (message_missing (message req)) eqn:Hm;
      [left; unfold Simulate.POST; now rewrite Ha, Hm |].
    destruct (Mongo.findOne db (chatId req) (default [] (auth_userId req))) as [chat|] eqn:Hf;
      [| left; unfold Simulate.POST; now rewrite Ha, Hm, Hf].
    right. exists clk, req, chat, (req_files req), (simulate_fails up),
      (Simulate.POST w clk up db req).
    split; [now apply findOne_Some in Hf |]. split; [exact Hm |].
    split; [| reflexivity]. now apply fallible_simulate_outcome.
Qed.

(** No request to a relay changes the title of a conversation that already
    holds two messages, whatever the store answers. *)
Lemma fallible_exchange_keeps_title db cid c x :
  db !! cid = Some c -> (2 <= length (messages c))%nat ->
  exists c', run_exchange db x !! cid = Some c'
             /\ title c' = title c /\ (2 <= length (messages c'))%nat.
Proof.
  intros Hl Hlen.
  destruct (run_exchange_outcome db x)
    as [-> | (clk & req & chat & fs & fails & r & Hc & _ & Ho & ->)];
    [exists c; now auto |].
  destruct (decide (chatId req = cid)) as [<- | Hne].
  - assert (chat = c) as -> by congruence.
    destruct (outcome_stored _ clk db req c _ fails r Hc Ho)
      as (c' & Hl' & _ & _ & Ht & reply & apology & _ & _ & _ & _ & Hm).
    exists c'. split; [exact Hl' |]. split.
    + rewrite Ht. unfold title_after.
      destruct (messages c); [simpl in Hlen; lia |]. now destruct (_ && _).
    + rewrite Hm, length_app. lia.
  - destruct Ho as (chunks & _ & [[-> ->] | (-> & reply & _ & ->)]);
      unfold after_provider_failure, after_reply;
      repeat match goal with |- context [if ?b then _ else _] => destruct b end;
      cbn [snd]; rewrite ?lookup_insert_ne by exact Hne; exists c; auto.
Qed.

Lemma fallible_exchanges_keep_title xs : forall db cid c,
  db !! cid = Some c -> (2 <= length (messages c))%nat ->
  exists c', run_exchanges db xs !! cid = Some c'
             /\ title c' = title c /\ (2 <= length (messages c'))%nat.
Proof.
  induction xs as [|x xs IH]; intros db cid c Hl Hlen.
  - exists c. auto.
  - destruct (fallible_exchange_keeps_title db cid c x Hl Hlen) as (c1 & Hl1 & Ht1 & Hlen1).
    destruct (IH (run_exchange db x) cid c1 Hl1 Hlen1) as (c' & Hl' & Ht' & Hlen').
    exists c'. split; [exact Hl' |]. split; [congruence | exact Hlen'].
Qed.

End RejectedWritesShape.


Section RejectedWritesTitle.


End RejectedWritesTitle.
(** * The claims *)

(** C1, as stated, fails: when the provider call fails and the store
    rejects the save in the [catch] block, the relay closes the stream after
    the user message, without a terminal event. *)
Lemma C1_counterexample :
  valid_exchange Examples.db0 Examples.req0 Examples.new_chat
  /\ Fallible.Stream.POST FallibleExamples.down Examples.clk0 StreamRoute.FetchFails
       Examples.db0 Examples.req0
     = (EventStream [EvUserMessage (userMessage_of Examples.clk0 Examples.req0 None)],
        Examples.db0)
  /\ (count is_complete [EvUserMessage (userMessage_of Examples.clk0 Examples.req0 None)]
      + count is_error [EvUserMessage (userMessage_of Examples.clk0 Examples.req0 None)]
      = 0)%nat.
Proof.
  split; [repeat split; vm_compute; reflexivity |]. split; reflexivity.
Qed.

(** C1, amended. For every valid exchange, every behaviour of the provider
    and every answer of the store, each streaming relay answers with an
    event stream made of one [userMessage] event, then chunk events only,
    then at most one terminal event, [complete] or [error], never both.
    There is exactly one, unless the exchange reaches the [catch] block (the
    provider failed, or the store rejected the save of the reply) and the
    store rejects the save there: then there is none. *)
Theorem C1_one_userMessage_at_most_one_terminal (clk : Clock) (db : Store) (req : Request)
    (chat : Chat) :
  valid_exchange db req chat ->
  (forall w up, exists events db',
      Fallible.Stream.POST w clk up db req = (EventStream events, db')
      /\ Fallible.exchange_shaped events
      /\ count is_userMessage events = 1%nat
      /\ (count is_complete events + count is_error events)%nat
         = (if Fallible.catch_reached w (stream_fails up)
               && negb (Fallible.error_accepted w)
            then 0%nat else 1%nat))
  /\ (forall w up, exists events db',
      Fallible.Simulate.POST w clk up db req = (EventStream events, db')
      /\ Fallible.exchange_shaped events
      /\ count is_userMessage events = 1%nat
      /\ (count is_complete events + count is_error events)%nat
         = (if Fallible.catch_reached w (simulate_fails up)
               && negb (Fallible.error_accepted w)
            then 0%nat else 1%nat)).
Proof.
  intros Hv. split; intros w up.
  - destruct (outcome_shape _ _ _ _ _ _ _ _ (fallible_stream_outcome w clk up db req chat Hv))
      as (events & db' & E & Hs & Hu & Ht & _).
    exists events, db'. auto.
  - destruct (outcome_shape _ _ _ _ _ _ _ _ (fallible_simulate_outcome w clk up db req chat Hv))
      as (events & db' & E & Hs & Hu & Ht & _).
    exists events, db'. auto.
Qed.

Lemma C1_witness :
  (forall w up, exists events db',
      Fallible.Stream.POST w Examples.clk0 up Examples.db0 Examples.req0
      = (EventStream events, db')
      /\ Fallible.exchange_shaped events
      /\ count is_userMessage events = 1%nat
      /\ (count is_complete events + count is_error events)%nat
         = (if Fallible.catch_reached w (stream_fails up)
               && negb (Fallible.error_accepted w)
            then 0%nat else 1%nat))
  /\ (forall w up, exists events db',
      Fallible.Simulate.POST w Examples.clk0 up Examples.db0 Examples.req0
      = (EventStream events, db')
      /\ Fallible.exchange_shaped events
      /\ count is_userMessage events = 1%nat
      /\ (count is_complete events + count is_error events)%nat
         = (if Fallible.catch_reached w (simulate_fails up)
               && negb (Fallible.error_accepted w)
            then 0%nat else 1%nat)).
Proof.
  apply (C1_one_userMessage_at_most_one_terminal Examples.clk0 Examples.db0 Examples.req0
           Examples.new_chat).
  repeat split; vm_compute; reflexivity.
Defined.

(** C2, as stated, fails: read in one piece the stream yields the increment
    [Hi]; split byte by byte, the same bytes yield no increment, because no
    read holds a whole data line and a partial line is not kept for the next
    read. *)
Lemma C2_counterexample :
  concat (bytewise Examples.sse_hi_done) = Examples.sse_hi_done
  /\ StreamRoute.decode_increments [Examples.sse_hi_done] = [JStr (js "Hi")]
  /\ StreamRoute.decode_increments (bytewise Examples.sse_hi_done) = [].
Proof. repeat split; vm_compute; reflexivity. Qed.

(** C2, amended. Decoding the sentinel-terminated byte sequence yields
    exactly the increment sequence [Hi] for every partition of those bytes
    into reads whose first non-empty read holds the whole data line, its
    first 46 bytes: so for the single read and for every partition that cuts
    at line terminators only.  Every other partition yields no increment:
    each read is cut into lines on its own. *)
Theorem C2_decode_rechunked (reads : list (list N)) :
  concat reads = Examples.sse_hi_done ->
  StreamRoute.decode_increments reads
  = (if first_read_at_least (length Examples.data_hi) reads then [JStr (js "Hi")] else []).
Proof.
  intros Hc. change (length Examples.data_hi) with 46%nat.
  rewrite reads_steps_read_steps by (rewrite Hc; reflexivity).
  rewrite (steps_of_pieces Examples.sse_hi_done (js "Hi") 46) with (o := 0%nat).
  - cbn [Nat.eqb andb]. now destruct (first_read_at_least 46 reads).
  - vm_compute. reflexivity.
  - exact Hc.
  - lia.
Qed.

Lemma C2_witness :
  StreamRoute.decode_increments [Examples.frame_hi; []; Examples.frame_done]
  = (if first_read_at_least (length Examples.data_hi) [Examples.frame_hi; []; Examples.frame_done]
     then [JStr (js "Hi")] else []).
Proof.
  apply (C2_decode_rechunked [Examples.frame_hi; []; Examples.frame_done]).
  vm_compute; reflexivity.
Defined.

(** C3, as stated, fails: a request whose text is whitespace-only and which
    carries one attachment is not rejected by the rule of the specification,
    yet the relay answers 400 and leaves the collection untouched. *)
Lemma C3_counterexample :
  spec_rejects Examples.req_attachment_only = false
  /\ SimulateRoute.POST Examples.clk0 Examples.batch_ok Examples.db0
       Examples.req_attachment_only
     = (Plain 400 (js "Message is required"), Examples.db0).
Proof. split; vm_compute; reflexivity. Qed.

(** C3, amended. For an authenticated caller each relay answers 400 exactly
    when the text is missing, empty or whitespace-only, whether or not
    attachments are present; the rejection returns before the conversation is
    looked up: the collection is unchanged and no event is emitted. *)
Theorem C3_validation_ignores_attachments (clk : Clock) (db : Store) (req : Request) :
  unauthenticated (auth_userId req) = false ->
  (message_missing (message req) = true <->
     message req = None
     \/ exists text, message req = Some text /\ Forall (fun c => is_ws c = true) text)
  /\ (forall up,
        (status (fst (StreamRoute.POST clk up db req)) = 400
           <-> message_missing (message req) = true)
        /\ (message_missing (message req) = true ->
            StreamRoute.POST clk up db req = (Plain 400 (js "Message is required"), db)))
  /\ (forall up,
        (status (fst (SimulateRoute.POST clk up db req)) = 400
           <-> message_missing (message req) = true)
        /\ (message_missing (message req) = true ->
            SimulateRoute.POST clk up db req = (Plain 400 (js "Message is required"), db))).
Proof.
  intros Ha. split; [apply message_missing_iff |].
  split; intros up; [now apply stream_POST_400 | now apply simulate_POST_400].
Qed.

Lemma C3_witness :
  (message_missing (message Examples.req_attachment_only) = true <->
     message Examples.req_attachment_only = None
     \/ exists text, message Examples.req_attachment_only = Some text
                     /\ Forall (fun c => is_ws c = true) text)
  /\ (forall up,
        (status (fst (StreamRoute.POST Examples.clk0 up Examples.db0
                        Examples.req_attachment_only)) = 400
           <-> message_missing (message Examples.req_attachment_only) = true)
        /\ (message_missing (message Examples.req_attachment_only) = true ->
            StreamRoute.POST Examples.clk0 up Examples.db0 Examples.req_attachment_only
            = (Plain 400 (js "Message is required"), Examples.db0)))
  /\ (forall up,
        (status (fst (SimulateRoute.POST Examples.clk0 up Examples.db0
                        Examples.req_attachment_only)) = 400
           <-> message_missing (message Examples.req_attachment_only) = true)
        /\ (message_missing (message Examples.req_attachment_only) = true ->
            SimulateRoute.POST Examples.clk0 up Examples.db0 Examples.req_attachment_only
            = (Plain 400 (js "Message is required"), Examples.db0))).
Proof.
  apply (C3_validation_ignores_attachments Examples.clk0 Examples.db0
           Examples.req_attachment_only).
  reflexivity.
Defined.

(** C4. The code at the claim's example.  The conversation ends in the user
    message [2+2?] and the reply [4].  Regenerating through the hook
    ([isRegenerate] true) takes the old reply out of the working view and
    shows one new reply in its place; but the relay has no regenerate mode:
    whatever the provider answers, it appends the user message again and
    keeps the old reply, so the stored conversation holds four messages, the
    user message twice and two assistant messages.  The regenerate button of
    the page does not even reach regenerate mode: its view ends with the
    same four messages. *)
Theorem C4_regenerate_at_example :
  (let '(view, db) :=
     UseChat.sendMessage Examples.clk0 3000 Examples.batch_ok Examples.db_sum
       (Some Examples.alice) Examples.cid0 (js "2+2?") None true Examples.view_sum in
   Examples.turns (UseChat.begin (js "2+2?") true 3000 Examples.view_sum)
     = [(user, js "2+2?")]
   /\ Examples.turns view = [(user, js "2+2?"); (assistant, js "It is four.")]
   /\ Examples.stored_turns db
      = [(user, js "2+2?"); (assistant, js "4");
         (user, js "2+2?"); (assistant, js "It is four.")])
  /\ (forall clk now up, exists reply,
        Examples.stored_turns
          (snd (UseChat.sendMessage clk now up Examples.db_sum
                  (Some Examples.alice) Examples.cid0 (js "2+2?") None true Examples.view_sum))
        = [(user, js "2+2?"); (assistant, js "4"); (user, js "2+2?"); (assistant, reply)])
  /\ (let '(view, db) :=
        ChatPage.onRegenerateResponse Examples.clk0 3000 Examples.batch_ok Examples.db_sum
          (Some Examples.alice) Examples.cid0 Examples.view_sum in
      Examples.turns view
        = [(user, js "2+2?"); (assistant, js "4");
           (user, js "2+2?"); (assistant, js "It is four.")]
      /\ Examples.stored_turns db
         = [(user, js "2+2?"); (assistant, js "4");
            (user, js "2+2?"); (assistant, js "It is four.")]).
Proof.
  split; [vm_compute; repeat split; reflexivity |].
  split; [| vm_compute; split; reflexivity].
  intros clk now up.
  pose proof (simulate_POST_outcome clk up _ _ _ regenerate_request_valid) as Ho.
  pose proof (simulate_POST_shaped clk _ _ _ up regenerate_request_valid)
    as (events & db' & E & _).
  unfold UseChat.sendMessage.
  change (trim (js "2+2?")) with (js "2+2?") in *.
  cbn [js List.map list_ascii_of_string] in *.
  rewrite E in Ho |- *. cbn [snd].
  destruct (outcome_appends _ _ _ _ _ _ Ho) as (c' & reply & Hl & Hm & Hr).
  cbn [snd chatId] in Hl. exists (content reply).
  unfold Examples.stored_turns. rewrite Hl, Hm. cbn. now rewrite Hr.
Qed.







(** C7. When the upstream stream ends and the decode loop has yielded no
    increment, the streaming relay emits the fixed fallback notice as its
    only chunk event and commits an assistant message whose content is that
    notice; and whatever a stream carries, the content of the assistant
    message committed by a completed exchange is not the empty string. *)
Theorem C7_fallback_on_empty_stream (clk : Clock) (db : Store) (req : Request) (chat : Chat)
    (reads : list (list N)) :
  valid_exchange db req chat ->
  StreamRoute.decode_increments reads = [] ->
  StreamRoute.POST clk (StreamRoute.Body reads StreamRoute.EndOfStream) db req =
    (EventStream [EvUserMessage (userMessage_of clk req None);
                  EvChunk (JStr FALLBACK_TEXT);
                  EvComplete (assistantMessage_of clk FALLBACK_TEXT)
                    (title_after chat (default [] (message req)))],
     <[chatId req := committed clk chat (userMessage_of clk req None)
                       (assistantMessage_of clk FALLBACK_TEXT)
                       (title_after chat (default [] (message req)))]> db)
  /\ FALLBACK_TEXT <> []
  /\ (forall reads', exists chunks reply,
        StreamRoute.POST clk (StreamRoute.Body reads' StreamRoute.EndOfStream) db req =
          (EventStream (EvUserMessage (userMessage_of clk req None) :: chunks
                        ++ [EvComplete (assistantMessage_of clk reply)
                              (title_after chat (default [] (message req)))]),
           <[chatId req := committed clk chat (userMessage_of clk req None)
                             (assistantMessage_of clk reply)
                             (title_after chat (default [] (message req)))]> db)
        /\ reply <> []).
Proof.
  intros Hv E. split; [| split].
  - rewrite (stream_POST_valid clk _ db req chat Hv).
    destruct (stream_try_completed clk db (chatId req) chat (userMessage_of clk req None)
                (default [] (message req)) reads) as (chunks & reply & -> & Hc & Hr & Hz).
    destruct (Hz E) as [-> ->]. reflexivity.
  - apply FALLBACK_TEXT_nonempty.
  - intros reads'. rewrite (stream_POST_valid clk _ db req chat Hv).
    destruct (stream_try_completed clk db (chatId req) chat (userMessage_of clk req None)
                (default [] (message req)) reads') as (chunks & reply & -> & Hc & Hr & Hz).
    exists chunks, reply. auto.
Qed.

Lemma C7_witness :
  StreamRoute.POST Examples.clk0
    (StreamRoute.Body Examples.reads_no_increment StreamRoute.EndOfStream)
    Examples.db0 Examples.req0 =
    (EventStream [EvUserMessage (userMessage_of Examples.clk0 Examples.req0 None);
                  EvChunk (JStr FALLBACK_TEXT);
                  EvComplete (assistantMessage_of Examples.clk0 FALLBACK_TEXT)
                    (title_after Examples.new_chat (default [] (message Examples.req0)))],
     <[chatId Examples.req0 :=
         committed Examples.clk0 Examples.new_chat
           (userMessage_of Examples.clk0 Examples.req0 None)
           (assistantMessage_of Examples.clk0 FALLBACK_TEXT)
           (title_after Examples.new_chat (default [] (message Examples.req0)))]> Examples.db0)
  /\ FALLBACK_TEXT <> []
  /\ (forall reads', exists chunks reply,
        StreamRoute.POST Examples.clk0 (StreamRoute.Body reads' StreamRoute.EndOfStream)
          Examples.db0 Examples.req0 =
          (EventStream (EvUserMessage (userMessage_of Examples.clk0 Examples.req0 None) :: chunks
                        ++ [EvComplete (assistantMessage_of Examples.clk0 reply)
                              (title_after Examples.new_chat (default [] (message Examples.req0)))]),
           <[chatId Examples.req0 :=
               committed Examples.clk0 Examples.new_chat
                 (userMessage_of Examples.clk0 Examples.req0 None)
                 (assistantMessage_of Examples.clk0 reply)
                 (title_after Examples.new_chat (default [] (message Examples.req0)))]> Examples.db0)
        /\ reply <> []).
Proof.
  apply (C7_fallback_on_empty_stream Examples.clk0 Examples.db0 Examples.req0
           Examples.new_chat Examples.reads_no_increment).
  - repeat split; vm_compute; reflexivity.
  - vm_compute; reflexivity.
Defined.

(** C8, as stated, fails: a data frame that follows the sentinel in the
    byte stream still contributes its increment. *)
Lemma C8_counterexample :
  StreamRoute.decode_increments [Examples.sse_done_hi] = [JStr (js "Hi")]
  /\ StreamRoute.decode_increments [Examples.frame_done; Examples.frame_hi] = [JStr (js "Hi")].
Proof. split; vm_compute; reflexivity. Qed.

(** C8, amended. A data line whose payload is the sentinel yields no
    increment and changes nothing in the decode loop, which goes on with the
    lines that follow: the loop over a run of lines ends where it would end
    with the sentinel line taken out. *)
Theorem C8_sentinel_is_skipped (line : jsstr) :
  startsWith StreamRoute.DATA_PREFIX line = true ->
  trim (slice_from 6 line) = StreamRoute.DONE ->
  (forall st, StreamRoute.process_line st line = st)
  /\ (forall st before after,
        fold_left StreamRoute.process_line (before ++ line :: after) st
        = fold_left StreamRoute.process_line (before ++ after) st).
Proof.
  intros Hp Hd.
  assert (Hskip : forall st, StreamRoute.process_line st line = st).
  { intros st. rewrite process_line_step. now rewrite (sentinel_line_step line Hp Hd). }
  split; [exact Hskip |].
  intros st before after. rewrite !fold_left_app. cbn [fold_left]. now rewrite Hskip.
Qed.

Lemma C8_witness :
  (forall st, StreamRoute.process_line st (js "data: [DONE]") = st)
  /\ (forall st before after,
        fold_left StreamRoute.process_line (before ++ js "data: [DONE]" :: after) st
        = fold_left StreamRoute.process_line (before ++ after) st).
Proof.
  apply (C8_sentinel_is_skipped (js "data: [DONE]")).
  - vm_compute; reflexivity.
  - vm_compute; reflexivity.
Defined.

(** C9. A conversation stored under another owner is not found: the owned
    lookup returns nothing, [GET] and [DELETE] answer 404 for every
    authenticated caller who is not the owner, and the collection is left as
    it was; conversely a conversation is returned, or deleted, only when the
    id and the owner both match. *)
Theorem C9_ownership_isolation (db : Store) (cid uid : jsstr) (chat : Chat) :
  db !! cid = Some chat ->
  userId chat <> uid ->
  uid <> [] ->
  Mongo.findOne db cid uid = None
  /\ Mongo.findOneAndDelete db cid uid = (None, db)
  /\ ChatRoute.GET db (Some uid) cid = ChatRoute.Error 404 (js "Chat not found")
  /\ ChatRoute.DELETE db (Some uid) cid = (ChatRoute.Error 404 (js "Chat not found"), db)
  /\ (forall who c, ChatRoute.GET db who cid = ChatRoute.Found c ->
        who = Some (userId chat) /\ c = chat)
  /\ (forall who db', ChatRoute.DELETE db who cid = (ChatRoute.Deleted, db') ->
        who = Some (userId chat) /\ db' = delete cid db).
Proof.
  intros Hl Hne Hauth.
  pose proof (findOne_other_owner db cid uid chat Hl Hne) as Hnone.
  assert (Hun : unauthenticated (Some uid) = false)
    by (destruct uid; [contradiction | reflexivity]).
  split; [exact Hnone |].
  split; [unfold Mongo.findOneAndDelete; now rewrite Hnone |].
  split; [unfold ChatRoute.GET; rewrite Hun; cbn [default from_option id]; now rewrite Hnone |].
  split; [unfold ChatRoute.DELETE, Mongo.findOneAndDelete; rewrite Hun;
          cbn [default from_option id]; now rewrite Hnone |].
  split.
  - intros who c H. apply GET_Found in H as (w & -> & E & <-).
    assert (c = chat) as -> by congruence. auto.
  - intros who db' H. apply DELETE_Deleted in H as (w & c & -> & E & <- & ->).
    assert (c = chat) as -> by congruence. auto.
Qed.

Lemma C9_witness :
  Mongo.findOne Examples.db0 Examples.cid0 Examples.bob = None
  /\ Mongo.findOneAndDelete Examples.db0 Examples.cid0 Examples.bob = (None, Examples.db0)
  /\ ChatRoute.GET Examples.db0 (Some Examples.bob) Examples.cid0
     = ChatRoute.Error 404 (js "Chat not found")
  /\ ChatRoute.DELETE Examples.db0 (Some Examples.bob) Examples.cid0
     = (ChatRoute.Error 404 (js "Chat not found"), Examples.db0)
  /\ (forall who c, ChatRoute.GET Examples.db0 who Examples.cid0 = ChatRoute.Found c ->
        who = Some (userId Examples.new_chat) /\ c = Examples.new_chat)
  /\ (forall who db', ChatRoute.DELETE Examples.db0 who Examples.cid0 = (ChatRoute.Deleted, db') ->
        who = Some (userId Examples.new_chat) /\ db' = delete Examples.cid0 Examples.db0).
Proof.
  apply (C9_ownership_isolation Examples.db0 Examples.cid0 Examples.bob Examples.new_chat).
  - vm_compute; reflexivity.
  - vm_compute; discriminate.
  - vm_compute; discriminate.
Defined.

(** C10, as stated, fails: the title is assigned before the save of the
    reply, inside the [try] block.  When the store rejects that save and
    accepts the one of the [catch] block, a first exchange ends with the
    [error] event and is stored under the derived title, with three
    messages. *)
Lemma C10_counterexample :
  exists events db' c m e,
    Fallible.Simulate.POST FallibleExamples.hiccup Examples.clk0 Examples.batch_ok
      Examples.db0 Examples.req0 = (EventStream events, db')
    /\ last events = Some (EvError m e)
    /\ db' !! Examples.cid0 = Some c
    /\ length (messages c) = 3%nat
    /\ title c = js "Can you help me understand recursion"
    /\ title Examples.new_chat = js "New Chat".
Proof.
  do 5 eexists. split; [vm_compute; reflexivity |].
  split; [vm_compute; reflexivity |]. split; [vm_compute; reflexivity |].
  split; [vm_compute; reflexivity |]. split; vm_compute; reflexivity.
Qed.

(** C10, amended. The [catch] block assigns no title.  An exchange for
    which the provider fails, when the store accepts the save of the
    [catch] block, ends with the [error] event and is written back under the
    title it had, with the user message and the error message appended; when
    the store rejects that save, nothing is written.  So a conversation
    whose first exchange ends in error for a provider failure is stored with
    two messages and its creation-time title, and since the derivation asks
    for exactly two messages, no later request to a relay changes that
    title, whatever the store answers.  An exchange whose reply the store
    refused to save, and whose save in the [catch] block it accepted, ends
    with the [error] event too, but is written back as the [try] block left
    the document: with the reply and the error message appended and, for a
    first exchange, under the derived title. *)
Theorem C10_error_path_and_title (clk : Clock) (db : Store) (req : Request) (chat : Chat) :
  valid_exchange db req chat ->
  (forall w up,
      stream_fails up = true ->
      exists chunks,
        Forall (fun e => is_chunk e = true) chunks
        /\ Fallible.Stream.POST w clk up db req
           = if Fallible.error_accepted w
             then (EventStream (EvUserMessage (userMessage_of clk req None) :: chunks
                                ++ [EvError (errorMessage_of clk) ERROR_CLASS]),
                   <[chatId req := committed clk chat (userMessage_of clk req None)
                                     (errorMessage_of clk) (title chat)]> db)
             else (EventStream (EvUserMessage (userMessage_of clk req None) :: chunks), db))
  /\ (forall w up,
      simulate_fails up = true ->
      Fallible.Simulate.POST w clk up db req
      = if Fallible.error_accepted w
        then (EventStream [EvUserMessage (userMessage_of clk req (req_files req));
                           EvError (errorMessage_of clk) ERROR_CLASS],
              <[chatId req := committed clk chat (userMessage_of clk req (req_files req))
                                (errorMessage_of clk) (title chat)]> db)
        else (EventStream [EvUserMessage (userMessage_of clk req (req_files req))], db))
  /\ (forall um,
      messages chat = [] ->
      let stored := committed clk chat um (errorMessage_of clk) (title chat) in
      length (messages stored) = 2%nat
      /\ title stored = title chat
      /\ forall later : list Fallible.Exchange,
           exists c', Fallible.run_exchanges (<[chatId req := stored]> db) later
                        !! chatId req = Some c'
                      /\ title c' = title chat)
  /\ (forall w up,
      stream_fails up = false ->
      Fallible.reply_accepted w = false -> Fallible.error_accepted w = true ->
      exists chunks reply,
        Forall (fun e => is_chunk e = true) chunks /\ reply <> []
        /\ Fallible.Stream.POST w clk up db req
           = (EventStream (EvUserMessage (userMessage_of clk req None) :: chunks
                           ++ [EvError (Fallible.errorMessage w clk true) ERROR_CLASS]),
              <[chatId req :=
                  {| userId := userId chat;
                     title := match messages chat with
                              | [] => derive_title (default [] (message req))
                              | _ :: _ => title chat
                              end;
                     messages := ((messages chat
                                   ++ [Mongo.cast (userMessage_of clk req None)])
                                  ++ [Mongo.cast (assistantMessage_of clk reply)])
                                 ++ [Mongo.cast (Fallible.errorMessage w clk true)];
                     createdAt := createdAt chat;
                     updatedAt := Fallible.now_resave w |}]> db))
  /\ (forall w up,
      simulate_fails up = false ->
      Fallible.reply_accepted w = false -> Fallible.error_accepted w = true ->
      exists reply,
        reply <> []
        /\ Fallible.Simulate.POST w clk up db req
           = (EventStream (EvUserMessage (userMessage_of clk req (req_files req))
                           :: SimulateRoute.word_chunks (split SPACE reply)
                           ++ [EvError (Fallible.errorMessage w clk true) ERROR_CLASS]),
              <[chatId req :=
                  {| userId := userId chat;
                     title := match messages chat with
                              | [] => derive_title (default [] (message req))
                              | _ :: _ => title chat
                              end;
                     messages := ((messages chat
                                   ++ [Mongo.cast (userMessage_of clk req (req_files req))])
                                  ++ [Mongo.cast (assistantMessage_of clk reply)])
                                 ++ [Mongo.cast (Fallible.errorMessage w clk true)];
                     createdAt := createdAt chat;
                     updatedAt := Fallible.now_resave w |}]> db)).
Proof.
  intros Hv. repeat apply conj.
  - intros w up Hf.
    destruct (fallible_stream_outcome w clk up db req chat Hv)
      as (chunks & Hc & [[_ Hr] | (Hf' & _)]); [| congruence].
    exists chunks. split; [exact Hc |]. rewrite Hr. reflexivity.
  - intros w up Hf.
    rewrite (fallible_simulate_POST_valid w clk up db req chat Hv).
    destruct (fallible_simulate_try clk w db (chatId req) chat
                (userMessage_of clk req (req_files req)) (default [] (message req)) up)
      as [[_ ->] | (Hf' & _)]; [| congruence].
    rewrite run_thrown_early. reflexivity.
  - intros um Hm stored.
    assert (Hlen : length (messages stored) = 2%nat) by (cbn; now rewrite Hm).
    split; [exact Hlen |]. split; [reflexivity |]. intros later.
    destruct (fallible_exchanges_keep_title later (<[chatId req := stored]> db)
                (chatId req) stored) as (c' & Hl & Ht & _).
    + apply lookup_insert_eq.
    + lia.
    + exists c'. auto.
  - intros w up Hf Hr He.
    destruct (fallible_stream_outcome w clk up db req chat Hv)
      as (chunks & Hc & [[Hf' _] | (_ & reply & Hne & E)]); [congruence |].
    exists chunks, reply. split; [exact Hc |]. split; [exact Hne |].
    rewrite E. unfold Fallible.after_reply. rewrite Hr, He. reflexivity.
  - intros w up Hf Hr He.
    rewrite (fallible_simulate_POST_valid w clk up db req chat Hv).
    destruct (fallible_simulate_try clk w db (chatId req) chat
                (userMessage_of clk req (req_files req)) (default [] (message req)) up)
      as [[Hf' _] | (_ & reply & Hne & ->)]; [congruence |].
    exists reply. split; [exact Hne |].
    rewrite run_finalize. unfold Fallible.after_reply. rewrite Hr, He. reflexivity.
Qed.

Lemma C10_witness :
  (forall w up,
      stream_fails up = true ->
      exists chunks,
        Forall (fun e => is_chunk e = true) chunks
        /\ Fallible.Stream.POST w Examples.clk0 up Examples.db0 Examples.req0
           = if Fallible.error_accepted w
             then (EventStream (EvUserMessage (userMessage_of Examples.clk0 Examples.req0 None) :: chunks
                                ++ [EvError (errorMessage_of Examples.clk0) ERROR_CLASS]),
                   <[chatId Examples.req0 := committed Examples.clk0 Examples.new_chat (userMessage_of Examples.clk0 Examples.req0 None)
                                     (errorMessage_of Examples.clk0) (title Examples.new_chat)]> Examples.db0)
             else (EventStream (EvUserMessage (userMessage_of Examples.clk0 Examples.req0 None) :: chunks), Examples.db0))
  /\ (forall w up,
      simulate_fails up = true ->
      Fallible.Simulate.POST w Examples.clk0 up Examples.db0 Examples.req0
      = if Fallible.error_accepted w
        then (EventStream [EvUserMessage (userMessage_of Examples.clk0 Examples.req0 (req_files Examples.req0));
                           EvError (errorMessage_of Examples.clk0) ERROR_CLASS],
              <[chatId Examples.req0 := committed Examples.clk0 Examples.new_chat (userMessage_of Examples.clk0 Examples.req0 (req_files Examples.req0))
                                (errorMessage_of Examples.clk0) (title Examples.new_chat)]> Examples.db0)
        else (EventStream [EvUserMessage (userMessage_of Examples.clk0 Examples.req0 (req_files Examples.req0))], Examples.db0))
  /\ (forall um,
      messages Examples.new_chat = [] ->
      let stored := committed Examples.clk0 Examples.new_chat um (errorMessage_of Examples.clk0) (title Examples.new_chat) in
      length (messages stored) = 2%nat
      /\ title stored = title Examples.new_chat
      /\ forall later : list Fallible.Exchange,
           exists c', Fallible.run_exchanges (<[chatId Examples.req0 := stored]> Examples.db0) later
                        !! chatId Examples.req0 = Some c'
                      /\ title c' = title Examples.new_chat)
  /\ (forall w up,
      stream_fails up = false ->
      Fallible.reply_accepted w = false -> Fallible.error_accepted w = true ->
      exists chunks reply,
        Forall (fun e => is_chunk e = true) chunks /\ reply <> []
        /\ Fallible.Stream.POST w Examples.clk0 up Examples.db0 Examples.req0
           = (EventStream (EvUserMessage (userMessage_of Examples.clk0 Examples.req0 None) :: chunks
                           ++ [EvError (Fallible.errorMessage w Examples.clk0 true) ERROR_CLASS]),
              <[chatId Examples.req0 :=
                  {| userId := userId Examples.new_chat;
                     title := match messages Examples.new_chat with
                              | [] => derive_title (default [] (message Examples.req0))
                              | _ :: _ => title Examples.new_chat
                              end;
                     messages := ((messages Examples.new_chat
                                   ++ [Mongo.cast (userMessage_of Examples.clk0 Examples.req0 None)])
                                  ++ [Mongo.cast (assistantMessage_of Examples.clk0 reply)])
                                 ++ [Mongo.cast (Fallible.errorMessage w Examples.clk0 true)];
                     createdAt := createdAt Examples.new_chat;
                     updatedAt := Fallible.now_resave w |}]> Examples.db0))
  /\ (forall w up,
      simulate_fails up = false ->
      Fallible.reply_accepted w = false -> Fallible.error_accepted w = true ->
      exists reply,
        reply <> []
        /\ Fallible.Simulate.POST w Examples.clk0 up Examples.db0 Examples.req0
           = (EventStream (EvUserMessage (userMessage_of Examples.clk0 Examples.req0 (req_files Examples.req0))
                           :: SimulateRoute.word_chunks (split SPACE reply)
                           ++ [EvError (Fallible.errorMessage w Examples.clk0 true) ERROR_CLASS]),
              <[chatId Examples.req0 :=
                  {| userId := userId Examples.new_chat;
                     title := match messages Examples.new_chat with
                              | [] => derive_title (default [] (message Examples.req0))
                              | _ :: _ => title Examples.new_chat
                              end;
                     messages := ((messages Examples.new_chat
                                   ++ [Mongo.cast (userMessage_of Examples.clk0 Examples.req0 (req_files Examples.req0))])
                                  ++ [Mongo.cast (assistantMessage_of Examples.clk0 reply)])
                                 ++ [Mongo.cast (Fallible.errorMessage w Examples.clk0 true)];
                     createdAt := createdAt Examples.new_chat;
                     updatedAt := Fallible.now_resave w |}]> Examples.db0)).
Proof.
  apply (C10_error_path_and_title Examples.clk0 Examples.db0 Examples.req0 Examples.new_chat).
  repeat split; vm_compute; reflexivity.
Defined.


(** * Further properties *)

(** ** Strings *)

Section StringFacts.

Lemma trimStart_idem s : trimStart (trimStart s) = trimStart s.
Proof.
  induction s as [|c s IH]; [reflexivity |]. cbn [trimStart].
  destruct (is_ws c) eqn:E; [exact IH |]. cbn [trimStart]. now rewrite E.
Qed.

Lemma trimStart_snoc x c : is_ws c = false -> trimStart (x ++ [c]) = trimStart x ++ [c].
Proof.
  intros Hc. induction x as [|a x IH]; cbn [app trimStart].
  - now rewrite Hc.
  - destruct (is_ws a); [exact IH | reflexivity].
Qed.

(** A trimmed text that is not empty starts with what [trimStart] left. *)
Lemma trim_cons s c r :
  trimStart s = c :: r -> trim s = c :: rev (trimStart (rev r)) /\ is_ws c = false.
Proof.
  intros E. pose proof (trimStart_head s c r E) as Hc. split; [| exact Hc].
  unfold trim, trimEnd. rewrite E. cbn [rev].
  rewrite (trimStart_snoc _ c Hc), rev_app_distr. reflexivity.
Qed.

Lemma trim_idem s : trim (trim s) = trim s.
Proof.
  destruct (trimStart s) as [|c r] eqn:E.
  - assert (H : trim s = []) by (unfold trim; now rewrite E).
    rewrite H. reflexivity.
  - destruct (trim_cons s c r E) as [-> Hc].
    unfold trim, trimEnd. cbn [trimStart]. rewrite Hc. cbn [rev].
    rewrite rev_involutive, (trimStart_snoc _ c Hc), trimStart_idem, rev_app_distr.
    reflexivity.
Qed.

Lemma trim_head s c r : trim s = c :: r -> is_ws c = false.
Proof.
  destruct (trimStart s) as [|c' r'] eqn:E.
  - unfold trim. rewrite E. discriminate.
  - destruct (trim_cons s c' r' E) as [-> Hc]. now intros [= <- _].
Qed.

Lemma message_missing_trim text : trim text <> [] -> message_missing (Some (trim text)) = false.
Proof.
  intros H. cbn [message_missing]. rewrite trim_idem. now destruct (trim text).
Qed.

Lemma join_split s : join [SPACE] (split SPACE s) = s.
Proof.
  induction s as [|c s IH]; [reflexivity |]. cbn [split].
  pose proof (split_not_nil SPACE s) as Hne.
  destruct (c =? SPACE) eqn:E.
  - apply N.eqb_eq in E as ->. destruct (split SPACE s) as [|w ws]; [contradiction |].
    rewrite <- IH. reflexivity.
  - destruct (split SPACE s) as [|w ws]; [contradiction |].
    rewrite <- IH. destruct ws; reflexivity.
Qed.

(** The first piece of a text that starts with a unit other than the
    separator is not empty. *)
Lemma firstWords_head m c r : trim m = c :: r -> exists w, firstWords m = c :: w.
Proof.
  intros E. pose proof (trim_head m c r E) as Hc. unfold firstWords. rewrite E.
  cbn [split]. assert (Hs : (c =? SPACE) = false).
  { destruct (c =? SPACE) eqn:Ec; [| reflexivity].
    apply N.eqb_eq in Ec as ->. discriminate Hc. }
  rewrite Hs.
  destruct (split SPACE r) as [|w ws]; cbn [take join]; [now eexists |].
  destruct (take 5 ws); cbn [app]; now eexists.
Qed.

Lemma derive_title_bounds m c r :
  trim m = c :: r ->
  (exists t, derive_title m = c :: t) /\ (length (derive_title m) <= 50)%nat.
Proof.
  intros E. destruct (firstWords_head m c r E) as (w & Hw).
  destruct (Nat.le_gt_cases (length (firstWords m)) 50) as [Hle | Hgt].
  - rewrite (derive_title_short m Hle). split; [now exists w | exact Hle].
  - destruct (derive_title_long m Hgt) as [Ht Hlen]. split; [| lia].
    rewrite Ht, Hw. cbn [take app]. now eexists.
Qed.

End StringFacts.

(** X1. The title derived from a message that a relay accepts starts with
    the first code unit of the trimmed message, so it is not empty, and
    holds at most 50 code units: it passes the schema's [required] and
    [maxlength: 100]. *)
Theorem X1_derived_title_within_schema (m : option jsstr) :
  message_missing m = false ->
  let t := derive_title (default [] m) in
  t <> []
  /\ (length t <= 50)%nat
  /\ head t = head (trim (default [] m)).
Proof.
  intros Hm t. destruct m as [text|]; [| discriminate]. cbn [message_missing] in Hm.
  cbn [default from_option id] in *. subst t.
  destruct (trim text) as [|c r] eqn:E; [discriminate |].
  destruct (derive_title_bounds text c r E) as ((w & Hw) & Hlen).
  rewrite Hw in *. split; [discriminate |]. split; [exact Hlen | reflexivity].
Qed.

Lemma X1_witness :
  let t := derive_title (default [] (Some (js "  Can you help me understand recursion please"))) in
  t <> []
  /\ (length t <= 50)%nat
  /\ head t = head (trim (default [] (Some (js "  Can you help me understand recursion please")))).
Proof.
  apply (X1_derived_title_within_schema
           (Some (js "  Can you help me understand recursion please"))).
  vm_compute; reflexivity.
Defined.

(** ** What the chunks spell *)

Section ChunkText.
Import StreamRoute Decoder.

Lemma chunk_text_JStr s : chunk_text (EvChunk (JStr s)) = s.
Proof. reflexivity. Qed.

Lemma streamed_text_app a b : streamed_text (a ++ b) = streamed_text a ++ streamed_text b.
Proof. unfold streamed_text. now rewrite map_app, concat_app. Qed.

Lemma increment_toString data c str :
  increment data = Some (c, str) -> Js.toString c = Some str.
Proof.
  unfold increment. destruct (Json.parse data) as [parsed|]; [| discriminate].
  destruct (delta_content parsed) as [[c'|]|]; try discriminate.
  destruct (Js.truthy (Some c')); [| discriminate].
  destruct (Js.toString c') as [str'|] eqn:E; [| discriminate].
  now intros [= <- <-].
Qed.

Lemma line_step_toString line c str :
  line_step line = Some (c, str) -> Js.toString c = Some str.
Proof.
  unfold line_step. destruct (startsWith DATA_PREFIX line); [| discriminate].
  destruct (JsString.eqb _ DONE); [discriminate |].
  destruct (trim (slice_from 6 line)); [discriminate |]. apply increment_toString.
Qed.

Lemma reads_steps_toString reads : forall d,
  Forall (fun p => Js.toString (fst p) = Some (snd p)) (reads_steps d reads).
Proof.
  induction reads as [|value rest IH]; intros d; cbn [reads_steps]; [constructor |].
  destruct (TextDecoder.decode d value) as [d' chunk]. apply Forall_app. split; [| apply IH].
  generalize (split LF chunk) as lines. intros lines.
  induction lines as [|l lines IHl]; cbn [omap list_omap]; [constructor |].
  destruct (line_step l) as [[c str]|] eqn:E; [| exact IHl].
  constructor; [| exact IHl]. cbn [fst snd]. now apply line_step_toString in E.
Qed.

Lemma forallb_all {A} (f : A -> bool) (l : list A) :
  forallb f l = true -> Forall (fun x => f x = true) l.
Proof.
  induction l as [|x l IH]; cbn [forallb]; [constructor |].
  intros H. apply andb_true_iff in H as [Hx Hl]. constructor; auto.
Qed.

Lemma has_key_wire key (kvs : list (jsstr * JSValue)) :
  Js.has_key key (List.map (fun kv => (fst kv, wire (snd kv))) kvs) = Js.has_key key kvs.
Proof.
  unfold Js.has_key. induction kvs as [|kv kvs IH]; [reflexivity |].
  cbn [List.map existsb fst]. now rewrite IH.
Qed.

(** The wire changes the string a value converts to only through an
    infinity. *)
Lemma toString_wire v : finite v = true -> Js.toString (wire v) = Js.toString v.
Proof.
  induction v as [| b | x | s | xs IH | kvs] using JSValue_elements_ind; intros Hf.
  - reflexivity.
  - reflexivity.
  - destruct x; [reflexivity | reflexivity | discriminate].
  - reflexivity.
  - cbn [finite] in Hf. cbn [wire Js.toString].
    induction xs as [|x rest IHr]; [reflexivity |].
    apply Forall_cons in IH as [Hx Hrest].
    cbn [forallb] in Hf. apply andb_true_iff in Hf as [Hfx Hfr].
    specialize (IHr Hrest Hfr). specialize (Hx Hfx).
    cbn [List.map].
    assert (Hhead : match wire x with JNull => Some [] | _ => Js.toString (wire x) end
                    = match x with JNull => Some [] | _ => Js.toString x end).
    { destruct x as [| b | [neg | neg m q | neg] | s | ys | kvs];
        first [reflexivity | discriminate | exact Hx]. }
    rewrite Hhead.
    destruct (match x with JNull => Some [] | _ => Js.toString x end) as [a|];
      [| reflexivity].
    destruct rest as [|y rest']; [reflexivity |].
    cbn [List.map] in IHr |- *. rewrite IHr. reflexivity.
  - cbn [wire Js.toString]. now rewrite has_key_wire.
Qed.

Lemma streamed_text_steps (steps : list (JSValue * jsstr)) :
  Forall (fun p => Js.toString (fst p) = Some (snd p)) steps ->
  Forall (fun c => finite c = true) (List.map fst steps) ->
  streamed_text (List.map (fun p => EvChunk (fst p)) steps) = concat (List.map snd steps).
Proof.
  induction 1 as [|[c str] steps H _ IH]; [reflexivity |].
  cbn [List.map fst]. intros Hfin. apply Forall_cons in Hfin as [Hc Hfin].
  cbn [fst snd] in H, Hc. unfold streamed_text in *.
  cbn [List.map concat chunk_text fst snd].
  rewrite (toString_wire c Hc), H, (IH Hfin). reflexivity.
Qed.

(** The streaming relay's [try] block, run to its end: the chunk records it
    sent spell the reply it stores. *)
Lemma stream_try_completed_text clk db cid chat um text reads :
  forallb finite (StreamRoute.decode_increments reads) = true ->
  exists chunks reply,
    StreamRoute.try_block clk db cid (Mongo.push chat um) um text
      (StreamRoute.Body reads StreamRoute.EndOfStream) =
    Completed
      (EvUserMessage um :: chunks
         ++ [EvComplete (assistantMessage_of clk reply) (title_after chat text)])
      (<[cid := committed clk chat um (assistantMessage_of clk reply)
                  (title_after chat text)]> db)
    /\ Forall (fun e => is_chunk e = true) chunks
    /\ streamed_text chunks = reply.
Proof.
  intros Hfin. apply forallb_all in Hfin. rewrite decode_increments_steps in Hfin.
  unfold StreamRoute.try_block.
  match goal with |- context [fold_left StreamRoute.process_read reads ?s] =>
    destruct (fold_process_read reads s) as [Hf Hs];
    set (st := fold_left _ reads s) in * end.
  cbn [StreamRoute.sent StreamRoute.decoder StreamRoute.fullResponse app] in Hf, Hs.
  pose proof (chunks_are_chunks (reads_steps TextDecoder.init reads)) as Hc.
  pose proof (streamed_text_steps _ (reads_steps_toString reads TextDecoder.init) Hfin) as Ht.
  rewrite <- Hf in Ht.
  destruct (StreamRoute.fullResponse st) as [|c full] eqn:Efull.
  - exists (List.map (fun p => EvChunk (fst p)) (reads_steps TextDecoder.init reads)
            ++ [EvChunk (JStr FALLBACK_TEXT)]), FALLBACK_TEXT.
    rewrite Hs, finalize_eq. cbn [app].
    split; [reflexivity |]. split.
    + apply Forall_app. split; [exact Hc | now constructor].
    + rewrite streamed_text_app, Ht. generalize FALLBACK_TEXT as t. intros t.
      unfold streamed_text. cbn [List.map concat]. rewrite chunk_text_JStr.
      now rewrite app_nil_r.
  - exists (List.map (fun p => EvChunk (fst p)) (reads_steps TextDecoder.init reads)),
      (c :: full).
    rewrite Hs, finalize_eq. cbn [app].
    split; [reflexivity |]. split; [exact Hc | exact Ht].
Qed.

Lemma streamed_text_words ws :
  streamed_text (SimulateRoute.word_chunks ws) = join [SPACE] ws.
Proof.
  unfold streamed_text. induction ws as [|w ws IH]; [reflexivity |].
  destruct ws as [|w' ws].
  - cbn [SimulateRoute.word_chunks List.map concat join]. rewrite chunk_text_JStr.
    apply app_nil_r.
  - change (SimulateRoute.word_chunks (w :: w' :: ws))
      with (EvChunk (JStr (w ++ js " ")) :: SimulateRoute.word_chunks (w' :: ws)).
    change (join [SPACE] (w :: w' :: ws)) with (w ++ [SPACE] ++ join [SPACE] (w' :: ws)).
    cbn [List.map concat]. rewrite chunk_text_JStr, IH, <- app_assoc. reflexivity.
Qed.

(** The simulated relay's [try] block, run to its end: the chunks are the
    words of the reply it stores. *)
Lemma simulate_try_completed_words clk db cid chat um text up :
  simulate_fails up = false ->
  exists reply,
    SimulateRoute.try_block clk db cid (Mongo.push chat um) um text up =
    Completed
      (EvUserMessage um :: SimulateRoute.word_chunks (split SPACE reply)
         ++ [EvComplete (assistantMessage_of clk reply) (title_after chat text)])
      (<[cid := committed clk chat um (assistantMessage_of clk reply)
                  (title_after chat text)]> db)
    /\ reply <> [].
Proof.
  unfold simulate_fails, SimulateRoute.try_block.
  destruct up as [| | body]; try discriminate.
  destruct (Json.parse body) as [ai|]; [| discriminate].
  destruct (SimulateRoute.message_content ai) as [c|]; [| discriminate].
  destruct (Js.truthy c) eqn:T.
  - destruct c as [[| | | s | |]|]; try discriminate. intros _. cbn [from_option id].
    exists s. rewrite finalize_eq. split; [reflexivity |].
    destruct s; [discriminate T | discriminate].
  - intros _. pose proof NO_RESPONSE_TEXT_nonempty as Hne. revert Hne.
    generalize NO_RESPONSE_TEXT as t. intros t Hne.
    exists t. rewrite finalize_eq. split; [reflexivity | exact Hne].
Qed.

(** The two ways a valid exchange with the simulated relay ends. *)
Lemma simulate_POST_cases clk up db req chat :
  valid_exchange db req chat ->
  let um := userMessage_of clk req (req_files req) in
  (simulate_fails up = true
   /\ SimulateRoute.POST clk up db req =
      (EventStream [EvUserMessage um; EvError (errorMessage_of clk) ERROR_CLASS],
       <[chatId req := committed clk chat um (errorMessage_of clk) (title chat)]> db))
  \/ (simulate_fails up = false
      /\ exists reply,
           reply <> []
           /\ SimulateRoute.POST clk up db req =
              (EventStream
                 (EvUserMessage um :: SimulateRoute.word_chunks (split SPACE reply)
                  ++ [EvComplete (assistantMessage_of clk reply)
                        (title_after chat (default [] (message req)))]),
               <[chatId req := committed clk chat um (assistantMessage_of clk reply)
                                 (title_after chat (default [] (message req)))]> db)).
Proof.
  intros Hv um. rewrite (simulate_POST_valid clk up db req chat Hv). fold um.
  destruct (simulate_fails up) eqn:Hf.
  - left. split; [reflexivity |].
    rewrite (simulate_try_thrown _ _ _ _ _ _ _ Hf). apply run_stream_thrown.
  - right. split; [reflexivity |].
    destruct (simulate_try_completed_words clk db (chatId req) chat um
                (default [] (message req)) up Hf) as (reply & -> & Hr).
    exists reply. split; [exact Hr | reflexivity].
Qed.

End ChunkText.

(** A number beyond the range of a double reaches the client as [null]:
    the relay stores the text of the infinity and the client shows
    another. *)
Lemma stream_overflow_shown_as_null :
  exists chunks reply,
    fst (StreamRoute.POST Examples.clk0
           (StreamRoute.Body [Samples.frame_overflow; Examples.frame_done]
              StreamRoute.EndOfStream)
           Examples.db0 Examples.req0) =
      EventStream (EvUserMessage (userMessage_of Examples.clk0 Examples.req0 None) :: chunks
                   ++ [EvComplete (assistantMessage_of Examples.clk0 reply)
                         (js "Can you help me understand recursion")])
    /\ reply = js "Infinity"
    /\ streamed_text chunks = js "null".
Proof.
  exists [EvChunk (JNum (JsNumber.Infinity false))], (js "Infinity").
  split; [vm_compute; reflexivity |]. split; vm_compute; reflexivity.
Qed.

(** X2. The streaming relay, when the provider's stream runs to its end and
    no increment is, or holds as an element of an array, a number beyond
    the range of a double: the contents of the chunk records, as the client
    reads them from the events sent, converted to strings and concatenated
    in order, are the reply that is stored and sent in the completion; this
    holds for the fallback text as well. *)
Theorem X2_stream_chunks_spell_reply (clk : Clock) (db : Store) (req : Request) (chat : Chat)
    (reads : list (list N)) :
  valid_exchange db req chat ->
  forallb finite (StreamRoute.decode_increments reads) = true ->
  exists chunks reply,
    StreamRoute.POST clk (StreamRoute.Body reads StreamRoute.EndOfStream) db req =
      (EventStream (EvUserMessage (userMessage_of clk req None) :: chunks
                    ++ [EvComplete (assistantMessage_of clk reply)
                          (title_after chat (default [] (message req)))]),
       <[chatId req := committed clk chat (userMessage_of clk req None)
                         (assistantMessage_of clk reply)
                         (title_after chat (default [] (message req)))]> db)
    /\ Forall (fun e => is_chunk e = true) chunks
    /\ streamed_text chunks = reply.
Proof.
  intros Hv Hfin. rewrite (stream_POST_valid clk _ db req chat Hv).
  destruct (stream_try_completed_text clk db (chatId req) chat (userMessage_of clk req None)
              (default [] (message req)) reads Hfin) as (chunks & reply & -> & Hc & Ht).
  exists chunks, reply. split; [reflexivity |]. split; [exact Hc | exact Ht].
Qed.

Lemma X2_witness :
  exists chunks reply,
    StreamRoute.POST Examples.clk0
      (StreamRoute.Body [Examples.frame_hi; Examples.frame_done] StreamRoute.EndOfStream)
      Examples.db0 Examples.req0 =
      (EventStream (EvUserMessage (userMessage_of Examples.clk0 Examples.req0 None) :: chunks
                    ++ [EvComplete (assistantMessage_of Examples.clk0 reply)
                          (title_after Examples.new_chat (default [] (message Examples.req0)))]),
       <[chatId Examples.req0 :=
           committed Examples.clk0 Examples.new_chat
             (userMessage_of Examples.clk0 Examples.req0 None)
             (assistantMessage_of Examples.clk0 reply)
             (title_after Examples.new_chat (default [] (message Examples.req0)))]> Examples.db0)
    /\ Forall (fun e => is_chunk e = true) chunks
    /\ streamed_text chunks = reply.
Proof.
  apply (X2_stream_chunks_spell_reply Examples.clk0 Examples.db0 Examples.req0
           Examples.new_chat [Examples.frame_hi; Examples.frame_done]).
  - repeat split; vm_compute; reflexivity.
  - vm_compute; reflexivity.
Defined.

(** X3. The simulated relay, when the provider answers with a usable
    completion: the chunks are the pieces of the reply between spaces, each
    but the last followed by a space, and concatenated in order they give
    the stored reply back, whatever its spacing. *)
Theorem X3_simulate_chunks_spell_reply (clk : Clock) (db : Store) (req : Request) (chat : Chat)
    (up : SimulateRoute.Upstream) :
  valid_exchange db req chat ->
  simulate_fails up = false ->
  exists reply,
    reply <> []
    /\ SimulateRoute.POST clk up db req =
       (EventStream
          (EvUserMessage (userMessage_of clk req (req_files req))
           :: SimulateRoute.word_chunks (split SPACE reply)
           ++ [EvComplete (assistantMessage_of clk reply)
                 (title_after chat (default [] (message req)))]),
        <[chatId req := committed clk chat (userMessage_of clk req (req_files req))
                          (assistantMessage_of clk reply)
                          (title_after chat (default [] (message req)))]> db)
    /\ streamed_text (SimulateRoute.word_chunks (split SPACE reply)) = reply.
Proof.
  intros Hv Hf.
  destruct (simulate_POST_cases clk up db req chat Hv) as [[Hf' _] | (_ & reply & Hr & E)];
    [congruence |].
  exists reply. split; [exact Hr |]. split; [exact E |].
  rewrite streamed_text_words. apply join_split.
Qed.

Lemma X3_witness :
  exists reply,
    reply <> []
    /\ SimulateRoute.POST Examples.clk0 Examples.batch_ok Examples.db0 Examples.req0 =
       (EventStream
          (EvUserMessage (userMessage_of Examples.clk0 Examples.req0 (req_files Examples.req0))
           :: SimulateRoute.word_chunks (split SPACE reply)
           ++ [EvComplete (assistantMessage_of Examples.clk0 reply)
                 (title_after Examples.new_chat (default [] (message Examples.req0)))]),
        <[chatId Examples.req0 :=
            committed Examples.clk0 Examples.new_chat
              (userMessage_of Examples.clk0 Examples.req0 (req_files Examples.req0))
              (assistantMessage_of Examples.clk0 reply)
              (title_after Examples.new_chat (default [] (message Examples.req0)))]> Examples.db0)
    /\ streamed_text (SimulateRoute.word_chunks (split SPACE reply)) = reply.
Proof.
  apply (X3_simulate_chunks_spell_reply Examples.clk0 Examples.db0 Examples.req0
           Examples.new_chat Examples.batch_ok).
  - repeat split; vm_compute; reflexivity.
  - vm_compute; reflexivity.
Defined.

(** ** The client's reducer *)

Section Reducer.
Import UseChat.







(** [sendMessage] on a text that is not blank. *)
Lemma sendMessage_eq clk now up db uid cid text fs b st :
  trim text <> [] ->
  sendMessage clk now up db uid cid text fs b st =
  match SimulateRoute.POST clk up db (request_of uid cid text fs) with
  | (EventStream events, db1) =>
      (fold_left (reduce b now) events (begin text b now st), db1)
  | (Plain _ _, db1) =>
      let st1 := begin text b now st in
      let st2 := if b then st1
                 else setChat (fun prev => with_messages prev (slice_0_m1 (messages prev))) st1 in
      ({| chat := chat st2; assistantContent := assistantContent st2;
          error := Some (js "Failed to send message") |}, db1)
  end.
Proof.
  intros Hne. unfold sendMessage, request_of.
  destruct (trim text) eqn:E; [contradiction | reflexivity].
Qed.




End Reducer.





(** X6. A send that the relay refuses, because the caller is not
    authenticated or the conversation is not the caller's, leaves the store
    as it was and takes the optimistic message back out of the view; a
    blank text is not sent at all and changes nothing. *)
Theorem X6_refused_send_is_rolled_back (clk : Clock) (now : Z)
    (up : SimulateRoute.Upstream) (db : Store) (uid : option jsstr) (cid text : jsstr)
    (fs : option (list ProcessedFile)) (st : UseChat.State) :
  unauthenticated uid = true \/ Mongo.findOne db cid (default [] uid) = None ->
  exists st',
    UseChat.sendMessage clk now up db uid cid text fs false st = (st', db)
    /\ UseChat.chat st' = UseChat.chat st
    /\ (trim text = [] -> st' = st)
    /\ (trim text <> [] -> UseChat.error st' = Some (js "Failed to send message")).
Proof.
  intros Href. destruct (trim text) as [|c r] eqn:E.
  - exists st. unfold UseChat.sendMessage. rewrite E.
    repeat apply conj; [reflexivity | reflexivity | reflexivity | congruence].
  - assert (Ht : trim text <> []) by (rewrite E; discriminate).
    rewrite (sendMessage_eq _ _ _ _ _ _ _ _ _ _ Ht).
    assert (Hp : exists st b, SimulateRoute.POST clk up db (request_of uid cid text fs)
                              = (Plain st b, db)).
    { unfold SimulateRoute.POST. cbn [request_of auth_userId message chatId].
      destruct (unauthenticated uid) eqn:Hu; [now eexists _, _ |].
      rewrite (message_missing_trim text Ht).
      destruct Href as [Hr | Hr]; [discriminate |]. rewrite Hr. now eexists _, _. }
    destruct Hp as (s & b & ->). cbn zeta. eexists. split; [reflexivity |].
    cbn [UseChat.chat UseChat.error]. split; [| split; [congruence | reflexivity]].
    unfold UseChat.begin, UseChat.setChat, UseChat.slice_0_m1.
    cbn [UseChat.chat]. destruct (UseChat.chat st) as [v|]; [| reflexivity].
    cbn [fmap option_fmap option_map UseChat.with_messages messages].
    rewrite removelast_last. now destruct v.
Qed.

Lemma X6_witness :
  exists st',
    UseChat.sendMessage Examples.clk0 3000 Examples.batch_ok Examples.db0
      (Some Examples.bob) Examples.cid0 (js "2+2?") None false Samples.view0
      = (st', Examples.db0)
    /\ UseChat.chat st' = UseChat.chat Samples.view0
    /\ (trim (js "2+2?") = [] -> st' = Samples.view0)
    /\ (trim (js "2+2?") <> [] -> UseChat.error st' = Some (js "Failed to send message")).
Proof.
  apply (X6_refused_send_is_rolled_back Examples.clk0 3000 Examples.batch_ok Examples.db0
           (Some Examples.bob) Examples.cid0 (js "2+2?") None Samples.view0).
  right. vm_compute; reflexivity.
Defined.

(** ** Editing *)

Section Editing.


End Editing.



(** ** The collection routes *)

Section Collection.
Import ChatsRoute.

Lemma newer_first_trans : Transitive newer_first.
Proof. intros a b c. unfold newer_first. lia. Qed.

Lemma newer_first_total : Total newer_first.
Proof. intros a b. unfold newer_first. lia. Qed.

Lemma sort_sorted docs : StronglySorted newer_first (sort docs).
Proof.
  apply (@StronglySorted_merge_sort _ newer_first _ newer_first_trans newer_first_total).
Qed.

Lemma sort_perm docs : sort docs ≡ₚ docs.
Proof. apply merge_sort_Permutation. Qed.

Lemma elem_of_find db uid cid c :
  (cid, c) ∈ find db uid <-> db !! cid = Some c /\ userId c = uid.
Proof.
  unfold find. rewrite list_elem_of_filter, elem_of_map_to_list. cbn [snd]. tauto.
Qed.

Lemma find_ids_NoDup db uid : NoDup (fst <$> find db uid).
Proof.
  apply (sublist_NoDup _ (fst <$> map_to_list db)); [apply NoDup_fst_map_to_list |].
  unfold find. apply fmap_sublist, sublist_filter.
Qed.

Lemma select_id (docs : list (jsstr * Chat)) :
  ChatSummary._id <$> (select <$> docs) = fst <$> docs.
Proof. rewrite <- list_fmap_compose. now apply list_fmap_ext. Qed.

End Collection.

(** X8. [GET /api/chats] for an authenticated caller lists conversations
    of the caller only, each once and as stored, at most 50 of them, the
    most recently updated first; a conversation of the caller that is left
    out was updated no later than every one listed, and the list is then
    full. *)
Theorem X8_chat_list (db : Store) (uid : jsstr) :
  uid <> [] ->
  exists chats,
    ChatsRoute.GET db (Some uid) = ChatsRoute.Chats chats
    /\ (length chats <= 50)%nat
    /\ Forall (fun s => exists c, db !! ChatSummary._id s = Some c
                                  /\ userId c = uid
                                  /\ s = ChatsRoute.select (ChatSummary._id s, c)) chats
    /\ NoDup (ChatSummary._id <$> chats)
    /\ StronglySorted
         (fun a b => (ChatSummary.updatedAt b <= ChatSummary.updatedAt a)%Z) chats
    /\ (forall cid c,
          db !! cid = Some c -> userId c = uid ->
          ChatsRoute.select (cid, c) ∈ chats
          \/ (length chats = 50%nat
              /\ Forall (fun s => (updatedAt c <= ChatSummary.updatedAt s)%Z) chats)).
Proof.
  intros Hu. unfold ChatsRoute.GET.
  assert (Ha : unauthenticated (Some uid) = false) by (destruct uid; [contradiction | reflexivity]).
  rewrite Ha. cbn [default from_option id].
  set (sorted := ChatsRoute.sort (ChatsRoute.find db uid)).
  pose proof (sort_sorted (ChatsRoute.find db uid)) as Hs. fold sorted in Hs.
  pose proof (sort_perm (ChatsRoute.find db uid)) as Hp. fold sorted in Hp.
  rewrite <- (take_drop ChatsRoute.LIMIT sorted) in Hs.
  eexists. split; [reflexivity |]. split; [| split; [| split; [| split]]].
  - rewrite length_fmap, length_take. unfold ChatsRoute.LIMIT. lia.
  - apply Forall_fmap, Forall_forall. intros [cid c] Hin. cbn [compose ChatsRoute.select
      ChatSummary._id fst snd].
    assert (Hin' : (cid, c) ∈ ChatsRoute.find db uid).
    { rewrite <- Hp, <- (take_drop ChatsRoute.LIMIT sorted). apply elem_of_app. now left. }
    apply elem_of_find in Hin' as [Hl Ho]. exists c. auto.
  - rewrite select_id.
    apply (sublist_NoDup _ (fst <$> sorted)); [| apply fmap_sublist, sublist_take].
    rewrite Hp. apply find_ids_NoDup.
  - apply StronglySorted_app_1_l in Hs.
    apply (StronglySorted_fmap ChatsRoute.select ChatsRoute.newer_first); [| exact Hs].
    intros a b H. exact H.
  - intros cid c Hl Ho.
    assert (Hin : (cid, c) ∈ sorted) by (rewrite Hp; now apply elem_of_find).
    rewrite <- (take_drop ChatsRoute.LIMIT sorted) in Hin.
    apply elem_of_app in Hin as [Hin | Hin].
    + left. now apply list_elem_of_fmap_2.
    + right. split.
      * rewrite length_fmap, length_take. unfold ChatsRoute.LIMIT in *.
        destruct (Nat.le_gt_cases (length sorted) 50) as [Hle | Hgt]; [| lia].
        rewrite drop_ge in Hin by exact Hle. now apply elem_of_nil in Hin.
      * apply Forall_fmap, Forall_forall. intros d Hd.
        apply (StronglySorted_app_1_elem_of _ _ _ d (cid, c) Hs Hd Hin).
Qed.

Lemma X8_witness :
  exists chats,
    ChatsRoute.GET Samples.db_two (Some Examples.alice) = ChatsRoute.Chats chats
    /\ (length chats <= 50)%nat
    /\ Forall (fun s => exists c, Samples.db_two !! ChatSummary._id s = Some c
                                  /\ userId c = Examples.alice
                                  /\ s = ChatsRoute.select (ChatSummary._id s, c)) chats
    /\ NoDup (ChatSummary._id <$> chats)
    /\ StronglySorted
         (fun a b => (ChatSummary.updatedAt b <= ChatSummary.updatedAt a)%Z) chats
    /\ (forall cid c,
          Samples.db_two !! cid = Some c -> userId c = Examples.alice ->
          ChatsRoute.select (cid, c) ∈ chats
          \/ (length chats = 50%nat
              /\ Forall (fun s => (updatedAt c <= ChatSummary.updatedAt s)%Z) chats)).
Proof.
  apply (X8_chat_list Samples.db_two Examples.alice). vm_compute; discriminate.
Defined.

(** X9. A conversation created with a title the schema accepts, under an
    identifier not yet in use, is answered with 201 and its summary; its
    owner then looks it up as an empty conversation with that title, no
    other caller finds it, and every other conversation is as before. *)
Theorem X9_create_then_lookup (now_new now_save : Z) (newId : jsstr) (db : Store)
    (uid t : jsstr) :
  uid <> [] ->
  t <> [] ->
  (length t <= 100)%nat ->
  db !! newId = None ->
  exists db',
    ChatsRoute.POST now_new now_save newId db (Some uid) (Some t)
    = (ChatsRoute.Created {| ChatSummary._id := newId; ChatSummary.title := t;
                             ChatSummary.createdAt := now_new;
                             ChatSummary.updatedAt := now_save |}, db')
    /\ ChatRoute.GET db' (Some uid) newId
       = ChatRoute.Found {| userId := uid; title := t; messages := [];
                            createdAt := now_new; updatedAt := now_save |}
    /\ (forall other, other <> uid -> other <> [] ->
          ChatRoute.GET db' (Some other) newId = ChatRoute.Error 404 (js "Chat not found"))
    /\ (forall cid, cid <> newId -> db' !! cid = db !! cid).
Proof.
  intros Hu Ht Hlen Hfresh. unfold ChatsRoute.POST.
  assert (Ha : unauthenticated (Some uid) = false) by (destruct uid; [contradiction | reflexivity]).
  rewrite Ha, Hfresh. cbn [default from_option id].
  assert (Hvalid : Schema.valid {| userId := uid; title := t; messages := [];
                                   createdAt := now_new; updatedAt := now_new |} = true).
  { unfold Schema.valid. cbn [userId title messages forallb].
    destruct uid; [contradiction |]. destruct t; [contradiction |].
    cbn [nonempty andb]. rewrite andb_true_r. now apply Nat.leb_le. }
  destruct t as [|c t']; [contradiction |]. rewrite Hvalid.
  unfold Mongo.save. cbn [userId title messages createdAt ChatsRoute.select fst snd].
  eexists. split; [reflexivity |]. split; [| split].
  - unfold ChatRoute.GET. rewrite Ha. cbn [default from_option id].
    unfold Mongo.findOne. rewrite lookup_insert_eq. cbn [userId].
    now rewrite decide_True by reflexivity.
  - intros other Hne Hother. unfold ChatRoute.GET.
    assert (Ho : unauthenticated (Some other) = false)
      by (destruct other; [contradiction | reflexivity]).
    rewrite Ho. cbn [default from_option id].
    unfold Mongo.findOne. rewrite lookup_insert_eq. cbn [userId].
    now rewrite decide_False by congruence.
  - intros cid Hne. now rewrite lookup_insert_ne by congruence.
Qed.

Lemma X9_witness :
  exists db',
    ChatsRoute.POST 7 8 Samples.cid1 Examples.db0 (Some Examples.bob) (Some (js "Hello"))
    = (ChatsRoute.Created {| ChatSummary._id := Samples.cid1; ChatSummary.title := js "Hello";
                             ChatSummary.createdAt := 7;
                             ChatSummary.updatedAt := 8 |}, db')
    /\ ChatRoute.GET db' (Some Examples.bob) Samples.cid1
       = ChatRoute.Found {| userId := Examples.bob; title := js "Hello"; messages := [];
                            createdAt := 7; updatedAt := 8 |}
    /\ (forall other, other <> Examples.bob -> other <> [] ->
          ChatRoute.GET db' (Some other) Samples.cid1
          = ChatRoute.Error 404 (js "Chat not found"))
    /\ (forall cid, cid <> Samples.cid1 -> db' !! cid = Examples.db0 !! cid).
Proof.
  apply (X9_create_then_lookup 7 8 Samples.cid1 Examples.db0 Examples.bob (js "Hello")).
  - vm_compute; discriminate.
  - vm_compute; discriminate.
  - vm_compute; lia.
  - vm_compute; reflexivity.
Defined.

(** X10. After its owner deletes a conversation, no caller finds it any
    more, a second delete answers 404, and every other conversation is as
    before. *)
Theorem X10_delete_then_lookup (db : Store) (uid cid : jsstr) (chat : Chat) :
  uid <> [] ->
  Mongo.findOne db cid uid = Some chat ->
  exists db',
    ChatRoute.DELETE db (Some uid) cid = (ChatRoute.Deleted, db')
    /\ (forall who, who <> [] ->
          ChatRoute.GET db' (Some who) cid = ChatRoute.Error 404 (js "Chat not found"))
    /\ ChatRoute.DELETE db' (Some uid) cid
       = (ChatRoute.Error 404 (js "Chat not found"), db')
    /\ (forall cid', cid' <> cid -> db' !! cid' = db !! cid').
Proof.
  intros Hu Hf.
  assert (Hauth : forall who, who <> [] -> unauthenticated (Some who) = false)
    by (intros [|? ?]; [contradiction | reflexivity]).
  assert (Hgone : forall who, Mongo.findOne (delete cid db) cid who = None)
    by (intros who; unfold Mongo.findOne; now rewrite lookup_delete_eq).
  exists (delete cid db). split; [| split; [| split]].
  - unfold ChatRoute.DELETE, Mongo.findOneAndDelete. rewrite (Hauth uid Hu).
    cbn [default from_option id]. now rewrite Hf.
  - intros who Hw. unfold ChatRoute.GET. rewrite (Hauth who Hw).
    cbn [default from_option id]. now rewrite Hgone.
  - unfold ChatRoute.DELETE, Mongo.findOneAndDelete. rewrite (Hauth uid Hu).
    cbn [default from_option id]. now rewrite Hgone.
  - intros cid' Hne. now rewrite lookup_delete_ne by congruence.
Qed.

Lemma X10_witness :
  exists db',
    ChatRoute.DELETE Examples.db0 (Some Examples.alice) Examples.cid0 = (ChatRoute.Deleted, db')
    /\ (forall who, who <> [] ->
          ChatRoute.GET db' (Some who) Examples.cid0
          = ChatRoute.Error 404 (js "Chat not found"))
    /\ ChatRoute.DELETE db' (Some Examples.alice) Examples.cid0
       = (ChatRoute.Error 404 (js "Chat not found"), db')
    /\ (forall cid', cid' <> Examples.cid0 -> db' !! cid' = Examples.db0 !! cid').
Proof.
  apply (X10_delete_then_lookup Examples.db0 Examples.alice Examples.cid0 Examples.new_chat).
  - vm_compute; discriminate.
  - vm_compute; reflexivity.
Defined.

(** ** What a relay writes *)

Section Writes.

Lemma ERROR_TEXT_nonempty : ERROR_TEXT <> [].
Proof. discriminate. Qed.

(** The effect of a valid exchange on the collection, on either outcome. *)
Lemma outcome_write clk db req chat fs r :
  message_missing (message req) = false ->
  outcome clk db req chat (userMessage_of clk req fs) r ->
  exists a t,
    snd r = <[chatId req := committed clk chat (userMessage_of clk req fs) a t]> db
    /\ role a = assistant /\ content a <> []
    /\ (t = title chat \/ (messages chat = [] /\ t <> [] /\ (length t <= 50)%nat)).
Proof.
  intros Hm (chunks & _ & [-> | (reply & Hr & ->)]); cbn [snd].
  - exists (errorMessage_of clk), (title chat). split; [reflexivity |].
    split; [reflexivity |]. split; [apply ERROR_TEXT_nonempty | now left].
  - exists (assistantMessage_of clk reply), (title_after chat (default [] (message req))).
    split; [reflexivity |]. split; [reflexivity |]. split; [exact Hr |].
    unfold title_after. destruct (messages chat); [| now left]. right.
    destruct (message req) as [text|]; [| discriminate]. cbn [message_missing] in Hm.
    cbn [default from_option id].
    destruct (trim text) as [|c rest] eqn:E; [discriminate |].
    destruct (derive_title_bounds text c rest E) as ((w & Hw) & Hlen).
    split; [reflexivity |]. split; [rewrite Hw; discriminate | exact Hlen].
Qed.

Lemma userMessage_content clk req fs :
  message_missing (message req) = false ->
  role (userMessage_of clk req fs) = user /\ content (userMessage_of clk req fs) <> [].
Proof.
  intros Hm. split; [reflexivity |]. cbn [userMessage_of content].
  destruct (message req) as [text|]; [| discriminate]. cbn [message_missing] in Hm.
  cbn [default from_option id]. now destruct (trim text).
Qed.

(** A request to a relay leaves the collection as it was, or writes one
    conversation back with two messages appended. *)
Lemma run_exchange_cases db x :
  run_exchange db x = db
  \/ exists clk cid chat um a t,
       db !! cid = Some chat
       /\ run_exchange db x = <[cid := committed clk chat um a t]> db
       /\ role um = user /\ content um <> []
       /\ role a = assistant /\ content a <> []
       /\ (t = title chat \/ (messages chat = [] /\ t <> [] /\ (length t <= 50)%nat)).
Proof.
  assert (Hgen : forall clk req fs (r : Response * Store),
             (snd r = db
              \/ (message_missing (message req) = false
                  /\ exists chat, db !! chatId req = Some chat
                       /\ outcome clk db req chat (userMessage_of clk req fs) r)) ->
             snd r = db
             \/ exists clk cid chat um a t,
                  db !! cid = Some chat
                  /\ snd r = <[cid := committed clk chat um a t]> db
                  /\ role um = user /\ content um <> []
                  /\ role a = assistant /\ content a <> []
                  /\ (t = title chat
                      \/ (messages chat = [] /\ t <> [] /\ (length t <= 50)%nat))).
  { intros clk req fs r [H | (Hm & chat & Hl & Ho)]; [now left | right].
    destruct (outcome_write clk db req chat fs r Hm Ho) as (a & t & E & Ha & Hc & Ht).
    destruct (userMessage_content clk req fs Hm) as [Hur Huc].
    exists clk, (chatId req), chat, (userMessage_of clk req fs), a, t. auto 10. }
  destruct x as [clk up req | clk up req]; cbn [run_exchange].
  - apply (Hgen clk req None).
    destruct (unauthenticated (auth_userId req)) eqn:Ha;
      [left; unfold StreamRoute.POST; now rewrite Ha |].
    destruct (message_missing (message req)) eqn:Hm;
      [left; unfold StreamRoute.POST; now rewrite Ha, Hm |].
    destruct (Mongo.findOne db (chatId req) (default [] (auth_userId req))) as [chat|] eqn:Hf;
      [| left; unfold StreamRoute.POST; now rewrite Ha, Hm, Hf].
    right. split; [reflexivity |]. exists chat. split; [now apply findOne_Some in Hf |].
    now apply stream_POST_outcome.
  - apply (Hgen clk req (req_files req)).
    destruct (unauthenticated (auth_userId req)) eqn:Ha;
      [left; unfold SimulateRoute.POST; now rewrite Ha |].
    destruct (message_missing (message req)) eqn:Hm;
      [left; unfold SimulateRoute.POST; now rewrite Ha, Hm |].
    destruct (Mongo.findOne db (chatId req) (default [] (auth_userId req))) as [chat|] eqn:Hf;
      [| left; unfold SimulateRoute.POST; now rewrite Ha, Hm, Hf].
    right. split; [reflexivity |]. exists chat. split; [now apply findOne_Some in Hf |].
    now apply simulate_POST_outcome.
Qed.

Lemma run_exchange_frame db x cid c :
  db !! cid = Some c ->
  exists c', run_exchange db x !! cid = Some c'
             /\ userId c' = userId c /\ createdAt c' = createdAt c
             /\ messages c `prefix_of` messages c'.
Proof.
  intros Hl.
  destruct (run_exchange_cases db x)
    as [-> | (clk & cid' & chat & um & a & t & Hc & -> & _)]; [now exists c |].
  destruct (decide (cid' = cid)) as [-> | Hne].
  - assert (chat = c) as -> by congruence. rewrite lookup_insert_eq. eexists.
    split; [reflexivity |]. cbn [userId createdAt messages committed].
    split; [reflexivity |]. split; [reflexivity |].
    rewrite <- app_assoc. now apply prefix_app_r.
  - rewrite lookup_insert_ne by exact Hne. now exists c.
Qed.

Lemma run_exchange_none db x cid :
  db !! cid = None -> run_exchange db x !! cid = None.
Proof.
  intros Hl.
  destruct (run_exchange_cases db x)
    as [-> | (clk & cid' & chat & um & a & t & Hc & -> & _)]; [exact Hl |].
  rewrite lookup_insert_ne; [exact Hl | congruence].
Qed.

Lemma run_exchanges_none xs : forall db cid,
  db !! cid = None -> run_exchanges db xs !! cid = None.
Proof.
  induction xs as [|x xs IH]; intros db cid Hl; [exact Hl |].
  apply IH, run_exchange_none, Hl.
Qed.

End Writes.

(** X11. Requests to the relays, any number of them, valid or not and
    whatever the provider does, never create or remove a conversation,
    never change a conversation's owner or creation time, and never drop or
    rewrite a stored message: the messages a conversation held are a prefix
    of those it holds afterwards. *)
Theorem X11_relays_only_append (db : Store) (xs : list Exchange) (cid : jsstr) (c : Chat) :
  db !! cid = Some c ->
  exists c',
    run_exchanges db xs !! cid = Some c'
    /\ userId c' = userId c
    /\ createdAt c' = createdAt c
    /\ messages c `prefix_of` messages c'
    /\ (forall cid', db !! cid' = None -> run_exchanges db xs !! cid' = None).
Proof.
  intros Hl.
  assert (H : exists c', run_exchanges db xs !! cid = Some c'
                         /\ userId c' = userId c /\ createdAt c' = createdAt c
                         /\ messages c `prefix_of` messages c').
  { revert db c Hl. induction xs as [|x xs IH]; intros db c Hl.
    - exists c. auto.
    - destruct (run_exchange_frame db x cid c Hl) as (c1 & Hl1 & Hu1 & Hc1 & Hp1).
      destruct (IH (run_exchange db x) c1 Hl1) as (c' & Hl' & Hu' & Hc' & Hp').
      exists c'. split; [exact Hl' |]. split; [congruence |]. split; [congruence |].
      now transitivity (messages c1). }
  destruct H as (c' & Hl' & Hu' & Hc' & Hp'). exists c'.
  repeat apply conj; try assumption. intros cid'. apply run_exchanges_none.
Qed.

Lemma X11_witness :
  exists c',
    run_exchanges Examples.db0
      [ViaSimulate Examples.clk0 Examples.batch_ok Examples.req0;
       ViaStream Examples.clk0 StreamRoute.FetchFails Examples.req0] !! Examples.cid0 = Some c'
    /\ userId c' = userId Examples.new_chat
    /\ createdAt c' = createdAt Examples.new_chat
    /\ messages Examples.new_chat `prefix_of` messages c'
    /\ (forall cid', Examples.db0 !! cid' = None ->
          run_exchanges Examples.db0
            [ViaSimulate Examples.clk0 Examples.batch_ok Examples.req0;
             ViaStream Examples.clk0 StreamRoute.FetchFails Examples.req0] !! cid' = None).
Proof.
  apply (X11_relays_only_append Examples.db0
           [ViaSimulate Examples.clk0 Examples.batch_ok Examples.req0;
            ViaStream Examples.clk0 StreamRoute.FetchFails Examples.req0]
           Examples.cid0 Examples.new_chat).
  vm_compute; reflexivity.
Defined.

(** ** Invariants of the collection *)

Section Invariants.











End Invariants.


(** ** The decoder across reads *)

Section DecoderReads.
Import TextDecoder.

Lemma run_app d a : forall b,
  run d (a ++ b) =
  (fst (run (fst (run d a)) b), snd (run d a) ++ snd (run (fst (run d a)) b)).
Proof.
  revert d. induction a as [|x a IH]; intros d b; cbn [app run].
  - cbn [fst snd app]. now destruct (run d b).
  - destruct (step d x) as [d1 o1]. rewrite IH.
    destruct (run d1 a) as [d2 o2]. cbn [fst snd].
    destruct (run d2 b) as [d3 o3]. cbn [fst snd]. now rewrite app_assoc.
Qed.

Lemma lead_bom b d x :
  lead (with_bom b d) x = (with_bom b (fst (lead d x)), snd (lead d x)).
Proof.
  unfold lead.
  repeat match goal with |- context [if ?c then _ else _] => destruct c end; reflexivity.
Qed.

Lemma step_bom b d x :
  step (with_bom b d) x = (with_bom b (fst (step d x)), snd (step d x)).
Proof.
  unfold step. cbn [with_bom bytes_needed lower upper bytes_seen code_point].
  destruct (bytes_needed d =? 0); [apply lead_bom |].
  destruct ((x <? lower d) || (upper d <? x)).
  - change (reset (with_bom b d)) with (with_bom b (reset d)).
    rewrite lead_bom. now destruct (lead (reset d) x).
  - destruct (bytes_seen d + 1 =? bytes_needed d); reflexivity.
Qed.

Lemma run_bom b bytes : forall d,
  run (with_bom b d) bytes = (with_bom b (fst (run d bytes)), snd (run d bytes)).
Proof.
  induction bytes as [|x bytes IH]; intros d; cbn [run]; [reflexivity |].
  rewrite step_bom. destruct (step d x) as [d1 o1]. cbn [fst snd].
  rewrite IH. now destruct (run d1 bytes).
Qed.

Lemma lead_keeps_bom d x : bom_seen (fst (lead d x)) = bom_seen d.
Proof.
  unfold lead.
  repeat match goal with |- context [if ?c then _ else _] => destruct c end; reflexivity.
Qed.

Lemma step_keeps_bom d x : bom_seen (fst (step d x)) = bom_seen d.
Proof.
  unfold step. destruct (bytes_needed d =? 0); [apply lead_keeps_bom |].
  destruct ((x <? lower d) || (upper d <? x)).
  - pose proof (lead_keeps_bom (reset d) x) as H.
    destruct (lead (reset d) x). exact H.
  - destruct (bytes_seen d + 1 =? bytes_needed d); reflexivity.
Qed.

Lemma run_keeps_bom bytes : forall d, bom_seen (fst (run d bytes)) = bom_seen d.
Proof.
  induction bytes as [|x bytes IH]; intros d; cbn [run]; [reflexivity |].
  pose proof (step_keeps_bom d x) as Hs. destruct (step d x) as [d1 o1].
  pose proof (IH d1) as Hr. destruct (run d1 bytes) as [d2 o2]. cbn [fst] in *. congruence.
Qed.

(** [decode] in terms of the code points of the read. *)
Lemma decode_run d value :
  decode d value =
  (match snd (run d value) with
   | [] => fst (run d value)
   | _ :: _ => with_bom true (fst (run d value))
   end,
   utf16_text (strip_bom (bom_seen d) (snd (run d value)))).
Proof.
  unfold decode. pose proof (run_keeps_bom value d) as Hb.
  destruct (run d value) as [d' cps]. cbn [fst snd] in *.
  destruct cps as [|cp cps]; [reflexivity |]. rewrite Hb. reflexivity.
Qed.

Lemma utf16_text_app a b : utf16_text (a ++ b) = utf16_text a ++ utf16_text b.
Proof. unfold utf16_text. now rewrite map_app, concat_app. Qed.

Lemma decode_app d v w :
  snd (decode d (v ++ w)) = snd (decode d v) ++ snd (decode (fst (decode d v)) w).
Proof.
  rewrite !decode_run, run_app. cbn [fst snd].
  pose proof (run_keeps_bom v d) as Hb.
  destruct (run d v) as [d1 c1]. cbn [fst snd] in *.
  destruct c1 as [|cp c1].
  - cbn [app strip_bom]. rewrite Hb. reflexivity.
  - rewrite run_bom. cbn [fst snd with_bom bom_seen].
    cbn [app strip_bom]. destruct (negb (bom_seen d) && (cp =? 65279)).
    + rewrite utf16_text_app. f_equal. now destruct (snd (run d1 w)).
    + change (cp :: c1 ++ snd (run d1 w)) with ((cp :: c1) ++ snd (run d1 w)).
      rewrite utf16_text_app. f_equal. now destruct (snd (run d1 w)).
Qed.

Lemma decode_reads_concat reads : forall d,
  concat (decode_reads d reads) = snd (decode d (concat reads)).
Proof.
  induction reads as [|value rest IH]; intros d; cbn [decode_reads concat].
  - rewrite decode_run. reflexivity.
  - rewrite decode_app. destruct (decode d value) as [d1 t1]. cbn [concat fst snd].
    now rewrite IH.
Qed.

End DecoderReads.

(** X13. The streaming decoder gives the same text however the bytes are
    cut into reads, also inside a multi-byte sequence and for bytes that
    are not UTF-8: the texts decoded read by read, put together, are the
    text of all the bytes decoded at once. *)
Theorem X13_decoded_text_ignores_read_boundaries (reads : list (list N)) :
  concat (decode_reads TextDecoder.init reads)
  = snd (TextDecoder.decode TextDecoder.init (concat reads)).
Proof. apply decode_reads_concat. Qed.

(** ** Reads cut at line ends *)

Section AlignedReads.
Import TextDecoder.

Lemma lead_bounded d x : continuation_bounded d -> continuation_bounded (fst (lead d x)).
Proof.
  unfold continuation_bounded, lead. intros H.
  repeat match goal with |- context [if ?c then _ else _] => destruct c end;
    cbn [fst lower]; lia.
Qed.

Lemma step_bounded d x : continuation_bounded d -> continuation_bounded (fst (step d x)).
Proof.
  intros H. unfold step. destruct (bytes_needed d =? 0); [now apply lead_bounded |].
  destruct ((x <? lower d) || (upper d <? x)).
  - assert (Hr : continuation_bounded (reset d)) by (unfold continuation_bounded; cbn; lia).
    pose proof (lead_bounded (reset d) x Hr) as Hl. now destruct (lead (reset d) x).
  - destruct (bytes_seen d + 1 =? bytes_needed d); unfold continuation_bounded; cbn; lia.
Qed.

Lemma run_bounded bytes : forall d,
  continuation_bounded d -> continuation_bounded (fst (run d bytes)).
Proof.
  induction bytes as [|x bytes IH]; intros d H; cbn [run]; [exact H |].
  pose proof (step_bounded d x H) as Hs. destruct (step d x) as [d1 o1].
  pose proof (IH d1 Hs) as Hr. now destruct (run d1 bytes).
Qed.

Lemma decode_bounded d value :
  continuation_bounded d -> continuation_bounded (fst (decode d value)).
Proof.
  intros H. rewrite decode_run. cbn [fst].
  pose proof (run_bounded value d H) as Hr.
  destruct (snd (run d value)); [exact Hr | exact Hr].
Qed.

(** A line feed always comes out as a line feed, also when it cuts a
    multi-byte sequence short. *)
Lemma step_LF d : continuation_bounded d -> exists o, snd (step d 10) = o ++ [10].
Proof.
  unfold continuation_bounded. intros H. unfold step.
  destruct (bytes_needed d =? 0); [now exists [] |].
  assert (Hlt : (10 <? lower d) = true) by (apply N.ltb_lt; lia).
  rewrite Hlt. cbn [orb]. now exists [REPLACEMENT].
Qed.

Lemma run_snoc_LF d a :
  continuation_bounded d -> exists o, snd (run d (a ++ [10])) = o ++ [10].
Proof.
  intros H. rewrite run_app. cbn [snd run].
  destruct (step_LF (fst (run d a)) (run_bounded a d H)) as (o & Ho).
  destruct (step (fst (run d a)) 10) as [d1 o1]. cbn [snd] in *. subst o1.
  exists (snd (run d a) ++ o). now rewrite app_nil_r, app_assoc.
Qed.

Lemma decode_snoc_LF d a :
  continuation_bounded d -> exists t, snd (decode d (a ++ [10])) = t ++ [10].
Proof.
  intros H. rewrite decode_run. cbn [snd].
  destruct (run_snoc_LF d a H) as (o & ->).
  assert (Hs : exists o', strip_bom (bom_seen d) (o ++ [10]) = o' ++ [10]).
  { destruct o as [|cp o]; cbn [app strip_bom].
    - exists []. now rewrite andb_false_r.
    - destruct (negb (bom_seen d) && (cp =? 65279)); [now exists o | now exists (cp :: o)]. }
  destruct Hs as (o' & ->). exists (utf16_text o'). now rewrite utf16_text_app.
Qed.

Lemma decode_reads_aligned reads : forall d,
  continuation_bounded d -> line_aligned reads -> line_aligned (decode_reads d reads).
Proof.
  unfold line_aligned. induction reads as [|r rest IH]; intros d Hd Hal;
    cbn [decode_reads]; [constructor |].
  apply Forall_cons in Hal as [Hr Hal].
  pose proof (decode_bounded d r Hd) as Hd1.
  assert (Ht : snd (decode d r) = [] \/ last (snd (decode d r)) = Some StreamRoute.LF).
  { destruct Hr as [-> | Hr]; [left; rewrite decode_run; reflexivity |].
    apply last_Some in Hr as (a & ->).
    destruct (decode_snoc_LF d a Hd) as (t & Ht). right.
    change [StreamRoute.LF] with [10]. rewrite Ht. apply last_snoc. }
  destruct (decode d r) as [d1 t1]. cbn [fst snd] in *.
  constructor; [exact Ht | now apply IH].
Qed.

Lemma reads_steps_texts reads : forall d,
  Decoder.reads_steps d reads = concat (List.map read_steps (decode_reads d reads)).
Proof.
  induction reads as [|r rest IH]; intros d; cbn [Decoder.reads_steps decode_reads];
    [reflexivity |].
  destruct (decode d r) as [d1 t1]. cbn [List.map concat]. now rewrite IH.
Qed.

Lemma init_bounded : continuation_bounded init.
Proof. unfold continuation_bounded. cbn. lia. Qed.

End AlignedReads.

(** X14. The decode loop of the streaming relay yields the same increments
    for every way of cutting the provider's bytes into reads that end at
    line feeds (or are empty), whatever the bytes are: as many as for the
    whole stream in one read. *)
Theorem X14_line_aligned_reads_decode_alike (reads : list (list N)) :
  line_aligned reads ->
  StreamRoute.decode_increments reads = StreamRoute.decode_increments [concat reads].
Proof.
  intros Hal. rewrite !decode_increments_steps, !reads_steps_texts. f_equal.
  pose proof (decode_reads_aligned reads TextDecoder.init init_bounded Hal) as Ht.
  change (List.map read_steps (decode_reads TextDecoder.init reads))
    with (List.map (fun r => omap Decoder.line_step (split StreamRoute.LF r))
            (decode_reads TextDecoder.init reads)).
  rewrite (steps_concat_aligned _ Ht), decode_reads_concat.
  cbn [decode_reads]. destruct (TextDecoder.decode TextDecoder.init (concat reads)) as [d t].
  cbn [snd List.map concat]. now rewrite app_nil_r.
Qed.

Lemma X14_witness :
  StreamRoute.decode_increments [Samples.frame_cafe; []; Examples.frame_done]
  = StreamRoute.decode_increments [concat [Samples.frame_cafe; []; Examples.frame_done]].
Proof.
  apply (X14_line_aligned_reads_decode_alike [Samples.frame_cafe; []; Examples.frame_done]).
  constructor; [right; vm_compute; reflexivity |].
  constructor; [left; reflexivity |].
  constructor; [right; vm_compute; reflexivity | constructor].
Defined.

(** ** What the client sends *)

Section ClientSends.

Lemma simulate_never_400 clk up db uid cid text fs :
  trim text <> [] ->
  status (fst (SimulateRoute.POST clk up db (request_of uid cid text fs))) <> 400.
Proof.
  intros Ht. pose proof (message_missing_trim text Ht) as Hm.
  destruct (unauthenticated uid) eqn:Hu.
  - unfold SimulateRoute.POST. cbn [request_of auth_userId]. rewrite Hu. discriminate.
  - destruct (simulate_POST_400 clk up db (request_of uid cid text fs) Hu) as [[H _] _].
    intros E. apply H in E. cbn [request_of message] in E. congruence.
Qed.

Lemma firstWords_trim m : firstWords (trim m) = firstWords m.
Proof. unfold firstWords. now rewrite trim_idem. Qed.

Lemma derive_title_trim m : derive_title (trim m) = derive_title m.
Proof. unfold derive_title. now rewrite firstWords_trim. Qed.

Lemma text_to_send_trimmed message :
  trim (ChatInput.text_to_send (trim message)) = ChatInput.text_to_send (trim message)
  /\ ChatInput.text_to_send (trim message) <> [].
Proof.
  unfold ChatInput.text_to_send. destruct (trim message) as [|c r] eqn:E.
  - split; [vm_compute; reflexivity | discriminate].
  - rewrite <- E. split; [apply trim_idem | rewrite E; discriminate].
Qed.

End ClientSends.

(** X15. The send handler of the input box never sends a blank text: it
    sends whenever there is text or a queued file and no send is under
    way, the text it sends is trimmed and not empty (the placeholder
    [Uploaded files] stands in when only files are queued), the simulated
    relay never answers it with 400, and the title it asks for when it
    opens a conversation is not empty. *)
Theorem X15_input_never_sends_blank (F : Type) (message : jsstr) (files : list F)
    (sending inChat : bool) :
  (sending = false -> trim message <> [] \/ files <> [] ->
   exists text, ChatInput.sent_text (ChatInput.handleSend message files sending inChat)
                = Some text)
  /\ (forall text,
        ChatInput.sent_text (ChatInput.handleSend message files sending inChat) = Some text ->
        trim text = text
        /\ text <> []
        /\ forall clk up db uid cid fs,
             status (fst (SimulateRoute.POST clk up db (request_of uid cid text fs))) <> 400)
  /\ (forall t,
        ChatInput.asked_title (ChatInput.handleSend message files sending inChat) = Some t ->
        t <> []).
Proof.
  unfold ChatInput.handleSend.
  destruct (text_to_send_trimmed message) as [Htrim Hne].
  split; [| split].
  - intros -> Hsome. rewrite orb_false_r.
    assert (Hg : negb (nonempty (trim message)) && (length files =? 0)%nat = false).
    { destruct Hsome as [H | H].
      - destruct (trim message); [contradiction | reflexivity].
      - destruct files; [contradiction |]. apply andb_false_r. }
    rewrite Hg. destruct inChat; eexists; reflexivity.
  - intros text.
    destruct (negb (nonempty (trim message)) && (length files =? 0)%nat || sending);
      [discriminate |].
    assert (Hgoal : ChatInput.text_to_send (trim message) = text ->
                    trim text = text /\ text <> []
                    /\ forall clk up db uid cid fs,
                         status (fst (SimulateRoute.POST clk up db
                                        (request_of uid cid text fs))) <> 400).
    { intros <-. split; [exact Htrim |]. split; [exact Hne |]. intros.
      apply simulate_never_400. now rewrite Htrim. }
    destruct inChat; cbn [ChatInput.sent_text]; intros [= E]; now apply Hgoal.
  - intros t.
    destruct (negb (nonempty (trim message)) && (length files =? 0)%nat || sending);
      [discriminate |].
    destruct inChat; cbn [ChatInput.asked_title]; [discriminate |]. intros [= <-].
    destruct (trim message) as [|c r] eqn:E; [discriminate |].
    assert (E' : trim (trim message) = c :: r) by now rewrite trim_idem.
    destruct (firstWords_head (trim message) c r E') as (w & Hw).
    unfold firstWords in Hw. rewrite E' in Hw. change (js " ") with [SPACE] in Hw.
    change (js " ") with [SPACE]. rewrite Hw. discriminate.
Qed.

(** X16. A conversation opened from the input box with some text: the
    title asked for at creation is the first six space-separated pieces of
    the trimmed text, uncut, and the text sent is the trimmed text.  The
    relay derives its title from the same pieces, so when they hold at most
    50 code units the title does not change after the first exchange. *)
Theorem X16_new_chat_title (F : Type) (message : jsstr) (files : list F) :
  trim message <> [] ->
  ChatInput.handleSend message files false false
  = ChatInput.CreateChat (firstWords message) (trim message) files
  /\ derive_title (trim message) = derive_title message
  /\ ((length (firstWords message) <= 50)%nat ->
      derive_title (trim message) = firstWords message).
Proof.
  intros Ht. split; [| split].
  - unfold ChatInput.handleSend, ChatInput.text_to_send, firstWords.
    destruct (trim message) as [|c r] eqn:E; [contradiction | reflexivity].
  - apply derive_title_trim.
  - intros Hle. rewrite derive_title_trim. now apply derive_title_short.
Qed.

Lemma X16_witness :
  ChatInput.handleSend (js " Can you help me understand recursion please ") [1%nat] false false
  = ChatInput.CreateChat (firstWords (js " Can you help me understand recursion please "))
      (trim (js " Can you help me understand recursion please ")) [1%nat]
  /\ derive_title (trim (js " Can you help me understand recursion please "))
     = derive_title (js " Can you help me understand recursion please ")
  /\ ((length (firstWords (js " Can you help me understand recursion please ")) <= 50)%nat ->
      derive_title (trim (js " Can you help me understand recursion please "))
      = firstWords (js " Can you help me understand recursion please ")).
Proof.
  apply (X16_new_chat_title nat (js " Can you help me understand recursion please ") [1%nat]).
  vm_compute; discriminate.
Defined.

(** X17. [sendMessage] and the relay agree on the text: for a text that is
    not blank the hook shows, ahead of the request, a user message with the
    trimmed text, the request carries that text, the relay never answers it
    with 400, and the user message the relay records has the same content. *)
Theorem X17_hook_and_relay_agree_on_text (clk : Clock) (now : Z)
    (up : SimulateRoute.Upstream) (db : Store) (uid : option jsstr) (cid text : jsstr)
    (fs : option (list ProcessedFile)) (st : UseChat.State) (view : Chat) :
  trim text <> [] ->
  UseChat.chat st = Some view ->
  let req := request_of uid cid text fs in
  message_missing (message req) = false
  /\ status (fst (SimulateRoute.POST clk up db req)) <> 400
  /\ content (userMessage_of clk req fs) = trim text
  /\ exists view' shown,
       UseChat.chat (UseChat.begin text false now st) = Some view'
       /\ messages view' = messages view ++ [shown]
       /\ role shown = user
       /\ content shown = content (userMessage_of clk req fs).
Proof.
  intros Ht Hv req. split; [now apply message_missing_trim |].
  split; [now apply simulate_never_400 |].
  assert (Hc : content (userMessage_of clk req fs) = trim text).
  { cbn [userMessage_of content req request_of message default from_option id].
    apply trim_idem. }
  split; [exact Hc |].
  unfold UseChat.begin, UseChat.setChat. cbn [UseChat.chat]. rewrite Hv.
  cbn [fmap option_fmap option_map]. do 2 eexists. split; [reflexivity |].
  cbn [UseChat.with_messages messages]. split; [reflexivity |].
  split; [reflexivity |]. now rewrite Hc.
Qed.

Lemma X17_witness :
  let req := request_of (Some Examples.alice) Examples.cid0 (js "  2+2?  ") None in
  message_missing (message req) = false
  /\ status (fst (SimulateRoute.POST Examples.clk0 Examples.batch_ok Examples.db0 req)) <> 400
  /\ content (userMessage_of Examples.clk0 req None) = trim (js "  2+2?  ")
  /\ exists view' shown,
       UseChat.chat (UseChat.begin (js "  2+2?  ") false 3000 Samples.view0) = Some view'
       /\ messages view' = messages Examples.new_chat ++ [shown]
       /\ role shown = user
       /\ content shown = content (userMessage_of Examples.clk0 req None).
Proof.
  apply (X17_hook_and_relay_agree_on_text Examples.clk0 3000 Examples.batch_ok Examples.db0
           (Some Examples.alice) Examples.cid0 (js "  2+2?  ") None Samples.view0
           Examples.new_chat).
  - vm_compute; discriminate.
  - reflexivity.
Defined.

(** X18. What the relays send to the provider for a request that found a
    conversation: one system message, then every stored message in order,
    then the new user message, once.  The streaming relay sends the trimmed
    text; the simulated relay sends the same when there is no attachment,
    and otherwise the trimmed text followed by the description of the
    attachments, which is never stored. *)
Theorem X18_provider_sees_whole_history (clk : Clock) (chat : Chat) (req : Request) :
  let text := default [] (message req) in
  Provider.stream_request clk chat req
  = {| Provider.p_role := Provider.system; Provider.p_content := Provider.STREAM_SYSTEM |}
    :: List.map Provider.of_message (messages chat)
    ++ [{| Provider.p_role := Provider.turn user; Provider.p_content := trim text |}]
  /\ Provider.simulate_request clk chat req
     = {| Provider.p_role := Provider.system; Provider.p_content := Provider.SIMULATE_SYSTEM |}
       :: List.map Provider.of_message (messages chat)
       ++ [{| Provider.p_role := Provider.turn user;
              Provider.p_content := Provider.aiContextMessage text (req_files req) |}]
  /\ (exists described,
        Provider.aiContextMessage text (req_files req) = trim text ++ described
        /\ (described = [] <-> no_attachments (req_files req) = true))
  /\ content (Mongo.cast (userMessage_of clk req (req_files req))) = trim text.
Proof.
  intros text. split; [| split; [| split]].
  - unfold Provider.stream_request, Provider.stream_messages, Mongo.push.
    cbn [messages]. now rewrite map_app.
  - unfold Provider.simulate_request, Provider.simulate_messages, Mongo.push.
    cbn [messages]. now rewrite removelast_last.
  - unfold Provider.aiContextMessage, no_attachments.
    destruct (req_files req) as [[|f fs]|].
    + exists []. now rewrite app_nil_r.
    + eexists. split; [reflexivity |]. split; discriminate.
    + exists []. now rewrite app_nil_r.
  - reflexivity.
Qed.

(** X19. A first message whose first six pieces run past 100 code units
    cannot open a conversation from the input box: the title asked for is
    those pieces uncut, the schema refuses it, and the create route answers
    500 and stores nothing. *)
Theorem X19_long_first_message_is_refused (F : Type) (message : jsstr) (files : list F)
    (now_new now_save : Z) (newId : jsstr) (db : Store) (uid : jsstr) :
  (100 < length (firstWords message))%nat ->
  uid <> [] ->
  ChatInput.asked_title (ChatInput.handleSend message files false false)
  = Some (firstWords message)
  /\ ChatsRoute.POST now_new now_save newId db (Some uid) (Some (firstWords message))
     = (ChatsRoute.Error 500 (js "Internal server error"), db).
Proof.
  intros Hlong Hu. split.
  - unfold ChatInput.handleSend, firstWords in *.
    destruct (trim message) as [|c r] eqn:E; [vm_compute in Hlong; lia | reflexivity].
  - unfold ChatsRoute.POST.
    assert (Ha : unauthenticated (Some uid) = false)
      by (destruct uid; [contradiction | reflexivity]).
    rewrite Ha. destruct (firstWords message) as [|c t] eqn:E; [simpl in Hlong; lia |].
    destruct (db !! newId); [reflexivity |].
    assert (Hv : Schema.valid {| userId := default [] (Some uid); title := c :: t;
                                 messages := []; createdAt := now_new;
                                 updatedAt := now_new |} = false).
    { unfold Schema.valid. cbn [title messages forallb].
      assert (Hl : (length (c :: t) <=? 100)%nat = false) by (apply Nat.leb_gt; exact Hlong).
      rewrite Hl. now rewrite andb_false_r. }
    now rewrite Hv.
Qed.

Lemma X19_witness :
  ChatInput.asked_title (ChatInput.handleSend Samples.long_message (@nil nat) false false)
  = Some (firstWords Samples.long_message)
  /\ ChatsRoute.POST 7 8 Samples.cid1 Examples.db0 (Some Examples.alice)
       (Some (firstWords Samples.long_message))
     = (ChatsRoute.Error 500 (js "Internal server error"), Examples.db0).
Proof.
  apply (X19_long_first_message_is_refused nat Samples.long_message [] 7 8 Samples.cid1
           Examples.db0 Examples.alice).
  - vm_compute; lia.
  - vm_compute; discriminate.
Defined.

(** ** Strangers and the order of the list *)

Section Strangers.

Lemma stranger_refused db req chat uid :
  db !! chatId req = Some chat ->
  auth_userId req = Some uid -> uid <> [] -> userId chat <> uid ->
  unauthenticated (auth_userId req) = false
  /\ Mongo.findOne db (chatId req) (default [] (auth_userId req)) = None.
Proof.
  intros Hl Ha Hu Hne. rewrite Ha. cbn [default from_option id]. split.
  - destruct uid; [contradiction | reflexivity].
  - now apply (findOne_other_owner db (chatId req) uid chat).
Qed.

End Strangers.

(** X20. Both relays refuse a caller who does not own the conversation:
    the answer is 404, or 400 when the text is missing, which is checked
    first; no event is sent and nothing is written. *)
Theorem X20_relays_refuse_strangers (clk : Clock) (db : Store) (req : Request)
    (chat : Chat) (uid : jsstr)
    (up1 : StreamRoute.Upstream) (up2 : SimulateRoute.Upstream) :
  db !! chatId req = Some chat ->
  auth_userId req = Some uid ->
  uid <> [] ->
  userId chat <> uid ->
  let refusal :=
    if message_missing (message req) then Plain 400 (js "Message is required")
    else Plain 404 (js "Chat not found") in
  StreamRoute.POST clk up1 db req = (refusal, db)
  /\ SimulateRoute.POST clk up2 db req = (refusal, db).
Proof.
  intros Hl Ha Hu Hne refusal. subst refusal.
  destruct (stranger_refused db req chat uid Hl Ha Hu Hne) as [Hauth Hf].
  unfold StreamRoute.POST, SimulateRoute.POST. rewrite Hauth.
  destruct (message_missing (message req)); [split; reflexivity |].
  rewrite Hf. split; reflexivity.
Qed.

Lemma X20_witness :
  let refusal :=
    if message_missing (message Samples.req_bob) then Plain 400 (js "Message is required")
    else Plain 404 (js "Chat not found") in
  StreamRoute.POST Examples.clk0 StreamRoute.FetchFails Examples.db0 Samples.req_bob
  = (refusal, Examples.db0)
  /\ SimulateRoute.POST Examples.clk0 Examples.batch_ok Examples.db0 Samples.req_bob
     = (refusal, Examples.db0).
Proof.
  apply (X20_relays_refuse_strangers Examples.clk0 Examples.db0 Samples.req_bob
           Examples.new_chat Examples.bob StreamRoute.FetchFails Examples.batch_ok).
  - vm_compute; reflexivity.
  - reflexivity.
  - vm_compute; discriminate.
  - vm_compute; discriminate.
Defined.

Section TopOfList.
Import ChatsRoute.



End TopOfList.



(** ** The title in the list of conversations *)

Section SidebarTitle.
Import UseChat.

Lemma eqb_refl (a : jsstr) : JsString.eqb a a = true.
Proof. induction a as [|x a IH]; [reflexivity |]. cbn [JsString.eqb]. now rewrite N.eqb_refl. Qed.







End SidebarTitle.



(** ** Attachments *)

Section Attachments.
Import FilesRoute.

Lemma placeholder_bracket file : exists rest, placeholder file = 91 :: rest.
Proof.
  unfold placeholder. destruct (startsWith (js "image/") (u_mimeType file)); [now eexists |].
  destruct (JsString.eqb (u_mimeType file) (js "application/pdf")); now eexists.
Qed.

Lemma fileDescription_bracket n m rest :
  Provider.fileDescription {| name := n; mimeType := m; textContent := Some (91 :: rest) |}
  = js "File: " ++ n ++ js " (" ++ m ++ js ")".
Proof. reflexivity. Qed.

End Attachments.

(** X23. An upload that is neither text nor JSON, whether it comes as a
    data URL or not: the processing route gives it a placeholder text that
    starts with a bracket, and the simulated relay then describes the file
    to the provider by name and type only; the placeholder is never quoted
    as the content of the file. *)
Theorem X23_placeholders_are_not_quoted (base64_utf8 : jsstr -> jsstr)
    (fetched : FilesRoute.UploadedFile -> option jsstr) (file : FilesRoute.UploadedFile) :
  FilesRoute.is_text (FilesRoute.u_mimeType file) = false ->
  (exists rest,
     textContent (FilesRoute.process base64_utf8 fetched file) = Some (91 :: rest))
  /\ Provider.fileDescription (FilesRoute.process base64_utf8 fetched file)
     = js "File: " ++ FilesRoute.u_name file ++ js " (" ++ FilesRoute.u_mimeType file ++ js ")".
Proof.
  intros Hnot. unfold FilesRoute.process. rewrite Hnot.
  destruct (placeholder_bracket file) as (rest & Hp).
  assert (E : (if startsWith (js "data:") (FilesRoute.cdnUrl file)
               then Some (FilesRoute.placeholder file)
               else Some (FilesRoute.placeholder file)) = Some (91 :: rest))
    by (rewrite Hp; now destruct (startsWith _ _)).
  rewrite E. split; [now exists rest | apply fileDescription_bracket].
Qed.

Lemma X23_witness :
  (exists rest,
     textContent (FilesRoute.process (fun s => s) (fun _ => None) Samples.photo)
     = Some (91 :: rest))
  /\ Provider.fileDescription (FilesRoute.process (fun s => s) (fun _ => None) Samples.photo)
     = js "File: " ++ FilesRoute.u_name Samples.photo ++ js " ("
       ++ FilesRoute.u_mimeType Samples.photo ++ js ")".
Proof.
  apply (X23_placeholders_are_not_quoted (fun s => s) (fun _ => None) Samples.photo).
  vm_compute; reflexivity.
Defined.

